(** * Service Desk Assistant: the agent loop of [module/aiagent.py] and the
    dispatch path of [module/mcpserver.py], embedded in Rocq.

    Python values are modelled as the code has them: a [str] is a sequence
    of Unicode code points, JSON-like data is a tagged tree whose mappings
    keep insertion order, a chat message is a record of the keys the agent
    writes, and the generator
    [_stream_chat_with_tools] is a function that returns the actions it
    performed (events yielded, backend requests, sleeps, tool dispatches),
    the final transcript and how it ended. *)

From Stdlib Require Import ZArith NArith String Ascii List Bool Lia.
From stdpp Require Import base decidable option list gmap sorting pretty.

Open Scope N_scope.
Open Scope list_scope.

(* ===================================================================== *)
(** ** Python strings                                                     *)
(* ===================================================================== *)

(** A Python [str] is a sequence of code points; [len] is [length]. *)
Definition char := N.
Definition pystr := list char.

(** String literals of the source are written as Rocq strings (UTF-8) and
    decoded to code points. *)
Fixpoint utf8_decode (bs : list N) : pystr :=
  match bs with
  | [] => []
  | b0 :: r0 =>
    if b0 <? 128 then b0 :: utf8_decode r0
    else match r0 with
    | [] => [b0]
    | b1 :: r1 =>
      if b0 <? 224 then ((b0 - 192) * 64 + (b1 - 128)) :: utf8_decode r1
      else match r1 with
      | [] => [b0; b1]
      | b2 :: r2 =>
        if b0 <? 240
        then ((b0 - 224) * 4096 + (b1 - 128) * 64 + (b2 - 128)) :: utf8_decode r2
        else match r2 with
        | [] => [b0; b1; b2]
        | b3 :: r3 =>
          ((b0 - 240) * 262144 + (b1 - 128) * 4096 + (b2 - 128) * 64 + (b3 - 128))
            :: utf8_decode r3
        end
      end
    end
  end.

Fixpoint bytes_of_string (s : string) : list N :=
  match s with
  | EmptyString => []
  | String a r => N_of_ascii a :: bytes_of_string r
  end.

Definition u (s : string) : pystr := utf8_decode (bytes_of_string s).

(** [s.startswith(p)] *)
Fixpoint startswith (p s : pystr) : bool :=
  match p, s with
  | [], _ => true
  | _ :: _, [] => false
  | a :: p', b :: s' => (a =? b) && startswith p' s'
  end.

(** [sub in s] on strings: [sub] occurs in [s] as a contiguous slice. *)
Fixpoint str_in (sub s : pystr) : bool :=
  match s with
  | [] => startswith sub []
  | _ :: s' => startswith sub s || str_in sub s'
  end.

(** [s == t] *)
Definition str_eqb (s t : pystr) : bool := bool_decide (s = t).

(** [s.split(sep)] for a non-empty separator: the pieces between the
    non-overlapping occurrences of [sep], scanned from the left. [piece]
    is the piece being read, reversed. *)
Fixpoint split_go (sep : pystr) (piece : pystr) (s : pystr) (skip : nat)
  : list pystr :=
  match s with
  | [] => [reverse piece]
  | c :: s' =>
    match skip with
    | S k => split_go sep piece s' k
    | O =>
      if startswith sep s
      then reverse piece :: split_go sep [] s' (length sep - 1)
      else split_go sep (c :: piece) s' 0
    end
  end.

Definition split (sep s : pystr) : list pystr := split_go sep [] s 0.

(** [s.replace(old, empty)]: every occurrence of [old] is dropped. *)
Definition remove_all (old s : pystr) : pystr := concat (split old s).

(** [s.split(sep, 1)]: cut at the first occurrence of the one-character
    separator; a single piece when it does not occur. *)
Fixpoint split_once (sep : char) (s : pystr) : list pystr :=
  match s with
  | [] => [[]]
  | c :: s' =>
    if c =? sep then [[]; s']
    else match split_once sep s' with
         | p :: rest => (c :: p) :: rest
         | [] => [[c]]
         end
  end.

(** The Unicode tables behind [str.isprintable], [str.isalnum] and
    [str.lower]. They belong to the interpreter, not to the repository, so
    the development is generic in them; the only fact used is that the
    visible ASCII characters are printable. *)
Class PyUnicode := {
  isprintable : char -> bool;
  isalnum : char -> bool;
  lower : pystr -> pystr;
  isprintable_ascii : forall c, 32 <= c <= 126 -> isprintable c = true
}.

(** The tables on ASCII, where they are exact; CJK ideographs (the source's
    literals) are printable letters; other code points are taken printable
    and caseless. The examples stay inside ASCII and the source's literals. *)
Definition ascii_isprintable (c : char) : bool :=
  ((32 <=? c) && (c <=? 126)) || (161 <=? c) && negb (c =? 173).

Definition ascii_isalnum (c : char) : bool :=
  ((48 <=? c) && (c <=? 57)) || ((65 <=? c) && (c <=? 90))
  || ((97 <=? c) && (c <=? 122)) || ((19968 <=? c) && (c <=? 40959)).

Definition ascii_lower (s : pystr) : pystr :=
  map (fun c => if (65 <=? c) && (c <=? 90) then c + 32 else c) s.

Lemma ascii_isprintable_ascii c : 32 <= c <= 126 -> ascii_isprintable c = true.
Proof.
  intros [Hlo Hhi]. unfold ascii_isprintable.
  apply N.leb_le in Hlo. apply N.leb_le in Hhi. now rewrite Hlo, Hhi.
Qed.

#[export] Instance ascii_tables : PyUnicode := {|
  isprintable := ascii_isprintable;
  isalnum := ascii_isalnum;
  lower := ascii_lower;
  isprintable_ascii := ascii_isprintable_ascii
|}.

(* ===================================================================== *)
(** ** JSON-like values                                                   *)
(* ===================================================================== *)

(** What tools return and what [json.loads] produces. A [dict] keeps its
    insertion order; its keys are strings and pairwise distinct. Floats are
    left out: every function below passes a float through like the other
    scalars. [VObject] is any other Python object, kept as the name of its
    type: a [datetime], a [Decimal] or [bytes] in a row that [mcp/mysql.py]
    or [mcp/sqlite.py] returns. The agent passes such an object on as it is,
    and [json.dumps] raises on it. *)
Unset Elimination Schemes.
Inductive value :=
| VNull
| VBool (b : bool)
| VInt (z : Z)
| VStr (s : pystr)
| VList (l : list value)
| VDict (d : list (pystr * value))
| VObject (type_name : pystr).
Set Elimination Schemes.

Section value_ind.
Variable P : value -> Prop.
Hypothesis Hnull : P VNull.
Hypothesis Hbool : forall b, P (VBool b).
Hypothesis Hint : forall z, P (VInt z).
Hypothesis Hstr : forall s, P (VStr s).
Hypothesis Hlist : forall l, Forall P l -> P (VList l).
Hypothesis Hdict : forall d, Forall (fun kv => P (snd kv)) d -> P (VDict d).
Hypothesis Hobject : forall t, P (VObject t).

Fixpoint value_ind (v : value) : P v :=
  match v with
  | VNull => Hnull
  | VBool b => Hbool b
  | VInt z => Hint z
  | VStr s => Hstr s
  | VList l =>
    Hlist l ((fix go (l : list value) : Forall P l :=
                match l with
                | [] => List.Forall_nil P
                | x :: r => @List.Forall_cons _ P x r (value_ind x) (go r)
                end) l)
  | VDict d =>
    Hdict d ((fix go (d : list (pystr * value))
                : Forall (fun kv => P (snd kv)) d :=
                match d with
                | [] => List.Forall_nil _
                | kv :: r => @List.Forall_cons _ _ kv r (value_ind (snd kv)) (go r)
                end) d)
  | VObject t => Hobject t
  end.
End value_ind.

Definition dict := list (pystr * value).

(** [d.get(k)] and [d[k]] on an insertion-ordered mapping. *)
Fixpoint dict_get (k : pystr) (d : dict) : option value :=
  match d with
  | [] => None
  | (k', v) :: r => if str_eqb k' k then Some v else dict_get k r
  end.

(** [d[k] = v]: an existing key keeps its place, a new one goes last. *)
Fixpoint dict_set (k : pystr) (v : value) (d : dict) : dict :=
  match d with
  | [] => [(k, v)]
  | (k', v') :: r => if str_eqb k' k then (k', v) :: r else (k', v') :: dict_set k v r
  end.

(** [list(d.keys())] *)
Definition dict_keys (d : dict) : list pystr := map fst d.

(** The [json] module: [json.dumps(v, ensure_ascii=False)] and [json.loads],
    which gives [None] where the call raises. The module is the
    interpreter's; the agent is verified for any such pair. [json_dumps] is
    the text for a value that serializes; where [json.dumps] raises is told
    by [not_serializable] below, and the agent's one call on data it has not
    built itself asks that first. *)
Class PyJson := {
  json_dumps : value -> pystr;
  json_loads : pystr -> option value
}.

(** Where [json.dumps] raises its [TypeError]: the name of the type of the
    first object the encoder meets that is no JSON data, going through lists
    and mappings in their order; [None] when there is none. *)
Fixpoint not_serializable (v : value) : option pystr :=
  match v with
  | VObject t => Some t
  | VList l => head (omap not_serializable l)
  | VDict d => head (omap (fun kv => not_serializable (snd kv)) d)
  | _ => None
  end.

(** The text of that [TypeError], as [json.encoder] words it. *)
Definition not_json_serializable (t : pystr) : pystr :=
  u "Object of type " ++ t ++ u " is not JSON serializable".

(** What [str(e)] reads for the two [TypeError]s the interpreter raises when
    [call_tool(func_name, **arguments)] cannot bind its arguments. *)
Class PyErrors := {
  not_a_mapping : value -> pystr;
  multiple_values : pystr -> pystr
}.

(* ===================================================================== *)
(** ** The [json] module on float-free data                               *)
(* ===================================================================== *)

(** The encoder and the decoder as CPython runs them, for values without
    floats: [ensure_ascii=False], the default separators, strict strings.
    A number with a fraction or an exponent, [NaN] and [Infinity] decode to
    floats in CPython and lie outside [value]; the decoder below gives
    [None] on them, and no example uses one. The decoder has no bound on
    the digits of an integer or on the depth of nesting, where CPython
    raises past 4300 digits and past its recursion limit; no example comes
    near either. The encoder gives no text for an object that is no JSON
    data, where [json.dumps] raises. *)
Module CPythonJson.

Definition hex_digit (n : N) : char := if n <? 10 then 48 + n else 87 + n.

Definition escape_char (c : char) : pystr :=
  if c =? 34 then [92; 34]
  else if c =? 92 then [92; 92]
  else if c =? 10 then [92; 110]
  else if c =? 13 then [92; 114]
  else if c =? 9 then [92; 116]
  else if c =? 8 then [92; 98]
  else if c =? 12 then [92; 102]
  else if c <? 32 then [92; 117; 48; 48; hex_digit (c / 16); hex_digit (c mod 16)]
  else [c].

Definition encode_str (s : pystr) : pystr := 34 :: flat_map escape_char s ++ [34].

(** [sep.join(parts)] *)
Fixpoint join (sep : pystr) (parts : list pystr) : pystr :=
  match parts with
  | [] => []
  | [p] => p
  | p :: rest => p ++ sep ++ join sep rest
  end.

Fixpoint dumps (v : value) : pystr :=
  match v with
  | VNull => u "null"
  | VBool true => u "true"
  | VBool false => u "false"
  | VInt z => u (pretty z)
  | VStr s => encode_str s
  | VList l => 91 :: join (u ", ") (map dumps l) ++ [93]
  | VDict d =>
    123 :: join (u ", ")
             (map (fun kv => encode_str (fst kv) ++ u ": " ++ dumps (snd kv)) d)
        ++ [125]
  | VObject _ => []
  end.

Definition is_ws (c : char) : bool :=
  (c =? 32) || (c =? 9) || (c =? 10) || (c =? 13).

Fixpoint skip_ws (s : pystr) : pystr :=
  match s with
  | c :: r => if is_ws c then skip_ws r else s
  | [] => []
  end.

Definition is_digit (c : char) : bool := (48 <=? c) && (c <=? 57).

Definition hex_val (c : char) : option N :=
  if is_digit c then Some (c - 48)
  else if (97 <=? c) && (c <=? 102) then Some (c - 87)
  else if (65 <=? c) && (c <=? 70) then Some (c - 55)
  else None.

Definition hex4 (s : pystr) : option (N * pystr) :=
  match s with
  | a :: b :: c :: d :: r =>
    match hex_val a, hex_val b, hex_val c, hex_val d with
    | Some x, Some y, Some z, Some w => Some (((x * 16 + y) * 16 + z) * 16 + w, r)
    | _, _, _, _ => None
    end
  | _ => None
  end.

(** The low half of a surrogate pair, when one follows a high half. *)
Definition low_surrogate (hi : N) (s : pystr) : option (N * pystr) :=
  if (55296 <=? hi) && (hi <=? 56319) then
    match s with
    | b :: c :: r =>
      if (b =? 92) && (c =? 117) then
        match hex4 r with
        | Some (lo, rest) =>
          if (56320 <=? lo) && (lo <=? 57343)
          then Some (65536 + (hi - 55296) * 1024 + (lo - 56320), rest)
          else None
        | None => None
        end
      else None
    | _ => None
    end
  else None.

Definition unescape (e : char) : option char :=
  if e =? 34 then Some 34 else if e =? 92 then Some 92
  else if e =? 47 then Some 47 else if e =? 98 then Some 8
  else if e =? 102 then Some 12 else if e =? 110 then Some 10
  else if e =? 114 then Some 13 else if e =? 116 then Some 9
  else None.

(** The characters of a string literal after its opening quote. *)
Fixpoint scan_string (fuel : nat) (s : pystr) (acc : pystr) : option (pystr * pystr) :=
  match fuel with
  | O => None
  | S fuel =>
    match s with
    | [] => None
    | c :: r =>
      if c =? 34 then Some (reverse acc, r)
      else if c =? 92 then
        match r with
        | [] => None
        | e :: r' =>
          if e =? 117 then
            match hex4 r' with
            | None => None
            | Some (hi, r'') =>
              match low_surrogate hi r'' with
              | Some (cp, rest) => scan_string fuel rest (cp :: acc)
              | None => scan_string fuel r'' (hi :: acc)
              end
            end
          else
            match unescape e with
            | Some ch => scan_string fuel r' (ch :: acc)
            | None => None
            end
        end
      else if c <? 32 then None
      else scan_string fuel r (c :: acc)
    end
  end.

Fixpoint take_digits (s : pystr) : pystr * pystr :=
  match s with
  | c :: r =>
    if is_digit c then let '(ds, rest) := take_digits r in (c :: ds, rest)
    else ([], s)
  | [] => ([], [])
  end.

Definition digits_val (ds : pystr) : Z :=
  fold_left (fun a d => (10 * a + Z.of_N (d - 48))%Z) ds 0%Z.

(** What follows the integer part makes the literal a float. *)
Definition float_tail (s : pystr) : bool :=
  match s with
  | c :: d :: r =>
    if c =? 46 then is_digit d
    else if (c =? 101) || (c =? 69) then
      is_digit d
      || (((d =? 43) || (d =? 45)) && match r with e :: _ => is_digit e | [] => false end)
    else false
  | _ => false
  end.

Definition scan_number (s : pystr) : option (value * pystr) :=
  let '(neg, s1) :=
    match s with
    | c :: r => if c =? 45 then (true, r) else (false, s)
    | [] => (false, s)
    end in
  let finish (n : Z) (rest : pystr) :=
    if float_tail rest then None
    else Some (VInt (if neg then - n else n)%Z, rest) in
  match s1 with
  | c :: r =>
    if c =? 48 then finish 0%Z r
    else if is_digit c then let '(ds, rest) := take_digits s1 in finish (digits_val ds) rest
    else None
  | [] => None
  end.

(** [dict(pairs)]: a repeated key keeps its first place and its last value. *)
Definition dict_of_pairs (pairs : list (pystr * value)) : dict :=
  fold_left (fun d kv => dict_set (fst kv) (snd kv) d) pairs [].

Fixpoint scan_once (fuel : nat) (s : pystr) : option (value * pystr) :=
  match fuel with
  | O => None
  | S fuel =>
    match s with
    | [] => None
    | c :: r =>
      if c =? 34 then
        match scan_string (length s) r [] with
        | Some (str, rest) => Some (VStr str, rest)
        | None => None
        end
      else if c =? 123 then
        match skip_ws r with
        | c' :: r' =>
          if c' =? 125 then Some (VDict [], r')
          else if c' =? 34 then scan_pairs fuel r' []
          else None
        | [] => None
        end
      else if c =? 91 then
        match skip_ws r with
        | c' :: r' => if c' =? 93 then Some (VList [], r') else scan_items fuel (c' :: r') []
        | [] => None
        end
      else if startswith (u "null") s then Some (VNull, drop 4 s)
      else if startswith (u "true") s then Some (VBool true, drop 4 s)
      else if startswith (u "false") s then Some (VBool false, drop 5 s)
      else scan_number s
    end
  end
with scan_items (fuel : nat) (s : pystr) (acc : list value) : option (value * pystr) :=
  match fuel with
  | O => None
  | S fuel =>
    match scan_once fuel s with
    | None => None
    | Some (v, rest) =>
      match skip_ws rest with
      | c :: r =>
        if c =? 93 then Some (VList (reverse (v :: acc)), r)
        else if c =? 44 then scan_items fuel (skip_ws r) (v :: acc)
        else None
      | [] => None
      end
    end
  end
with scan_pairs (fuel : nat) (s : pystr) (acc : list (pystr * value))
  : option (value * pystr) :=
  match fuel with
  | O => None
  | S fuel =>
    match scan_string (length s) s [] with
    | None => None
    | Some (key, rest) =>
      match skip_ws rest with
      | c :: r =>
        if c =? 58 then
          match scan_once fuel (skip_ws r) with
          | None => None
          | Some (v, rest') =>
            match skip_ws rest' with
            | c' :: r' =>
              if c' =? 125 then Some (VDict (dict_of_pairs (reverse ((key, v) :: acc))), r')
              else if c' =? 44 then
                match skip_ws r' with
                | q :: r'' => if q =? 34 then scan_pairs fuel r'' ((key, v) :: acc) else None
                | [] => None
                end
              else None
            | [] => None
            end
          end
        else None
      | [] => None
      end
    end
  end.

Definition loads (s : pystr) : option value :=
  if startswith [65279] s then None
  else
    match scan_once (2 * length s + 2) (skip_ws s) with
    | Some (v, rest) => match skip_ws rest with [] => Some v | _ :: _ => None end
    | None => None
    end.

End CPythonJson.

#[export] Instance cpython_json : PyJson := {|
  json_dumps := CPythonJson.dumps;
  json_loads := CPythonJson.loads
|}.

(** The texts CPython 3.10 and later give the two [TypeError]s; the first
    names the function with its module, [module.mcpserver], the second
    without. *)
Definition type_name (v : value) : pystr :=
  match v with
  | VNull => u "NoneType"
  | VBool _ => u "bool"
  | VInt _ => u "int"
  | VStr _ => u "str"
  | VList _ => u "list"
  | VDict _ => u "dict"
  | VObject t => t
  end.

#[export] Instance cpython_errors : PyErrors := {|
  not_a_mapping v :=
    u "module.mcpserver.MCPService.call_tool() argument after ** must be a mapping, not "
    ++ type_name v;
  multiple_values k :=
    u "MCPService.call_tool() got multiple values for argument '" ++ k ++ u "'"
|}.

(* ===================================================================== *)
(** ** aiagent.py: module-level helpers                                   *)
(* ===================================================================== *)

Definition CHARS_PER_TOKEN_num : Z := 5.
Definition CHARS_PER_TOKEN_den : Z := 2.
Definition MAX_TOOL_RESULT_TOKENS : Z := 80000.

(** [int(len(text) / 2.5)]. The exact quotient [2*len/5] is an integer or at
    least 0.2 away from one, so the rounding of the float division never
    crosses an integer for a length a machine can hold, and truncation gives
    the integer quotient. *)
Definition estimate_tokens (text : pystr) : Z :=
  (CHARS_PER_TOKEN_den * Z.of_nat (length text) / CHARS_PER_TOKEN_num)%Z.

Section Redaction.
Context `{PyUnicode}.

(** [c in '\n\r\t'] *)
Definition is_nrt (c : char) : bool := (c =? 10) || (c =? 13) || (c =? 9).

Definition clean_utf8 (text : pystr) : pystr :=
  List.filter (fun c => isprintable c || is_nrt c) text.

Definition REDACTED : pystr := u "***REDACTED***".

Definition default_sensitive_keys : list pystr :=
  [u "access_token"; u "token"; u "password"; u "secret"; u "api_key"].

(** [k.lower() in sensitive_keys or any(sk in k.lower() for sk in sensitive_keys)] *)
Definition sensitive_key (sensitive_keys : list pystr) (k : pystr) : bool :=
  existsb (str_eqb (lower k)) sensitive_keys
  || existsb (fun sk => str_in sk (lower k)) sensitive_keys.

(** The body of [redact_sensitive_data] once [sensitive_keys] is set. The
    loop over [sensitive_keys] that returns at the first hit is [existsb]. *)
Fixpoint redact_rec (sensitive_keys : list pystr) (data : value) : value :=
  match data with
  | VDict d =>
    VDict (map (fun kv =>
                  (fst kv,
                   if sensitive_key sensitive_keys (fst kv) then VStr REDACTED
                   else redact_rec sensitive_keys (snd kv))) d)
  | VList l => VList (map (redact_rec sensitive_keys) l)
  | VStr s =>
    if (50 <? length s)%nat && existsb isalnum s
       && existsb (fun sk => str_in sk (lower s)) sensitive_keys
    then VStr REDACTED
    else VStr (clean_utf8 s)
  | _ => data
  end.

Definition redact_sensitive_data (data : value)
    (sensitive_keys : option (list pystr)) : value :=
  redact_rec (default default_sensitive_keys sensitive_keys) data.

(** Every string leaf is free of the characters [clean_utf8] drops. *)
Fixpoint all_printable (data : value) : bool :=
  match data with
  | VDict d => forallb (fun kv => all_printable (snd kv)) d
  | VList l => forallb all_printable l
  | VStr s => forallb (fun c => isprintable c || is_nrt c) s
  | _ => true
  end.

End Redaction.

(* ===================================================================== *)
(** ** mcpserver.py: services and their tools                             *)
(* ===================================================================== *)

(** How a call ends: with a value, or with an exception [e], kept as the
    text [str(e)]. *)
Inductive outcome :=
| Returns (v : value)
| Raises (e : pystr).

(** A registered tool, called with keyword arguments; a coroutine
    function is awaited. A tool is taken as a function of its arguments. *)
Record tool_func := {
  is_coroutine : bool;
  run : dict -> outcome
}.

(** What [get_tools] reads off a loaded module. *)
Record py_module := {
  TOOL_DEFINITIONS : option (list value);
  get_tool_definitions : option (list value)
}.

Record MCPService := {
  svc_name : pystr;
  svc_module : option py_module;
  svc_tools : gmap pystr tool_func;
  svc_loaded : bool
}.

(** [MCPService.call_tool(self, tool_name, **kwargs)] *)
Definition call_tool (service : MCPService) (tool_name : pystr) (kwargs : dict)
  : outcome :=
  if negb (svc_loaded service)
  then Raises (u "MCP服务未加载: " ++ svc_name service)
  else
    match svc_tools service !! tool_name with
    | None => Raises (u "工具不存在: " ++ tool_name)
    | Some tool =>
      if is_coroutine tool then run tool kwargs else run tool kwargs
    end.

(** [services] keeps insertion order, which [get_tools] observes. *)
Record MCPServerManager := {
  services : list (pystr * MCPService)
}.

(** [self.services.get(name)] *)
Fixpoint assoc_get {A} (k : pystr) (l : list (pystr * A)) : option A :=
  match l with
  | [] => None
  | (k', x) :: r => if str_eqb k' k then Some x else assoc_get k r
  end.

Definition get_service (m : MCPServerManager) (name : pystr) : option MCPService :=
  assoc_get name (services m).

(* ===================================================================== *)
(** ** aiagent.py: data                                                   *)
(* ===================================================================== *)

(** One entry of an assistant message's ["tool_calls"]:
    [{"id", "type": "function", "function": {"name", "arguments"}}]. *)
Record tool_call := {
  call_id : pystr;
  call_name : pystr;
  call_arguments : pystr
}.

(** A transcript message. The agent builds four shapes of mapping:
    [{"role", "content"}] (system, user), [{"role", "content",
    "tool_calls"}] (assistant) and [{"role", "tool_call_id", "content"}]
    (tool); [content] is always a [str]. *)
Record message := {
  role : pystr;
  content : pystr;
  tool_calls : option (list tool_call);
  tool_call_id : option pystr
}.

Definition tool_call_json (tc : tool_call) : value :=
  VDict [(u "id", VStr (call_id tc)); (u "type", VStr (u "function"));
         (u "function", VDict [(u "name", VStr (call_name tc));
                               (u "arguments", VStr (call_arguments tc))])].

(** The mapping a message is, keys in the order the agent writes them. *)
Definition message_json (m : message) : value :=
  VDict ([(u "role", VStr (role m))]
         ++ match tool_call_id m with
            | Some i => [(u "tool_call_id", VStr i)]
            | None => []
            end
         ++ [(u "content", VStr (content m))]
         ++ match tool_calls m with
            | Some l => [(u "tool_calls", VList (map tool_call_json l))]
            | None => []
            end).

Definition plain_message (r c : pystr) : message :=
  {| role := r; content := c; tool_calls := None; tool_call_id := None |}.

Definition assistant_message (c : pystr) (l : list tool_call) : message :=
  {| role := u "assistant"; content := c; tool_calls := Some l; tool_call_id := None |}.

Definition tool_message (id c : pystr) : message :=
  {| role := u "tool"; content := c; tool_calls := None; tool_call_id := Some id |}.

(** [self.token_stats]. The two wall-clock entries ([start_time],
    [elapsed_seconds]) are left out. *)
Record token_stats := {
  prompt_tokens : Z;
  completion_tokens : Z;
  total_tokens : Z;
  api_calls : Z;
  n_tool_calls : Z;
  current_prompt : pystr
}.

(** One entry of the non-streaming result's ["tool_calls"]. *)
Record sync_call := {
  sc_name : pystr;
  sc_arguments : value;
  sc_result : option value
}.

(** The mappings the generators yield, by their ["type"]. [ESyncComplete]
    is the ["complete"] mapping of [_sync_chat_with_tools], which carries
    ["tool_calls"] and no statistics. *)
Inductive event :=
| EThink (content : pystr)
| ESay (content : pystr)
| EToolCall (tool_name : pystr) (arguments : value)
| EToolResult (tool_name : pystr) (result : value)
| EProcessInfo (msg : pystr)
| EComplete (think say : pystr) (stats : token_stats)
| ESyncComplete (think say : pystr) (calls : list sync_call)
| EError (content : pystr) (stats : token_stats).

Definition is_tool_call (e : event) : bool :=
  match e with EToolCall _ _ => true | _ => false end.
Definition is_tool_result (e : event) : bool :=
  match e with EToolResult _ _ => true | _ => false end.
Definition is_process_info (e : event) : bool :=
  match e with EProcessInfo _ => true | _ => false end.
Definition is_complete (e : event) : bool :=
  match e with EComplete _ _ _ | ESyncComplete _ _ _ => true | _ => false end.
Definition is_error (e : event) : bool :=
  match e with EError _ _ => true | _ => false end.


(** What the agent does, in order: mappings it yields, requests to the
    model backend, pauses between attempts, and tools it runs. *)
Inductive action :=
| Yield (e : event)
| Request (messages : list message) (tools : option (list value))
| Sleep (seconds : Z)
| Dispatch (tool_name : pystr) (arguments : value).

Definition yielded (acts : list action) : list event :=
  omap (fun a => match a with Yield e => Some e | _ => None end) acts.

Definition unyielded (acts : list action) : list action :=
  List.filter (fun a => match a with Yield _ => false | _ => true end) acts.

(** The streamed response. A fragment of a tool call in a delta: *)
Record function_fragment := {
  fn_name : option pystr;
  fn_arguments : option pystr
}.

Record tool_call_fragment := {
  frag_index : Z;
  frag_id : option pystr;
  frag_function : option function_fragment
}.

Record delta := {
  delta_tool_calls : option (list tool_call_fragment);
  delta_content : option pystr
}.

(** A chunk is [None] when [chunk.choices] is empty, else the delta of its
    first choice. *)
Definition chunk := option delta.

(** What [chat.completions.create] does: it raises, or returns a stream
    that delivers its chunks and then ends or breaks with an exception. *)
Inductive response :=
| ReqFail (e : pystr)
| ReqStream (chunks : list chunk) (broken : option pystr).

(** The world of one invocation. [backend n messages tools] is the answer
    to the [n]-th request ([tools] is [None] when the request offers none).
    [knowledge prompt] is the text [docs_text] when automatic retrieval is
    enabled, the cleaned prompt is not blank and [knowledge_retrieve]
    succeeds with documents. *)
Record World := {
  backend : nat -> list message -> option (list value) -> response;
  knowledge : pystr -> option pystr
}.

Record AIAgent := {
  mcp_manager : option MCPServerManager;
  max_iterations : Z;
  username : pystr;
  cname : pystr
}.

(** The accumulator [collected_tool_calls[idx]]. *)
Record tc_acc := {
  acc_id : pystr;
  acc_name : pystr;
  acc_arguments : pystr
}.

(** The local variables of one turn of the loop. *)
Record turn_state := {
  collected_content : pystr;
  collected_tool_calls : gmap Z tc_acc;
  thinking_content : pystr;
  say_content : pystr;
  in_thinking : bool;
  has_tool_calls : bool
}.

(** What the loop carries from turn to turn: the transcript, the
    statistics, and how many requests the backend has seen. The statistics
    are [self.token_stats], a mapping of the agent and not of the
    invocation. What is followed here is one invocation that has the agent
    to itself from its first step to its last: [app.py] and [router.py]
    hand one agent to every request, and an invocation that runs meanwhile
    on the same agent resets and updates the same mapping, so that the
    numbers the yielded mappings then carry are those of both. *)
Record loop_state := {
  messages : list message;
  stats : token_stats;
  requests : nat
}.

(* ===================================================================== *)
(** ** aiagent.py: the agent                                              *)
(* ===================================================================== *)

Section Agent.
Context `{PyUnicode} `{PyJson} `{PyErrors}.

(** [if x:] on an optional string: present and not empty. *)
Definition truthy (o : option pystr) : option pystr :=
  match o with
  | Some (c :: s) => Some (c :: s)
  | _ => None
  end.

Definition error_result (msg : pystr) : value := VDict [(u "error", VStr msg)].

(** [reset_token_stats] *)
Definition reset_token_stats (prompt : pystr) : token_stats :=
  {| prompt_tokens := 0; completion_tokens := 0; total_tokens := 0;
     api_calls := 0; n_tool_calls := 0; current_prompt := prompt |}.

(** [get_tools] *)
Definition get_tools (a : AIAgent) : list value :=
  match mcp_manager a with
  | None => []
  | Some mgr =>
    flat_map (fun ns =>
                match svc_module (snd ns) with
                | Some m =>
                  match TOOL_DEFINITIONS m with
                  | Some defs => defs
                  | None => default [] (get_tool_definitions m)
                  end
                | None => []
                end) (services mgr)
  end.

(** [service.call_tool(func_name, **arguments)]: the interpreter unpacks
    [arguments], which must be a mapping and must not bind [self] or
    [tool_name] a second time, before [call_tool] runs. *)
Definition call_with (service : MCPService) (func_name : pystr) (arguments : value)
  : outcome :=
  match arguments with
  | VDict kwargs =>
    match List.find (fun k => str_eqb k (u "self") || str_eqb k (u "tool_name"))
                    (dict_keys kwargs) with
    | Some k => Raises (multiple_values k)
    | None => call_tool service func_name kwargs
    end
  | _ => Raises (not_a_mapping arguments)
  end.

(** [execute_tool] *)
Definition execute_tool (a : AIAgent) (tool_name : pystr) (arguments : value) : value :=
  match mcp_manager a with
  | None => error_result (u "MCP管理器未配置")
  | Some mgr =>
    match split_once 95 tool_name with
    | service_name :: func_name :: _ =>
      match get_service mgr service_name with
      | None => error_result (u "MCP服务不存在: " ++ service_name)
      | Some service =>
        match svc_tools service !! func_name with
        | None => error_result (u "工具不存在: " ++ func_name)
        | Some _ =>
          match call_with service func_name arguments with
          | Returns result => result
          | Raises e => error_result e
          end
        end
      end
    | _ => error_result (u "无效的工具名称: " ++ tool_name)
    end
  end.

(** The summary that stands for a compressed tool result. *)
Definition summary (result : value) : value :=
  VDict [(u "compressed", VBool true);
         (u "keys", VList (map VStr match result with
                                    | VDict d => take 10 (dict_keys d)
                                    | _ => []
                                    end));
         (u "note", VStr (u "结果已压缩"))].

(** The body of the loop of [_compress_messages_if_needed]. *)
Definition compress_message (msg : message) : message :=
  if str_eqb (role msg) (u "tool") then
    if (10000 <? estimate_tokens (content msg))%Z then
      match json_loads (content msg) with
      | Some result =>
        {| role := role msg; content := json_dumps (summary result);
           tool_calls := tool_calls msg; tool_call_id := tool_call_id msg |}
      | None => msg
      end
    else msg
  else msg.

Definition transcript_tokens (messages : list message) : Z :=
  fold_right Z.add 0%Z
    (map (fun m => estimate_tokens (json_dumps (message_json m))) messages).

Definition _compress_messages_if_needed (messages : list message) (max_tokens : Z)
  : list message :=
  if (transcript_tokens messages <=? max_tokens)%Z then messages
  else map compress_message messages.

(** [_auto_chunk_large_result] *)
Definition _auto_chunk_large_result (result_json tool_name : pystr) : dict :=
  let truncated :=
    take (N.to_nat 50000) result_json
    ++ [10; 10] ++ u "... [数据过大已截断，原始长度: "
    ++ u (pretty (length result_json)) ++ u " 字符]" in
  [(u "success", VBool true); (u "chunked", VBool false);
   (u "truncated", VBool true); (u "data", VStr truncated);
   (u "message", VStr (u "数据过大已截断"))].

(** The string under ["data"], or the empty string. *)
Definition data_of (d : dict) : pystr :=
  match dict_get (u "data") d with
  | Some (VStr s) => s
  | _ => []
  end.

(** *** Reading the stream *)

Definition empty_acc : tc_acc := {| acc_id := []; acc_name := []; acc_arguments := [] |}.

(** One fragment [tc] of [delta.tool_calls]: the identifier and the name
    are assigned, the argument text is appended. *)
Definition accumulate (collected : gmap Z tc_acc) (tc : tool_call_fragment)
  : gmap Z tc_acc :=
  let idx := frag_index tc in
  let a0 := default empty_acc (collected !! idx) in
  let a1 :=
    match truthy (frag_id tc) with
    | Some i => {| acc_id := i; acc_name := acc_name a0; acc_arguments := acc_arguments a0 |}
    | None => a0
    end in
  let a2 :=
    match frag_function tc with
    | Some f =>
      let a :=
        match truthy (fn_name f) with
        | Some n => {| acc_id := acc_id a1; acc_name := n; acc_arguments := acc_arguments a1 |}
        | None => a1
        end in
      match truthy (fn_arguments f) with
      | Some s =>
        {| acc_id := acc_id a; acc_name := acc_name a;
           acc_arguments := acc_arguments a ++ s |}
      | None => a
      end
    | None => a1
    end in
  <[idx := a2]> collected.

(** The non-empty [delta.tool_calls] of a chunk. *)
Definition fragments (c : chunk) : list tool_call_fragment :=
  match c with
  | Some d => default [] (delta_tool_calls d)
  | None => []
  end.

Definition THINK_OPEN : pystr := u "<think>".
Definition THINK_CLOSE : pystr := u "</think>".

(** The [if delta.content:] block. *)
Definition classify (st : turn_state) (content0 : pystr) : turn_state * list event :=
  let all := collected_content st ++ content0 in
  let opened := str_in THINK_OPEN content0 in
  let thinking := if opened then true else in_thinking st in
  let content := if opened then remove_all THINK_OPEN content0 else content0 in
  if str_in THINK_CLOSE content then
    let parts := split THINK_CLOSE content in
    let p0 := nth 0 parts [] in
    let p1 := nth 1 parts [] in
    ({| collected_content := all;
        collected_tool_calls := collected_tool_calls st;
        thinking_content := thinking_content st ++ p0;
        say_content := say_content st ++ p1;
        in_thinking := false;
        has_tool_calls := has_tool_calls st |},
     match p1 with [] => [] | _ :: _ => [ESay p1] end)
  else if thinking then
    ({| collected_content := all;
        collected_tool_calls := collected_tool_calls st;
        thinking_content := thinking_content st ++ content;
        say_content := say_content st;
        in_thinking := true;
        has_tool_calls := has_tool_calls st |},
     [EThink content])
  else
    ({| collected_content := all;
        collected_tool_calls := collected_tool_calls st;
        thinking_content := thinking_content st;
        say_content := say_content st ++ content;
        in_thinking := false;
        has_tool_calls := has_tool_calls st |},
     [ESay content]).

(** The body of [async for chunk in stream_response]. *)
Definition read_chunk (st : turn_state) (c : chunk) : turn_state * list event :=
  match c with
  | None => (st, [])
  | Some d =>
    let st1 :=
      match fragments c with
      | [] => st
      | frags =>
        {| collected_content := collected_content st;
           collected_tool_calls := fold_left accumulate frags (collected_tool_calls st);
           thinking_content := thinking_content st;
           say_content := say_content st;
           in_thinking := in_thinking st;
           has_tool_calls := true |}
      end in
    match truthy (delta_content d) with
    | Some content0 => classify st1 content0
    | None => (st1, [])
    end
  end.

Fixpoint read_stream (st : turn_state) (chunks : list chunk) : turn_state * list event :=
  match chunks with
  | [] => (st, [])
  | c :: rest =>
    let '(st1, evs) := read_chunk st c in
    let '(st2, evs') := read_stream st1 rest in
    (st2, evs ++ evs')
  end.

Definition fresh_turn : turn_state :=
  {| collected_content := []; collected_tool_calls := ∅; thinking_content := [];
     say_content := []; in_thinking := false; has_tool_calls := false |}.

(** [sorted(collected_tool_calls.keys())] *)
Definition sorted_keys (collected : gmap Z tc_acc) : list Z :=
  merge_sort Z.le (map fst (map_to_list collected)).

(** [tool_calls_list] *)
Definition tool_calls_list (collected : gmap Z tc_acc) : list tool_call :=
  map (fun i =>
         let a := default empty_acc (collected !! i) in
         {| call_id := acc_id a; call_name := acc_name a;
            call_arguments := acc_arguments a |})
      (sorted_keys collected).

End Agent.

(* ===================================================================== *)
(** ** aiagent.py: the loop of [_stream_chat_with_tools]                  *)
(* ===================================================================== *)

Section Loop.
Context `{PyUnicode} `{PyJson} `{PyErrors}.

Definition MAX_HISTORY_TOKENS : Z := 80000.

(** How one turn of the [while] loop ends: [complete] was yielded and the
    generator returned, the tool calls were served and the loop goes on, or
    an exception left the generator. *)
Inductive turn_end :=
| TurnReturned
| TurnContinues
| TurnRaised (e : pystr).

(** How the generator ends. *)
Inductive gen_end :=
| Returned
| Raised (e : pystr).

(** [for retry in range(3)]: the request, with a pause of [2 * (retry + 1)]
    seconds after a failed attempt that is not the last. The result is the
    stream, or the exception of the third attempt. *)
Fixpoint request_with_retries (w : World) (msgs : list message)
    (tools : option (list value)) (retries : list Z) (n : nat)
  : list action * nat * option (pystr + list chunk * option pystr) :=
  match retries with
  | [] => ([], n, None)
  | retry :: rest =>
    match backend w n msgs tools with
    | ReqStream chunks broken =>
      ([Request msgs tools], S n, Some (inr (chunks, broken)))
    | ReqFail e =>
      if (retry =? 2)%Z then ([Request msgs tools], S n, Some (inl e))
      else
        let '(acts, n', r) := request_with_retries w msgs tools rest (S n) in
        (Request msgs tools :: Sleep (2 * (retry + 1)) :: acts, n', r)
    end
  end.

(** The body of [for tc_data in tool_calls_list]: what it did, the state
    it left, and the exception that left it, if one did. The one statement
    of the body that can raise is [json.dumps(result)], outside every
    [try]: the call is then announced, counted and run, and neither
    answered nor entered in the transcript. *)
Definition serve_tool_call (a : AIAgent) (s : loop_state) (tc : tool_call)
  : list action * loop_state * option pystr :=
  let tool_name := call_name tc in
  let arguments := default (VDict []) (json_loads (call_arguments tc)) in
  let st := stats s in
  let st1 :=
    {| prompt_tokens := prompt_tokens st; completion_tokens := completion_tokens st;
       total_tokens := total_tokens st; api_calls := api_calls st;
       n_tool_calls := n_tool_calls st + 1; current_prompt := current_prompt st |}%Z in
  let result := execute_tool a tool_name arguments in
  let before :=
    [Yield (EToolCall tool_name (redact_sensitive_data arguments None));
     Dispatch tool_name arguments] in
  match not_serializable result with
  | Some t =>
    (before, {| messages := messages s; stats := st1; requests := requests s |},
     Some (not_json_serializable t))
  | None =>
    let result_json := json_dumps result in
    let result_tokens := estimate_tokens result_json in
    if (MAX_TOOL_RESULT_TOKENS <? result_tokens)%Z then
      let chunked_result := _auto_chunk_large_result result_json tool_name in
      (before
       ++ [Yield (EProcessInfo (u "数据量过大，正在截断..."));
           Yield (EToolResult tool_name
                    (VDict [(u "message", VStr (u "数据已截断"));
                            (u "data", VStr (take 500 (data_of chunked_result)))]))],
       {| messages := messages s
                      ++ [tool_message (call_id tc) (json_dumps (VDict chunked_result))];
          stats := st1; requests := requests s |}, None)
    else
      (before
       ++ [Yield (EToolResult tool_name (redact_sensitive_data result None))],
       {| messages := messages s ++ [tool_message (call_id tc) result_json];
          stats := st1; requests := requests s |}, None)
  end.

(** The loop over [tool_calls_list]; an exception ends it. *)
Fixpoint serve_tool_calls (a : AIAgent) (s : loop_state) (tcs : list tool_call)
  : list action * loop_state * option pystr :=
  match tcs with
  | [] => ([], s, None)
  | tc :: rest =>
    let '(acts, s1, e) := serve_tool_call a s tc in
    match e with
    | Some x => (acts, s1, Some x)
    | None =>
      let '(acts', s2, e') := serve_tool_calls a s1 rest in
      (acts ++ acts', s2, e')
    end
  end.

(** [if tools:] picks the request with or without the catalog. *)
Definition offered (tools : list value) : option (list value) :=
  match tools with
  | [] => None
  | _ :: _ => Some tools
  end.

(** The text of the [TypeError] of [async for chunk in None]; the loop over
    [range(3)] never leaves [stream_response] unset. *)
Definition no_stream : pystr :=
  u "'async for' requires an object with __aiter__ method, got NoneType".

(** One pass through the body of [while iteration < max_iterations]. *)
Definition turn (a : AIAgent) (w : World) (tools : list value) (s : loop_state)
  : list action * loop_state * turn_end :=
  let msgs := _compress_messages_if_needed (messages s) MAX_HISTORY_TOKENS in
  let '(acts, n, r) :=
    request_with_retries w msgs (offered tools) [0; 1; 2]%Z (requests s) in
  match r with
  | Some (inl e) =>
    (acts, {| messages := msgs; stats := stats s; requests := n |}, TurnRaised e)
  | r' =>
    let st := stats s in
    let st1 :=
      {| prompt_tokens :=
           prompt_tokens st + estimate_tokens (json_dumps (VList (map message_json msgs)));
         completion_tokens := completion_tokens st; total_tokens := total_tokens st;
         api_calls := api_calls st + 1; n_tool_calls := n_tool_calls st;
         current_prompt := current_prompt st |}%Z in
    match r' with
    | Some (inr (chunks, broken)) =>
      let '(ts, evs) := read_stream fresh_turn chunks in
      match broken with
      | Some e =>
        (acts ++ map Yield evs,
         {| messages := msgs; stats := st1; requests := n |}, TurnRaised e)
      | None =>
        if has_tool_calls ts && negb (bool_decide (collected_tool_calls ts = ∅)) then
          let calls := tool_calls_list (collected_tool_calls ts) in
          let s1 :=
            {| messages := msgs ++ [assistant_message (collected_content ts) calls];
               stats := st1; requests := n |} in
          let '(acts', s2, e) := serve_tool_calls a s1 calls in
          (acts ++ map Yield evs ++ acts', s2,
           match e with Some x => TurnRaised x | None => TurnContinues end)
        else
          let completion :=
            (completion_tokens st1 + estimate_tokens (collected_content ts))%Z in
          let st2 :=
            {| prompt_tokens := prompt_tokens st1; completion_tokens := completion;
               total_tokens := prompt_tokens st1 + completion;
               api_calls := api_calls st1; n_tool_calls := n_tool_calls st1;
               current_prompt := current_prompt st1 |}%Z in
          (acts ++ map Yield evs
           ++ [Yield (EComplete (thinking_content ts) (say_content ts) st2)],
           {| messages := msgs; stats := st2; requests := n |}, TurnReturned)
      end
    | _ =>
      (acts, {| messages := msgs; stats := st1; requests := n |}, TurnRaised no_stream)
    end
  end.

(** How the [while] loop ends: inside a turn, or by its condition. *)
Inductive loop_end :=
| LoopReturned
| LoopRaised (e : pystr)
| LoopExhausted.

(** [while iteration < max_iterations], [fuel] passes to go. *)
Fixpoint loop (a : AIAgent) (w : World) (tools : list value) (fuel : nat)
    (s : loop_state) : list action * loop_state * loop_end :=
  match fuel with
  | O => ([], s, LoopExhausted)
  | S fuel' =>
    let '(acts, s1, e) := turn a w tools s in
    match e with
    | TurnReturned => (acts, s1, LoopReturned)
    | TurnRaised x => (acts, s1, LoopRaised x)
    | TurnContinues =>
      let '(acts', s2, e') := loop a w tools fuel' s1 in
      (acts ++ acts', s2, e')
    end
  end.

(** The texts [delta.content] of the chunks that carry one. *)
Definition contents (chunks : list chunk) : list pystr :=
  omap (fun c => match c with
                 | Some d => truthy (delta_content d)
                 | None => None
                 end) chunks.

Definition FALLBACK : pystr := u "（已达到最大工具调用次数）".

(** The [if tools:] block after the loop, once [tools] is not empty. *)
Definition forced_summary (w : World) (s : loop_state) : list action * loop_state :=
  let msgs :=
    messages s
    ++ [plain_message (u "user") (u "请根据上述工具调用结果，简要总结回答用户的问题。")] in
  let st := stats s in
  let fallback := Yield (EComplete [] FALLBACK st) in
  match backend w (requests s) msgs None with
  | ReqFail e =>
    ([Request msgs None; fallback],
     {| messages := msgs; stats := st; requests := S (requests s) |})
  | ReqStream chunks broken =>
    let says := map (fun c => Yield (ESay c)) (contents chunks) in
    match broken with
    | Some e =>
      (Request msgs None :: says ++ [fallback],
       {| messages := msgs; stats := st; requests := S (requests s) |})
    | None =>
      let final_content := concat (contents chunks) in
      let completion := (completion_tokens st + estimate_tokens final_content)%Z in
      let st1 :=
        {| prompt_tokens := prompt_tokens st; completion_tokens := completion;
           total_tokens := prompt_tokens st + completion;
           api_calls := api_calls st; n_tool_calls := n_tool_calls st;
           current_prompt := current_prompt st |}%Z in
      (Request msgs None :: says ++ [Yield (EComplete [] final_content st1)],
       {| messages := msgs; stats := st1; requests := S (requests s) |})
    end
  end.

Definition user_context (a : AIAgent) : pystr :=
  match username a with
  | [] => []
  | _ :: _ =>
    [10; 10] ++ u "当前登录用户: "
    ++ (match cname a with [] => username a | _ :: _ => cname a end)
    ++ u " (用户名: " ++ username a ++ u ")。"
  end.

Definition system_prompt (a : AIAgent) : pystr :=
  u "你是一个智能运维助手，可以使用工具帮助用户完成任务。" ++ [10]
  ++ u "重要规则：" ++ [10]
  ++ u "0. 回答运维、故障排查、部署、配置等问题时，优先调用 knowledge_retrieve 从知识库检索相关文档，再结合其他工具执行操作；若已提供“参考以下知识库内容”，则直接基于该内容与工具完成任务。"
  ++ [10] ++ u "1. 回答时请使用中文。" ++ user_context a.

(** The transcript the loop starts from. *)
Definition initial_state (a : AIAgent) (w : World) (prompt : pystr) : loop_state :=
  let cleaned_prompt := clean_utf8 prompt in
  let cleaned_prompt :=
    match knowledge w cleaned_prompt with
    | Some docs_text =>
      u "参考以下知识库内容：" ++ [10] ++ docs_text ++ [10; 10] ++ u "---" ++ [10]
      ++ u "用户问题：" ++ cleaned_prompt
    | None => cleaned_prompt
    end in
  {| messages := [plain_message (u "system") (system_prompt a);
                  plain_message (u "user") cleaned_prompt];
     stats := reset_token_stats prompt;
     requests := 0%nat |}.

(** [_stream_chat_with_tools]: what it did, the state it ended in, and how
    it ended. *)
Definition _stream_chat_with_tools (a : AIAgent) (w : World) (prompt : pystr)
  : list action * loop_state * gen_end :=
  let tools := get_tools a in
  let '(acts, s, e) :=
    loop a w tools (Z.to_nat (max_iterations a)) (initial_state a w prompt) in
  match e with
  | LoopReturned => (acts, s, Returned)
  | LoopRaised x => (acts, s, Raised x)
  | LoopExhausted =>
    match tools with
    | [] => (acts, s, Returned)
    | _ :: _ =>
      let '(acts', s') := forced_summary w s in
      (acts ++ acts', s', Returned)
    end
  end.

(** The [tool_result] branch of [_sync_chat_with_tools]: every entry with
    the event's tool name takes the result. *)
Definition set_results (name : pystr) (result : value) (calls : list sync_call)
  : list sync_call :=
  map (fun tc =>
         if str_eqb (sc_name tc) name
         then {| sc_name := sc_name tc; sc_arguments := sc_arguments tc;
                 sc_result := Some result |}
         else tc) calls.

(** The loop of [_sync_chat_with_tools] over the yielded mappings, on the
    triple (think, say, tool_calls) of its result. *)
Definition collect (r : pystr * pystr * list sync_call) (e : event)
  : pystr * pystr * list sync_call :=
  let '(think, say, calls) := r in
  match e with
  | EToolCall name arguments =>
    (think, say,
     calls ++ [{| sc_name := name; sc_arguments := arguments; sc_result := None |}])
  | EToolResult name result => (think, say, set_results name result calls)
  | EThink c => (think ++ c, say, calls)
  | ESay c => (think, say ++ c, calls)
  | EComplete t s _ => (t, s, calls)
  | ESyncComplete t s _ => (t, s, calls)
  | _ => r
  end.

Definition _sync_chat_with_tools (evs : list event) : event :=
  let '(think, say, calls) := fold_left collect evs ([], [], []) in
  ESyncComplete think say calls.

(** [chat]: everything the agent does for one prompt; [yielded] of it is
    what the caller receives. *)
Definition chat (a : AIAgent) (w : World) (prompt : pystr) (stream : bool)
  : list action :=
  let '(acts, s, e) := _stream_chat_with_tools a w prompt in
  let last :=
    match e with
    | Raised x => [Yield (EError x (stats s))]
    | Returned => if stream then [] else [Yield (_sync_chat_with_tools (yielded acts))]
    end in
  (if stream then acts else unyielded acts) ++ last.

End Loop.

(* ===================================================================== *)
(** ** Redaction: what a second pass does                                 *)
(* ===================================================================== *)

Section RedactionFacts.
Context `{PyUnicode}.

Lemma clean_utf8_fixed (s : pystr) :
  forallb (fun c => isprintable c || is_nrt c) s = true -> clean_utf8 s = s.
Proof.
  unfold clean_utf8. induction s as [|c s IH]; simpl; [reflexivity|].
  intros Hs. apply andb_prop in Hs as [Hc Hs].
  rewrite Hc. f_equal. exact (IH Hs).
Qed.

Lemma clean_utf8_printable (s : pystr) :
  forallb (fun c => isprintable c || is_nrt c) (clean_utf8 s) = true.
Proof.
  unfold clean_utf8. induction s as [|c s IH]; simpl; [reflexivity|].
  destruct (isprintable c || is_nrt c) eqn:Hc; simpl; [|exact IH].
  now rewrite Hc.
Qed.

Lemma REDACTED_printable :
  forallb (fun c => isprintable c || is_nrt c) REDACTED = true.
Proof.
  apply forallb_forall. intros c Hc.
  rewrite isprintable_ascii; [reflexivity|].
  unfold REDACTED in Hc. simpl in Hc.
  repeat (destruct Hc as [<-|Hc]; [lia|]). destruct Hc.
Qed.

(** The marker is short, so a second pass only cleans it, and cleaning
    leaves it alone. *)
Lemma redact_rec_marker sks : redact_rec sks (VStr REDACTED) = VStr REDACTED.
Proof.
  cbn [redact_rec].
  change (50 <? length REDACTED)%nat with false. cbn [andb].
  now rewrite (clean_utf8_fixed _ REDACTED_printable).
Qed.

(** Whatever goes in, what comes out has only clean strings. *)
Lemma redact_rec_printable sks data : all_printable (redact_rec sks data) = true.
Proof.
  induction data as [| | |s|l IH|d IH|t] using value_ind; simpl; try reflexivity.
  - destruct (_ && _); simpl; [apply REDACTED_printable|apply clean_utf8_printable].
  - induction IH as [|x l Hx _ IHl]; simpl; [reflexivity|]. now rewrite Hx.
  - induction IH as [|kv d Hkv _ IHd]; simpl; [reflexivity|].
    rewrite IHd, andb_true_r.
    destruct (sensitive_key sks kv.1); [apply REDACTED_printable|exact Hkv].
Qed.

Lemma redact_rec_idem_printable sks data :
  all_printable data = true ->
  redact_rec sks (redact_rec sks data) = redact_rec sks data.
Proof.
  induction data as [| | |s|l IH|d IH|t] using value_ind; simpl; try reflexivity.
  - intros Hs. rewrite (clean_utf8_fixed _ Hs).
    destruct (_ && _) eqn:Hc.
    + apply redact_rec_marker.
    + simpl. now rewrite Hc, (clean_utf8_fixed _ Hs).
  - intros Hl. f_equal. rewrite List.map_map.
    induction IH as [|x l Hx _ IHl]; simpl in *; [reflexivity|].
    apply andb_prop in Hl as [Hx' Hl]. now rewrite (Hx Hx'), (IHl Hl).
  - intros Hd. f_equal. rewrite List.map_map.
    induction IH as [|kv d Hkv _ IHd]; simpl in *; [reflexivity|].
    apply andb_prop in Hd as [Hkv' Hd]. rewrite (IHd Hd). f_equal.
    destruct (sensitive_key sks kv.1); [reflexivity|]. now rewrite (Hkv Hkv').
Qed.

(** From the second pass on, redaction changes nothing. *)
Lemma redact_stable_after_one_pass data sks :
  let once := redact_sensitive_data data sks in
  let twice := redact_sensitive_data once sks in
  redact_sensitive_data twice sks = twice.
Proof.
  cbv zeta. unfold redact_sensitive_data.
  apply redact_rec_idem_printable, redact_rec_printable.
Qed.

(** C4 (as amended): on data whose strings hold no character that
    [clean_utf8] drops, redacting twice gives what redacting once gives. *)
Theorem redact_idempotent_on_printable data sks :
  all_printable data = true ->
  redact_sensitive_data (redact_sensitive_data data sks) sks
  = redact_sensitive_data data sks.
Proof.
  intros Hp. unfold redact_sensitive_data. now apply redact_rec_idem_printable.
Qed.

End RedactionFacts.

(** A string of 59 characters that hides [password] behind a NUL. *)
Definition hidden_password : value :=
  VStr (u "pass" ++ [0] ++ u "word" ++ repeat 97 50).

Definition token_record : value :=
  VDict [(u "user", VStr (u "alice"));
         (u "api_token", VStr (u "abc123"));
         (u "notes", VList [VStr (u "ok"); VInt 3; VNull])].

(** C4, witness: a record with a sensitive key and clean strings. *)
Lemma redact_idempotent_on_printable_witness :
  all_printable token_record = true
  /\ redact_sensitive_data (redact_sensitive_data token_record None) None
     = redact_sensitive_data token_record None.
Proof.
  split; [reflexivity|].
  apply (redact_idempotent_on_printable token_record None). reflexivity.
Defined.

(** C4 as stated fails: the first pass only drops the NUL, which brings
    [password] together; the second pass then replaces the whole string. *)
Lemma redact_not_idempotent :
  redact_sensitive_data hidden_password None
  = VStr (u "password" ++ repeat 97 50)
  /\ redact_sensitive_data (redact_sensitive_data hidden_password None) None
     = VStr (u "***REDACTED***")
  /\ redact_sensitive_data (redact_sensitive_data hidden_password None) None
     <> redact_sensitive_data hidden_password None.
Proof.
  split; [reflexivity|]. split; [reflexivity|]. vm_compute. discriminate.
Qed.

(* ===================================================================== *)
(** ** Assembling tool calls from the stream                              *)
(* ===================================================================== *)

(** The fragments of a response in the order they arrive, those of one
    index, and the pieces of text each supplies. *)
Definition fragments_of (chunks : list chunk) : list tool_call_fragment :=
  flat_map fragments chunks.

Definition with_index (idx : Z) (frags : list tool_call_fragment)
  : list tool_call_fragment :=
  List.filter (fun tc => (frag_index tc =? idx)%Z) frags.

Definition argument_piece (tc : tool_call_fragment) : pystr :=
  match frag_function tc with
  | Some f => default [] (fn_arguments f)
  | None => []
  end.

Definition name_piece (tc : tool_call_fragment) : pystr :=
  match frag_function tc with
  | Some f => default [] (fn_name f)
  | None => []
  end.

Definition id_piece (tc : tool_call_fragment) : pystr := default [] (frag_id tc).

(** The last piece that is not empty, [d] when there is none. *)
Definition last_nonempty (pieces : list pystr) (d : pystr) : pystr :=
  fold_left (fun cur p => match p with [] => cur | _ :: _ => p end) pieces d.

(** What one fragment does to the accumulator of its index. *)
Definition feed (a : tc_acc) (tc : tool_call_fragment) : tc_acc :=
  {| acc_id := last_nonempty [id_piece tc] (acc_id a);
     acc_name := last_nonempty [name_piece tc] (acc_name a);
     acc_arguments := acc_arguments a ++ argument_piece tc |}.

Section Assembly.
Context `{PyUnicode}.

Lemma truthy_default (o : option pystr) :
  truthy o = match default [] o with [] => None | c :: s => Some (c :: s) end.
Proof. destruct o as [[|c s]|]; reflexivity. Qed.

Lemma accumulate_feed (m : gmap Z tc_acc) tc :
  accumulate m tc = <[frag_index tc := feed (default empty_acc (m !! frag_index tc)) tc]> m.
Proof.
  unfold accumulate, feed, id_piece, name_piece, argument_piece. f_equal.
  destruct tc as [idx i f]; simpl.
  destruct (m !! idx) as [[a_id a_name a_args]|]; simpl;
    rewrite (truthy_default i); destruct (default [] i); simpl;
    destruct f as [[n s]|]; simpl; rewrite ?app_nil_r; try reflexivity;
    rewrite (truthy_default n), (truthy_default s);
    destruct (default [] n), (default [] s); simpl; rewrite ?app_nil_r; reflexivity.
Qed.

Lemma fold_accumulate_lookup frags (m : gmap Z tc_acc) idx :
  fold_left accumulate frags m !! idx
  = match with_index idx frags with
    | [] => m !! idx
    | fs => Some (fold_left feed fs (default empty_acc (m !! idx)))
    end.
Proof.
  revert m. induction frags as [|tc frags IH]; intros m; simpl; [reflexivity|].
  rewrite IH, accumulate_feed. destruct (Z.eqb_spec (frag_index tc) idx) as [->|Hne].
  - rewrite lookup_insert_eq. simpl. now destruct (with_index idx frags).
  - now rewrite lookup_insert_ne.
Qed.

Lemma fold_feed_arguments fs a :
  acc_arguments (fold_left feed fs a) = acc_arguments a ++ concat (map argument_piece fs).
Proof.
  revert a. induction fs as [|tc fs IH]; intros a; simpl; [now rewrite app_nil_r|].
  rewrite IH. simpl. now rewrite <- app_assoc.
Qed.

Lemma fold_feed_name fs a :
  acc_name (fold_left feed fs a) = last_nonempty (map name_piece fs) (acc_name a).
Proof. revert a. induction fs as [|tc fs IH]; intros a; simpl; [reflexivity|]. now rewrite IH. Qed.

Lemma fold_feed_id fs a :
  acc_id (fold_left feed fs a) = last_nonempty (map id_piece fs) (acc_id a).
Proof. revert a. induction fs as [|tc fs IH]; intros a; simpl; [reflexivity|]. now rewrite IH. Qed.

Lemma classify_collected st c :
  collected_tool_calls (classify st c).1 = collected_tool_calls st.
Proof. unfold classify. repeat case_match; reflexivity. Qed.

Lemma read_chunk_collected st c :
  collected_tool_calls (read_chunk st c).1
  = fold_left accumulate (fragments c) (collected_tool_calls st).
Proof.
  unfold read_chunk. destruct c as [d|]; [|reflexivity].
  destruct (truthy (delta_content d)); [rewrite classify_collected|];
    now destruct (fragments (Some d)).
Qed.

Lemma read_stream_collected chunks st :
  collected_tool_calls (read_stream st chunks).1
  = fold_left accumulate (fragments_of chunks) (collected_tool_calls st).
Proof.
  revert st. induction chunks as [|c chunks IH]; intros st; simpl; [reflexivity|].
  pose proof (read_chunk_collected st c) as Hc.
  destruct (read_chunk st c) as [st1 evs]. specialize (IH st1).
  destruct (read_stream st1 chunks) as [st2 evs']. simpl in *.
  unfold fragments_of in *. simpl. now rewrite fold_left_app, <- Hc.
Qed.

Lemma elem_of_sorted_keys (m : gmap Z tc_acc) idx :
  idx ∈ sorted_keys m <-> is_Some (m !! idx).
Proof.
  unfold sorted_keys. rewrite merge_sort_Permutation, list_elem_of_fmap. split.
  - intros [[i a] [-> Hin]]. apply elem_of_map_to_list in Hin. now exists a.
  - intros [a Ha]. exists (idx, a). split; [reflexivity|]. now apply elem_of_map_to_list.
Qed.

(** The accumulator of an index that occurs in the response. *)
Lemma collected_of_stream chunks idx :
  with_index idx (fragments_of chunks) <> [] ->
  let fs := with_index idx (fragments_of chunks) in
  collected_tool_calls (read_stream fresh_turn chunks).1 !! idx
  = Some {| acc_id := last_nonempty (map id_piece fs) [];
            acc_name := last_nonempty (map name_piece fs) [];
            acc_arguments := concat (map argument_piece fs) |}.
Proof.
  intros Hne fs. rewrite read_stream_collected, fold_accumulate_lookup. fold fs.
  destruct fs as [|tc fs'] eqn:Efs; [contradiction|]. rewrite <- Efs. f_equal.
  pose proof (fold_feed_arguments fs (default empty_acc (fresh_turn.(collected_tool_calls) !! idx))) as Ha.
  pose proof (fold_feed_name fs (default empty_acc (fresh_turn.(collected_tool_calls) !! idx))) as Hn.
  pose proof (fold_feed_id fs (default empty_acc (fresh_turn.(collected_tool_calls) !! idx))) as Hi.
  destruct (fold_left feed fs _) as [i n a]. simpl in *. now subst.
Qed.

(** C1 (as amended): for the fragments of one index, in arrival order, the
    assembled request carries the concatenation of their argument pieces,
    and as its name the last name piece that is not empty. *)
Theorem assembled_tool_call chunks idx :
  with_index idx (fragments_of chunks) <> [] ->
  let fs := with_index idx (fragments_of chunks) in
  {| call_id := last_nonempty (map id_piece fs) [];
     call_name := last_nonempty (map name_piece fs) [];
     call_arguments := concat (map argument_piece fs) |}
  ∈ tool_calls_list (collected_tool_calls (read_stream fresh_turn chunks).1).
Proof.
  intros Hne fs. pose proof (collected_of_stream chunks idx Hne) as Hc.
  cbv zeta in Hc. fold fs in Hc. unfold tool_calls_list.
  apply list_elem_of_fmap. exists idx. split.
  - now rewrite Hc.
  - apply elem_of_sorted_keys. now rewrite Hc.
Qed.

End Assembly.

(** A response that spells the name of one call in two deltas. *)
Definition split_name_stream : list chunk :=
  [Some {| delta_tool_calls :=
             Some [{| frag_index := 0; frag_id := Some (u "call_1");
                      frag_function :=
                        Some {| fn_name := Some (u "shell_");
                                fn_arguments := Some (u "{") |} |}];
           delta_content := None |};
   Some {| delta_tool_calls :=
             Some [{| frag_index := 0; frag_id := None;
                      frag_function :=
                        Some {| fn_name := Some (u "execute");
                                fn_arguments := Some (u "}") |} |}];
           delta_content := None |}].

(** C1, witness: index 0 of that response. *)
Lemma assembled_tool_call_witness :
  with_index 0 (fragments_of split_name_stream) <> []
  /\ {| call_id := u "call_1"; call_name := u "execute"; call_arguments := u "{}" |}
     ∈ tool_calls_list (collected_tool_calls (read_stream fresh_turn split_name_stream).1).
Proof.
  split; [discriminate|].
  apply (assembled_tool_call split_name_stream 0). discriminate.
Defined.

(** C1 as stated fails for the name: the second name piece replaces the
    first, where the claim has them concatenated. *)
Lemma assembled_name_not_concatenated :
  tool_calls_list (collected_tool_calls (read_stream fresh_turn split_name_stream).1)
  = [{| call_id := u "call_1"; call_name := u "execute"; call_arguments := u "{}" |}]
  /\ concat (map name_piece (with_index 0 (fragments_of split_name_stream)))
     = u "shell_execute"
  /\ u "execute" <> u "shell_execute".
Proof. split; [vm_compute; reflexivity|]. split; [reflexivity|]. discriminate. Qed.

(* ===================================================================== *)
(** ** Dispatch: [execute_tool] and [call_tool]                           *)
(* ===================================================================== *)

Section Dispatch.
Context `{PyErrors}.

Lemma split_once_first (sep : char) (m f : pystr) :
  sep ∉ m -> split_once sep (m ++ sep :: f) = [m; f].
Proof.
  induction m as [|c m IH]; intros Hm; simpl.
  - now rewrite N.eqb_refl.
  - apply not_elem_of_cons in Hm as [Hc Hm].
    destruct (N.eqb_spec c sep) as [->|_]; [contradiction|]. now rewrite (IH Hm).
Qed.

Lemma split_once_none (sep : char) (s : pystr) :
  sep ∉ s -> split_once sep s = [s].
Proof.
  induction s as [|c s IH]; intros Hs; simpl; [reflexivity|].
  apply not_elem_of_cons in Hs as [Hc Hs].
  destruct (N.eqb_spec c sep) as [->|_]; [contradiction|]. now rewrite (IH Hs).
Qed.

Lemma find_none_iff {A} (p : A -> bool) (l : list A) :
  List.find p l = None <-> forall x, x ∈ l -> p x = false.
Proof.
  induction l as [|y l IH]; simpl.
  - split; [intros _ x Hx; inversion Hx|reflexivity].
  - destruct (p y) eqn:Hy.
    + split; [discriminate|]. intros Hall. rewrite Hall in Hy; [discriminate|left].
    + rewrite IH. split.
      * intros Hall x Hx. apply elem_of_cons in Hx as [->|Hx]; auto.
      * intros Hall x Hx. apply Hall. now right.
Qed.

(** [self.services.get(name)] finds the entry of [name], whatever is
    registered before and after it. *)
Lemma assoc_get_entry {A} (k : pystr) (x : A) (before after : list (pystr * A)) :
  k ∉ map fst before -> assoc_get k (before ++ (k, x) :: after) = Some x.
Proof.
  induction before as [|[k' y] before IH]; simpl; intros Hk.
  - unfold str_eqb. now rewrite bool_decide_eq_true_2.
  - apply not_elem_of_cons in Hk as [Hne Hk].
    unfold str_eqb. rewrite bool_decide_eq_false_2 by congruence. now apply IH.
Qed.

(** C7 (as amended): a name with a separator names the service before the
    first separator and the function after it, further separators
    included. The service registered under that name is the one looked up,
    whatever else is registered, and the function is looked up among its
    tools; the tool is run on the arguments, and its result or its failure
    is what [execute_tool] returns, when the service is loaded and the
    arguments are a mapping that binds neither [self] nor [tool_name]. For
    any arguments, what [execute_tool] returns is the outcome of
    [call_tool(func_name, **arguments)] on that service. *)
Theorem execute_tool_resolves_qualified_name a mgr before after service tool
    (m f : pystr) kwargs :
  95 ∉ m ->
  mcp_manager a = Some mgr ->
  services mgr = before ++ (m, service) :: after ->
  m ∉ map fst before ->
  svc_tools service !! f = Some tool ->
  svc_loaded service = true ->
  (forall k, k ∈ dict_keys kwargs -> k <> u "self" /\ k <> u "tool_name") ->
  split_once 95 (m ++ 95 :: f) = [m; f]
  /\ get_service mgr m = Some service
  /\ (forall arguments,
        execute_tool a (m ++ 95 :: f) arguments
        = match call_with service f arguments with
          | Returns result => result
          | Raises e => error_result e
          end)
  /\ call_with service f (VDict kwargs) = run tool kwargs
  /\ execute_tool a (m ++ 95 :: f) (VDict kwargs)
     = match run tool kwargs with
       | Returns result => result
       | Raises e => error_result e
       end.
Proof.
  intros Hm Hmgr Hreg Hfirst Htool Hloaded Hkeys.
  assert (Hsplit : split_once 95 (m ++ 95 :: f) = [m; f]) by now apply split_once_first.
  assert (Hsvc : get_service mgr m = Some service).
  { unfold get_service. rewrite Hreg. now apply assoc_get_entry. }
  assert (Hexec : forall arguments,
             execute_tool a (m ++ 95 :: f) arguments
             = match call_with service f arguments with
               | Returns result => result
               | Raises e => error_result e
               end).
  { intros arguments. unfold execute_tool. rewrite Hmgr, Hsplit. cbn iota.
    now rewrite Hsvc, Htool. }
  assert (Hcall : call_with service f (VDict kwargs) = run tool kwargs).
  { unfold call_with.
    replace (List.find _ (dict_keys kwargs)) with (@None pystr).
    - unfold call_tool. rewrite Hloaded, Htool. simpl. now destruct (is_coroutine tool).
    - symmetry. apply find_none_iff. intros k Hk. destruct (Hkeys k Hk) as [Hs Ht].
      unfold str_eqb. now rewrite !bool_decide_eq_false_2. }
  split; [exact Hsplit|]. split; [exact Hsvc|]. split; [exact Hexec|].
  split; [exact Hcall|]. now rewrite Hexec, Hcall.
Qed.

End Dispatch.

(** A registry with one service, [git], whose tool [list_merge_requests]
    echoes its [project] argument, and the agent that uses it. *)
Definition echo_project : tool_func :=
  {| is_coroutine := true;
     run kwargs :=
       match dict_get (u "project") kwargs with
       | Some p => Returns (VDict [(u "success", VBool true); (u "project", p)])
       | None => Raises (u "missing project")
       end |}.

Definition git_service : MCPService :=
  {| svc_name := u "git"; svc_module := None;
     svc_tools := {[ u "list_merge_requests" := echo_project ]};
     svc_loaded := true |}.

Definition git_agent : AIAgent :=
  {| mcp_manager := Some {| services := [(u "git", git_service)] |};
     max_iterations := 100; username := []; cname := [] |}.

(** A registry with three services. Each has a tool that returns the name
    of its service: [git_list] its [merge_requests], and [chat], like
    [git], its [list_merge_requests]. *)
Definition named (service : string) : tool_func :=
  {| is_coroutine := false; run _ := Returns (VStr (u service)) |}.

Definition desk_registry : MCPServerManager :=
  {| services :=
       [(u "git_list",
         {| svc_name := u "git_list"; svc_module := None;
            svc_tools := {[ u "merge_requests" := named "git_list" ]};
            svc_loaded := true |});
        (u "chat",
         {| svc_name := u "chat"; svc_module := None;
            svc_tools := {[ u "list_merge_requests" := named "chat" ]};
            svc_loaded := true |});
        (u "git", git_service)] |}.

Definition desk_agent : AIAgent :=
  {| mcp_manager := Some desk_registry;
     max_iterations := 100; username := []; cname := [] |}.

(** C7, witness: among the three services, [git_list_merge_requests] is
    [list_merge_requests] of [git], the third registered: not
    [merge_requests] of [git_list], and not [list_merge_requests] of
    [chat], which is registered before [git]. *)
Lemma execute_tool_resolves_qualified_name_witness :
  u "git" ++ 95 :: u "list_merge_requests" = u "git_list_merge_requests"
  /\ split_once 95 (u "git" ++ 95 :: u "list_merge_requests")
     = [u "git"; u "list_merge_requests"]
  /\ get_service desk_registry (u "git") = Some git_service
  /\ execute_tool desk_agent (u "git" ++ 95 :: u "list_merge_requests")
       (VDict [(u "project", VStr (u "ops"))])
     = VDict [(u "success", VBool true); (u "project", VStr (u "ops"))]
  /\ execute_tool desk_agent (u "git_list_merge_requests") (VDict []) <> VStr (u "git_list")
  /\ execute_tool desk_agent (u "chat_list_merge_requests") (VDict []) = VStr (u "chat").
Proof.
  split; [vm_compute; reflexivity|].
  pose proof (execute_tool_resolves_qualified_name
                desk_agent desk_registry (take 2 (services desk_registry)) []
                git_service echo_project (u "git") (u "list_merge_requests")
                [(u "project", VStr (u "ops"))]) as Hw.
  destruct Hw as (Hsplit & Hsvc & _ & _ & Hrun).
  - vm_compute. intros Hin. repeat (apply elem_of_cons in Hin as [Hin|Hin]; [discriminate|]).
    inversion Hin.
  - reflexivity.
  - reflexivity.
  - vm_compute. intros Hin. repeat (apply elem_of_cons in Hin as [Hin|Hin]; [discriminate|]).
    inversion Hin.
  - vm_compute. reflexivity.
  - reflexivity.
  - intros k Hk. apply list_elem_of_singleton in Hk as ->. split; discriminate.
  - split; [exact Hsplit|]. split; [exact Hsvc|].
    split; [rewrite Hrun; vm_compute; reflexivity|].
    split; [vm_compute; discriminate|vm_compute; reflexivity].
Defined.

(** C7 as stated fails for arguments that the call cannot take: the tool
    [list_merge_requests] of [git] would return the project for these
    arguments, but they bind [tool_name], the parameter of [call_tool], a
    second time, and the call fails before the tool is reached; what
    [execute_tool] returns is the interpreter's message. The same happens
    to arguments that are a list and no mapping. *)
Lemma reserved_argument_is_not_passed_on :
  run echo_project [(u "project", VStr (u "ops")); (u "tool_name", VStr (u "x"))]
  = Returns (VDict [(u "success", VBool true); (u "project", VStr (u "ops"))])
  /\ execute_tool git_agent (u "git_list_merge_requests")
       (VDict [(u "project", VStr (u "ops")); (u "tool_name", VStr (u "x"))])
     = VDict [(u "error",
               VStr (u "MCPService.call_tool() got multiple values for argument 'tool_name'"))]
  /\ execute_tool git_agent (u "git_list_merge_requests") (VList [VStr (u "ops")])
     = VDict [(u "error",
               VStr (u "module.mcpserver.MCPService.call_tool() argument after ** must be a mapping, not list"))].
Proof.
  split; [vm_compute; reflexivity|]. split; vm_compute; reflexivity.
Qed.

(* ===================================================================== *)
(** ** Serving the tool calls of a turn                                   *)
(* ===================================================================== *)

Section Serving.
Context `{PyUnicode} `{PyJson} `{PyErrors}.

Lemma omap_none {A B} (f : A -> option B) (l : list A) :
  Forall (fun x => f x = None) l -> omap f l = [].
Proof. induction 1 as [|x l Hx _ IH]; simpl; [reflexivity|]. now rewrite Hx. Qed.

(** What the agent serializes of its own making is JSON data: the
    transcript, the summary of a compressed result and the stand-in of a
    truncated one. Only the result of a tool can make [json.dumps] raise. *)
Lemma own_data_serializes (msgs : list message) (result : value)
    (result_json tool_name : pystr) :
  not_serializable (VList (map message_json msgs)) = None
  /\ Forall (fun m => not_serializable (message_json m) = None) msgs
  /\ not_serializable (summary result) = None
  /\ not_serializable (VDict (_auto_chunk_large_result result_json tool_name)) = None.
Proof.
  assert (Hmsg : forall m, not_serializable (message_json m) = None).
  { intros m. unfold message_json. cbn [not_serializable].
    rewrite omap_none; [reflexivity|].
    apply Forall_app. split; [repeat constructor|].
    apply Forall_app. split; [destruct (tool_call_id m); repeat constructor|].
    apply Forall_app. split; [repeat constructor|].
    destruct (tool_calls m) as [l|]; [|constructor].
    constructor; [|constructor]. cbn [snd not_serializable].
    rewrite omap_none; [reflexivity|]. apply Forall_map.
    apply Forall_forall. intros tc _. reflexivity. }
  split; [|split; [|split]].
  - cbn [not_serializable]. rewrite omap_none; [reflexivity|].
    apply Forall_map, Forall_forall. intros m _. apply Hmsg.
  - apply Forall_forall. intros m _. apply Hmsg.
  - unfold summary. cbn [not_serializable omap list_omap snd].
    rewrite omap_none; [reflexivity|]. apply Forall_map, Forall_forall. now intros k _.
  - reflexivity.
Qed.

(** What [serve_tool_call] does with a result that serializes, by the size
    of the serialized result. *)
Lemma serve_tool_call_small a s tc :
  let arguments := default (VDict []) (json_loads (call_arguments tc)) in
  let result := execute_tool a (call_name tc) arguments in
  not_serializable result = None ->
  (estimate_tokens (json_dumps result) <= MAX_TOOL_RESULT_TOKENS)%Z ->
  (serve_tool_call a s tc).1.1
  = [Yield (EToolCall (call_name tc) (redact_sensitive_data arguments None));
     Dispatch (call_name tc) arguments;
     Yield (EToolResult (call_name tc) (redact_sensitive_data result None))]
  /\ messages (serve_tool_call a s tc).1.2
     = messages s ++ [tool_message (call_id tc) (json_dumps result)]
  /\ (serve_tool_call a s tc).2 = None.
Proof.
  intros arguments result Hok Hsmall. unfold serve_tool_call.
  fold arguments. fold result. rewrite Hok.
  apply Z.ltb_ge in Hsmall. rewrite Hsmall. repeat split.
Qed.

Lemma serve_tool_call_large a s tc :
  let arguments := default (VDict []) (json_loads (call_arguments tc)) in
  let result := execute_tool a (call_name tc) arguments in
  let stand_in := _auto_chunk_large_result (json_dumps result) (call_name tc) in
  not_serializable result = None ->
  (MAX_TOOL_RESULT_TOKENS < estimate_tokens (json_dumps result))%Z ->
  (serve_tool_call a s tc).1.1
  = [Yield (EToolCall (call_name tc) (redact_sensitive_data arguments None));
     Dispatch (call_name tc) arguments;
     Yield (EProcessInfo (u "数据量过大，正在截断..."));
     Yield (EToolResult (call_name tc)
              (VDict [(u "message", VStr (u "数据已截断"));
                      (u "data", VStr (take 500 (data_of stand_in)))]))]
  /\ messages (serve_tool_call a s tc).1.2
     = messages s ++ [tool_message (call_id tc) (json_dumps (VDict stand_in))]
  /\ (serve_tool_call a s tc).2 = None.
Proof.
  intros arguments result stand_in Hok Hlarge. unfold serve_tool_call.
  fold arguments. fold result. rewrite Hok. fold stand_in.
  apply Z.ltb_lt in Hlarge. rewrite Hlarge. repeat split.
Qed.

(** What it does with a result that holds an object of type [t]:
    [json.dumps] raises after the call was announced and run. *)
Lemma serve_tool_call_raises a s tc t :
  let arguments := default (VDict []) (json_loads (call_arguments tc)) in
  let result := execute_tool a (call_name tc) arguments in
  not_serializable result = Some t ->
  (serve_tool_call a s tc).1.1
  = [Yield (EToolCall (call_name tc) (redact_sensitive_data arguments None));
     Dispatch (call_name tc) arguments]
  /\ messages (serve_tool_call a s tc).1.2 = messages s
  /\ (serve_tool_call a s tc).2 = Some (not_json_serializable t).
Proof.
  intros arguments result Hbad. unfold serve_tool_call.
  fold arguments. fold result. rewrite Hbad. repeat split.
Qed.

(** The threshold in characters: 80000 tokens are exceeded from 200003
    characters on. *)
Lemma oversized_iff (result_json : pystr) :
  (MAX_TOOL_RESULT_TOKENS < estimate_tokens result_json
   <-> 200003 <= Z.of_nat (length result_json))%Z.
Proof.
  unfold estimate_tokens, MAX_TOOL_RESULT_TOKENS, CHARS_PER_TOKEN_den, CHARS_PER_TOKEN_num.
  set (n := Z.of_nat (length result_json)). split; intros Hn.
  - pose proof (Z.mul_div_le (2 * n) 5 eq_refl) as Hq.
    set (q := (2 * n / 5)%Z) in *. lia.
  - assert (80001 <= 2 * n / 5)%Z; [apply Z.div_le_lower_bound; lia|lia].
Qed.

(** The stand-in: the first 50000 characters, then the note with the
    original length. *)
Lemma stand_in_data (result_json tool_name : pystr) :
  data_of (_auto_chunk_large_result result_json tool_name)
  = take (N.to_nat 50000) result_json
    ++ [10; 10] ++ u "... [数据过大已截断，原始长度: "
    ++ u (pretty (length result_json)) ++ u " 字符]".
Proof. reflexivity. Qed.

(** C10: when the argument text of a request does not parse, the call is
    announced and dispatched with the empty mapping, and served like any
    other: no [error] is yielded for it, and it is answered with a
    [tool_result] and nothing is raised, unless what the tool returned
    holds an object that [json.dumps] cannot serialize; the body then
    leaves with that [TypeError], after the [tool_call]. *)
Theorem unparseable_arguments_served_empty a s tc :
  json_loads (call_arguments tc) = None ->
  let result := execute_tool a (call_name tc) (VDict []) in
  exists rest,
    (serve_tool_call a s tc).1.1
    = Yield (EToolCall (call_name tc) (VDict []))
        :: Dispatch (call_name tc) (VDict []) :: map Yield rest
    /\ Forall (fun e => is_error e = false) rest
    /\ match not_serializable result with
       | None =>
         (serve_tool_call a s tc).2 = None
         /\ exists payload, last rest = Some (EToolResult (call_name tc) payload)
       | Some t =>
         (serve_tool_call a s tc).2 = Some (not_json_serializable t) /\ rest = []
       end
    /\ (not_serializable result = None ->
        (estimate_tokens (json_dumps result) <= MAX_TOOL_RESULT_TOKENS)%Z ->
        rest = [EToolResult (call_name tc) (redact_sensitive_data result None)]).
Proof.
  intros Hloads result.
  destruct (not_serializable result) as [t|] eqn:Hok.
  - pose proof (serve_tool_call_raises a s tc t) as Hr. cbv zeta in Hr.
    rewrite Hloads in Hr. destruct (Hr Hok) as (-> & _ & ->).
    exists []. split; [reflexivity|]. split; [constructor|].
    split; [now split|]. discriminate.
  - destruct (Z.le_gt_cases (estimate_tokens (json_dumps result)) MAX_TOOL_RESULT_TOKENS)
      as [Hsmall|Hlarge].
    + pose proof (serve_tool_call_small a s tc) as Hs. cbv zeta in Hs.
      rewrite Hloads in Hs. destruct (Hs Hok Hsmall) as (-> & _ & ->).
      exists [EToolResult (call_name tc) (redact_sensitive_data result None)].
      split; [reflexivity|]. split; [repeat constructor|].
      split; [split; [reflexivity|eexists; reflexivity]|]. reflexivity.
    + pose proof (serve_tool_call_large a s tc) as Hl. cbv zeta in Hl.
      rewrite Hloads in Hl. destruct (Hl Hok Hlarge) as (-> & _ & ->).
      eexists [EProcessInfo _; EToolResult _ _].
      split; [reflexivity|]. split; [repeat constructor|].
      split; [split; [reflexivity|eexists; reflexivity]|]. intros _ Hsmall. lia.
Qed.


(** C5 (as amended): a result that serializes, to 120000 characters, is
    estimated at 48000 tokens and is not truncated: no [process_info], the redacted
    result in the event, the full text in the transcript. From 200003
    characters on, [process_info] comes first, the event carries the first
    500 characters of the stand-in's text, and the transcript takes the
    stand-in, whose text is the first 50000 characters and the note. *)
Theorem truncation_by_token_threshold a s tc :
  let arguments := default (VDict []) (json_loads (call_arguments tc)) in
  let result := execute_tool a (call_name tc) arguments in
  let result_json := json_dumps result in
  let stand_in := _auto_chunk_large_result result_json (call_name tc) in
  not_serializable result = None ->
  (Z.of_nat (length result_json) = 120000%Z ->
   estimate_tokens result_json = 48000%Z
   /\ yielded (serve_tool_call a s tc).1.1
      = [EToolCall (call_name tc) (redact_sensitive_data arguments None);
         EToolResult (call_name tc) (redact_sensitive_data result None)]
   /\ messages (serve_tool_call a s tc).1.2
      = messages s ++ [tool_message (call_id tc) result_json])
  /\ ((200003 <= Z.of_nat (length result_json))%Z ->
      yielded (serve_tool_call a s tc).1.1
      = [EToolCall (call_name tc) (redact_sensitive_data arguments None);
         EProcessInfo (u "数据量过大，正在截断...");
         EToolResult (call_name tc)
           (VDict [(u "message", VStr (u "数据已截断"));
                   (u "data", VStr (take 500 result_json))])]
      /\ messages (serve_tool_call a s tc).1.2
         = messages s ++ [tool_message (call_id tc) (json_dumps (VDict stand_in))]
      /\ data_of stand_in
         = take (N.to_nat 50000) result_json
           ++ [10; 10] ++ u "... [数据过大已截断，原始长度: "
           ++ u (pretty (length result_json)) ++ u " 字符]").
Proof.
  intros arguments result result_json stand_in Hok. split.
  - intros Hlen.
    assert (Htok : estimate_tokens result_json = 48000%Z).
    { unfold estimate_tokens, CHARS_PER_TOKEN_den, CHARS_PER_TOKEN_num.
      now rewrite Hlen. }
    assert (Hsmall : (estimate_tokens (json_dumps result) <= MAX_TOOL_RESULT_TOKENS)%Z).
    { fold result_json. rewrite Htok. unfold MAX_TOOL_RESULT_TOKENS. lia. }
    destruct (serve_tool_call_small a s tc Hok Hsmall) as (Hacts & Hmsgs & _).
    fold arguments result in Hacts, Hmsgs. now rewrite Hacts, Hmsgs.
  - intros Hlen. apply oversized_iff in Hlen.
    destruct (serve_tool_call_large a s tc Hok Hlen) as (Hacts & Hmsgs & _).
    fold arguments result result_json stand_in in Hacts, Hmsgs.
    assert (Htake : take 500 (data_of stand_in) = take 500 result_json).
    { unfold stand_in. rewrite stand_in_data.
      apply oversized_iff in Hlen.
      rewrite take_app_le; [|rewrite length_take; lia].
      rewrite take_take; f_equal; lia. }
    rewrite Hacts, Hmsgs, Htake.
    split; [reflexivity|]. split; [reflexivity|]. apply stand_in_data.
Qed.

End Serving.

(** *** The serving theorems on concrete calls *)

(** A text between double quotes. *)
Definition quoted (s : string) : pystr := [34] ++ u s ++ [34].

Definition idle_state : loop_state :=
  {| messages := []; stats := reset_token_stats []; requests := 0%nat |}.

(** A request whose argument text was cut short by the model. *)
Definition cut_short_call : tool_call :=
  {| call_id := u "call_1"; call_name := u "git_list_merge_requests";
     call_arguments := u "{" ++ quoted "project" ++ u ": " |}.

(** C10, witness: the cut-short arguments do not parse; the call is served
    with no arguments, and the tool's own complaint is the result. *)
Lemma unparseable_arguments_served_empty_witness :
  json_loads (call_arguments cut_short_call) = None
  /\ (serve_tool_call git_agent idle_state cut_short_call).1.1
     = [Yield (EToolCall (u "git_list_merge_requests") (VDict []));
        Dispatch (u "git_list_merge_requests") (VDict []);
        Yield (EToolResult (u "git_list_merge_requests")
                 (VDict [(u "error", VStr (u "missing project"))]))]
  /\ (serve_tool_call git_agent idle_state cut_short_call).2 = None.
Proof.
  assert (Hbad : json_loads (call_arguments cut_short_call) = None) by reflexivity.
  split; [exact Hbad|].
  destruct (unparseable_arguments_served_empty git_agent idle_state cut_short_call
              Hbad) as (rest & Hacts & _ & Hend & Hsmall).
  assert (Hok : not_serializable
                  (execute_tool git_agent (call_name cut_short_call) (VDict []))
                = None) by reflexivity.
  rewrite Hok in Hend. destruct Hend as [Hnone _].
  split; [|exact Hnone].
  rewrite Hacts, (Hsmall Hok); [reflexivity|]. vm_compute. discriminate.
Defined.






(** A service whose tools return long strings: [blob_small] one that
    serializes to 120000 characters, [blob_large] one that serializes to
    200003. *)
Definition blob (n : N) : tool_func :=
  {| is_coroutine := false; run _ := Returns (VStr (repeat 97 (N.to_nat n))) |}.

Definition blob_agent : AIAgent :=
  {| mcp_manager :=
       Some {| services :=
                 [(u "blob",
                   {| svc_name := u "blob"; svc_module := None;
                      svc_tools := {[ u "small" := blob 119998; u "large" := blob 200001 ]};
                      svc_loaded := true |})] |};
     max_iterations := 100; username := []; cname := [] |}.

Definition blob_call (name : string) : tool_call :=
  {| call_id := u "call_9"; call_name := u name; call_arguments := u "{}" |}.

Definition blob_result (name : string) : value :=
  execute_tool blob_agent (u name) (VDict []).

Lemma blob_small_length :
  Z.of_nat (length (json_dumps (blob_result "blob_small"))) = 120000%Z.
Proof. vm_compute. reflexivity. Qed.

Lemma blob_large_length :
  (200003 <= Z.of_nat (length (json_dumps (blob_result "blob_large"))))%Z.
Proof. vm_compute. discriminate. Qed.

(** C5, witness: the two sizes, one call each. *)
Lemma truncation_by_token_threshold_witness :
  (Z.of_nat (length (json_dumps (blob_result "blob_small"))) = 120000%Z
   /\ yielded (serve_tool_call blob_agent idle_state (blob_call "blob_small")).1.1
      = [EToolCall (u "blob_small") (VDict []);
         EToolResult (u "blob_small")
           (redact_sensitive_data (blob_result "blob_small") None)])
  /\ ((200003 <= Z.of_nat (length (json_dumps (blob_result "blob_large"))))%Z
      /\ yielded (serve_tool_call blob_agent idle_state (blob_call "blob_large")).1.1
         = [EToolCall (u "blob_large") (VDict []);
            EProcessInfo (u "数据量过大，正在截断...");
            EToolResult (u "blob_large")
              (VDict [(u "message", VStr (u "数据已截断"));
                      (u "data", VStr (take 500 (json_dumps (blob_result "blob_large"))))])]).
Proof.
  split.
  - split; [exact blob_small_length|].
    destruct (truncation_by_token_threshold blob_agent idle_state (blob_call "blob_small"))
      as [Hsmall _]; [vm_compute; reflexivity|].
    destruct (Hsmall blob_small_length) as (_ & Hevs & _). exact Hevs.
  - split; [exact blob_large_length|].
    destruct (truncation_by_token_threshold blob_agent idle_state (blob_call "blob_large"))
      as [_ Hlarge]; [vm_compute; reflexivity|].
    destruct (Hlarge blob_large_length) as (Hevs & _ & _). exact Hevs.
Defined.

(** C5 as stated fails: 120000 characters are 48000 tokens, under the
    threshold of 80000; no [process_info] is yielded, and the payload of
    [tool_result] is the whole result, 119998 characters long. *)
Lemma no_truncation_at_120000 :
  Z.of_nat (length (json_dumps (blob_result "blob_small"))) = 120000%Z
  /\ yielded (serve_tool_call blob_agent idle_state (blob_call "blob_small")).1.1
     = [EToolCall (u "blob_small") (VDict []);
        EToolResult (u "blob_small")
          (redact_sensitive_data (blob_result "blob_small") None)]
  /\ match redact_sensitive_data (blob_result "blob_small") None with
     | VStr payload => Z.of_nat (length payload)
     | _ => 0%Z
     end = 119998%Z
  /\ existsb is_process_info
       (yielded (serve_tool_call blob_agent idle_state (blob_call "blob_small")).1.1)
     = false.
Proof.
  split; [exact blob_small_length|].
  assert (Hsmall : (estimate_tokens (json_dumps (blob_result "blob_small"))
                    <= MAX_TOOL_RESULT_TOKENS)%Z).
  { unfold estimate_tokens. rewrite blob_small_length. vm_compute. discriminate. }
  destruct (serve_tool_call_small blob_agent idle_state (blob_call "blob_small"))
    as (Hacts & _); [vm_compute; reflexivity|exact Hsmall|].
  rewrite Hacts. split; [reflexivity|]. split; [|reflexivity].
  vm_compute. reflexivity.
Qed.

(* ===================================================================== *)
(** ** A turn in which the model requests tool calls                      *)
(* ===================================================================== *)

Definition is_text (e : event) : bool :=
  match e with EThink _ | ESay _ => true | _ => false end.


Section ToolTurn.
Context `{PyUnicode} `{PyJson} `{PyErrors}.

(** What the call [tc] contributes: the arguments it is run with, what the
    tool returns for them, the event that announces it, the event that
    answers it, and the message appended for it with its [content]. *)
Definition parsed_arguments (tc : tool_call) : value :=
  default (VDict []) (json_loads (call_arguments tc)).

Definition result_of (a : AIAgent) (tc : tool_call) : value :=
  execute_tool a (call_name tc) (parsed_arguments tc).

Definition announce (tc : tool_call) : event :=
  EToolCall (call_name tc) (redact_sensitive_data (parsed_arguments tc) None).

Definition answer (a : AIAgent) (tc : tool_call) : event :=
  let result := execute_tool a (call_name tc) (parsed_arguments tc) in
  let result_json := json_dumps result in
  if (MAX_TOOL_RESULT_TOKENS <? estimate_tokens result_json)%Z then
    EToolResult (call_name tc)
      (VDict [(u "message", VStr (u "数据已截断"));
              (u "data",
               VStr (take 500 (data_of (_auto_chunk_large_result result_json
                                          (call_name tc)))))])
  else EToolResult (call_name tc) (redact_sensitive_data result None).

Definition reply_text (a : AIAgent) (tc : tool_call) : pystr :=
  let result := execute_tool a (call_name tc) (parsed_arguments tc) in
  let result_json := json_dumps result in
  if (MAX_TOOL_RESULT_TOKENS <? estimate_tokens result_json)%Z
  then json_dumps (VDict (_auto_chunk_large_result result_json (call_name tc)))
  else result_json.

Definition reply (a : AIAgent) (tc : tool_call) : message :=
  tool_message (call_id tc) (reply_text a tc).

(** The calls that are answered, which are those before the first whose
    result does not serialize; and that first one, which is announced and
    run and nothing more. *)
Fixpoint answered (a : AIAgent) (calls : list tool_call) : list tool_call :=
  match calls with
  | [] => []
  | tc :: rest =>
    match not_serializable (result_of a tc) with
    | None => tc :: answered a rest
    | Some _ => []
    end
  end.

Fixpoint unanswered (a : AIAgent) (calls : list tool_call) : option tool_call :=
  match calls with
  | [] => None
  | tc :: rest =>
    match not_serializable (result_of a tc) with
    | None => unanswered a rest
    | Some _ => Some tc
    end
  end.

Definition tool_events (evs : list event) : list event :=
  List.filter (fun e => is_tool_call e || is_tool_result e) evs.

Lemma yielded_app acts acts' : yielded (acts ++ acts') = yielded acts ++ yielded acts'.
Proof. apply omap_app. Qed.

Lemma yielded_Yield evs : yielded (map Yield evs) = evs.
Proof. induction evs as [|e evs IH]; simpl; [reflexivity|]. now f_equal. Qed.


Lemma serve_tool_call_spec a s tc :
  requests (serve_tool_call a s tc).1.2 = requests s
  /\ match not_serializable (result_of a tc) with
     | None =>
       exists info,
         yielded (serve_tool_call a s tc).1.1 = announce tc :: info ++ [answer a tc]
         /\ Forall (fun e => is_process_info e = true) info
         /\ messages (serve_tool_call a s tc).1.2 = messages s ++ [reply a tc]
         /\ (serve_tool_call a s tc).2 = None
     | Some t =>
       yielded (serve_tool_call a s tc).1.1 = [announce tc]
       /\ messages (serve_tool_call a s tc).1.2 = messages s
       /\ (serve_tool_call a s tc).2 = Some (not_json_serializable t)
     end.
Proof.
  unfold serve_tool_call, announce, answer, reply, reply_text, result_of,
    parsed_arguments.
  destruct (not_serializable _) as [t|]; [now repeat split|].
  destruct (_ <? _)%Z; (split; [reflexivity|]).
  - eexists [_]. repeat split. repeat constructor.
  - exists []. repeat split. constructor.
Qed.

Lemma tool_events_info info :
  Forall (fun e => is_process_info e = true) info -> tool_events info = [].
Proof.
  induction 1 as [|e info He _ IH]; [reflexivity|].
  unfold tool_events in *. simpl. rewrite IH. now destruct e.
Qed.

Lemma tool_events_app evs evs' : tool_events (evs ++ evs') = tool_events evs ++ tool_events evs'.
Proof. apply List.filter_app. Qed.

(** Serving [calls]: the answered ones are announced and answered one after
    the other and get their messages; the one that is not is announced
    last, and its [TypeError] is what leaves the loop. *)
Lemma serve_tool_calls_spec a calls s :
  tool_events (yielded (serve_tool_calls a s calls).1.1)
  = flat_map (fun tc => [announce tc; answer a tc]) (answered a calls)
    ++ match unanswered a calls with Some tc => [announce tc] | None => [] end
  /\ Forall (fun e => is_complete e = false /\ is_error e = false)
       (yielded (serve_tool_calls a s calls).1.1)
  /\ messages (serve_tool_calls a s calls).1.2
     = messages s ++ map (reply a) (answered a calls)
  /\ requests (serve_tool_calls a s calls).1.2 = requests s
  /\ match unanswered a calls with
     | None => (serve_tool_calls a s calls).2 = None
     | Some tc =>
       exists t pre,
         not_serializable (result_of a tc) = Some t
         /\ (serve_tool_calls a s calls).2 = Some (not_json_serializable t)
         /\ yielded (serve_tool_calls a s calls).1.1 = pre ++ [announce tc]
     end.
Proof.
  revert s. induction calls as [|tc calls IH]; intros s; simpl.
  - repeat split; [constructor|now rewrite app_nil_r].
  - destruct (serve_tool_call_spec a s tc) as (Hreq & Hone).
    destruct (not_serializable (result_of a tc)) as [t|] eqn:Hok.
    + destruct Hone as (Hevs & Hmsgs & Hraised).
      destruct (serve_tool_call a s tc) as [[acts s1] e]. simpl in *. subst e.
      simpl. rewrite Hevs, Hmsgs, app_nil_r. repeat split.
      * repeat constructor.
      * exact Hreq.
      * exists t, []. now repeat split.
    + destruct Hone as (info & Hevs & Hinfo & Hmsgs & Hnone).
      destruct (serve_tool_call a s tc) as [[acts s1] e]. simpl in *. subst e.
      specialize (IH s1).
      destruct (serve_tool_calls a s1 calls) as [[acts' s2] e']. simpl in *.
      destruct IH as (IHevs & IHno & IHmsgs & IHreq & IHend).
      rewrite yielded_app, Hevs. repeat split.
      * change (announce tc :: info ++ [answer a tc])
          with ([announce tc] ++ info ++ [answer a tc]).
        rewrite !tool_events_app, (tool_events_info info Hinfo), IHevs.
        unfold announce, answer. now destruct (_ <? _)%Z.
      * apply Forall_app. split; [|exact IHno]. constructor; [now split|].
        apply Forall_app. split.
        -- eapply Forall_impl; [exact Hinfo|]. intros e He. now destruct e.
        -- constructor; [|constructor]. unfold answer. now destruct (_ <? _)%Z.
      * now rewrite IHmsgs, Hmsgs, <- app_assoc.
      * now rewrite IHreq.
      * destruct (unanswered a calls) as [tc'|]; [|exact IHend].
        destruct IHend as (t & pre & Ht & Hraised & Hy).
        exists t, ((announce tc :: info ++ [answer a tc]) ++ pre).
        split; [exact Ht|]. split; [exact Hraised|]. now rewrite Hy, app_assoc.
Qed.

Lemma classify_text st c : Forall (fun e => is_text e = true) (classify st c).2.
Proof.
  unfold classify. repeat case_match; simpl; repeat constructor.
Qed.


Lemma read_stream_text chunks st :
  Forall (fun e => is_text e = true) (read_stream st chunks).2.
Proof.
  revert st. induction chunks as [|c chunks IH]; intros st; simpl; [constructor|].
  assert (Hc : Forall (fun e => is_text e = true) (read_chunk st c).2).
  { unfold read_chunk. destruct c as [d|]; [|constructor].
    destruct (truthy (delta_content d)); [apply classify_text|constructor]. }
  destruct (read_chunk st c) as [st1 evs]. specialize (IH st1).
  destruct (read_stream st1 chunks) as [st2 evs']. simpl in *.
  apply Forall_app. now split.
Qed.




Lemma length_tool_calls_list (m : gmap Z tc_acc) :
  length (tool_calls_list m) = size (dom m).
Proof.
  unfold tool_calls_list, sorted_keys.
  rewrite length_map, (Permutation_length (merge_sort_Permutation _ _)), length_map.
  now rewrite length_map_to_list, size_dom.
Qed.

End ToolTurn.

Section ToolTurnTheorem.
Context `{PyUnicode} `{PyJson} `{PyErrors}.



(** The requests to the backend yield nothing. *)
Lemma request_with_retries_silent w msgs tools retries k :
  yielded (request_with_retries w msgs tools retries k).1.1 = [].
Proof.
  revert k. induction retries as [|retry rest IH]; intros k; simpl; [reflexivity|].
  destruct (backend w k msgs tools); [|reflexivity].
  destruct (retry =? 2)%Z; [reflexivity|].
  specialize (IH (S k)).
  destruct (request_with_retries w msgs tools rest (S k)) as [[acts0 n0] r0].
  exact IH.
Qed.




End ToolTurnTheorem.

(** A response with two requests; the one with index 0 arrives last. *)
Definition two_calls_stream : list chunk :=
  [Some {| delta_tool_calls :=
             Some [{| frag_index := 1; frag_id := Some (u "call_b");
                      frag_function :=
                        Some {| fn_name := Some (u "git_list_merge_requests");
                                fn_arguments :=
                                  Some (u "{" ++ quoted "project" ++ u ": ") |} |}];
           delta_content := Some (u "Let me look.") |};
   Some {| delta_tool_calls :=
             Some [{| frag_index := 1; frag_id := None;
                      frag_function :=
                        Some {| fn_name := None;
                                fn_arguments := Some (quoted "ops" ++ u "}") |} |};
                   {| frag_index := 0; frag_id := Some (u "call_a");
                      frag_function :=
                        Some {| fn_name := Some (u "shell_run");
                                fn_arguments := Some (u "{}") |} |}];
           delta_content := None |}].









(* ===================================================================== *)
(** ** How an invocation ends                                             *)
(* ===================================================================== *)

(** Neither [complete] nor [error]. *)
Definition is_terminal (e : event) : bool := is_complete e || is_error e.

Section Endings.
Context `{PyUnicode} `{PyJson} `{PyErrors}.

(** [runs_to a w tools fuel s acts fuel' s']: started in state [s] with
    [fuel] passes to go, the loop does [acts] in turns that all serve tool
    calls and stands in state [s'] with [fuel'] passes to go. *)
Inductive runs_to (a : AIAgent) (w : World) (tools : list value)
  : nat -> loop_state -> list action -> nat -> loop_state -> Prop :=
| runs_to_here fuel s : runs_to a w tools fuel s [] fuel s
| runs_to_turn fuel s acts1 s1 acts fuel' s' :
    turn a w tools s = (acts1, s1, TurnContinues) ->
    runs_to a w tools fuel s1 acts fuel' s' ->
    runs_to a w tools (S fuel) s (acts1 ++ acts) fuel' s'.

Lemma loop_runs_to a w tools fuel s acts fuel' s' :
  runs_to a w tools fuel s acts fuel' s' ->
  loop a w tools fuel s
  = (acts ++ (loop a w tools fuel' s').1.1,
     (loop a w tools fuel' s').1.2, (loop a w tools fuel' s').2).
Proof.
  induction 1 as [fuel s|fuel s acts1 s1 acts fuel' s' Hturn _ IH].
  - now destruct (loop a w tools fuel s) as [[? ?] ?].
  - simpl. rewrite Hturn, IH. simpl. now rewrite app_assoc.
Qed.

Lemma quiet_text evs :
  Forall (fun e => is_text e = true) evs -> Forall (fun e => is_terminal e = false) evs.
Proof.
  intros Ht. eapply Forall_impl; [exact Ht|]. intros e He. now destruct e.
Qed.

Lemma quiet_served a calls s :
  Forall (fun e => is_terminal e = false) (yielded (serve_tool_calls a s calls).1.1).
Proof.
  destruct (serve_tool_calls_spec a calls s) as (_ & Hq & _).
  eapply Forall_impl; [exact Hq|]. intros e [Hc He]. unfold is_terminal. now rewrite Hc, He.
Qed.

(** A turn that does not return yields neither [complete] nor [error]; a
    turn that returns yields [complete] last, and only there. *)
Lemma turn_yields a w tools s :
  let '(acts, _, e) := turn a w tools s in
  match e with
  | TurnReturned =>
    exists pre think say st,
      yielded acts = pre ++ [EComplete think say st]
      /\ Forall (fun e => is_terminal e = false) pre
  | _ => Forall (fun e => is_terminal e = false) (yielded acts)
  end.
Proof.
  unfold turn.
  pose proof (request_with_retries_silent w
                (_compress_messages_if_needed (messages s) MAX_HISTORY_TOKENS)
                (offered tools) [0; 1; 2]%Z (requests s)) as Hsilent.
  destruct (request_with_retries _ _ _ _ _) as [[racts n] r]. simpl in Hsilent.
  destruct r as [[e|[chunks broken]]|].
  - rewrite Hsilent. constructor.
  - pose proof (quiet_text _ (read_stream_text chunks fresh_turn)) as Htext.
    destruct (read_stream fresh_turn chunks) as [ts evs]. simpl in Htext.
    destruct broken as [e|].
    + now rewrite yielded_app, yielded_Yield, Hsilent.
    + destruct (has_tool_calls ts && _).
      * match goal with
        | |- context [serve_tool_calls a ?s0 ?c] =>
          pose proof (quiet_served a c s0) as Hq;
            destruct (serve_tool_calls a s0 c) as [[acts' s2] e]
        end.
        assert (Hall : Forall (fun e => is_terminal e = false)
                         (yielded (racts ++ map Yield evs ++ acts'))).
        { rewrite !yielded_app, yielded_Yield, Hsilent. simpl in *.
          apply Forall_app. now split. }
        now destruct e.
      * rewrite !yielded_app, yielded_Yield, Hsilent. simpl.
        eexists evs, _, _, _. split; [reflexivity|exact Htext].
  - rewrite Hsilent. constructor.
Qed.

Lemma runs_to_quiet a w tools fuel s acts fuel' s' :
  runs_to a w tools fuel s acts fuel' s' ->
  Forall (fun e => is_terminal e = false) (yielded acts).
Proof.
  induction 1 as [fuel s|fuel s acts1 s1 acts fuel' s' Hturn _ IH]; [constructor|].
  pose proof (turn_yields a w tools s) as Hy. rewrite Hturn in Hy.
  rewrite yielded_app. apply Forall_app. now split.
Qed.

(** The three attempts, when each fails. *)
Lemma three_failures w msgs tools k e1 e2 e3 :
  backend w k msgs tools = ReqFail e1 ->
  backend w (S k) msgs tools = ReqFail e2 ->
  backend w (S (S k)) msgs tools = ReqFail e3 ->
  request_with_retries w msgs tools [0; 1; 2]%Z k
  = ([Request msgs tools; Sleep 2; Request msgs tools; Sleep 4; Request msgs tools],
     S (S (S k)), Some (inl e3)).
Proof. intros H1' H2' H3'. simpl. now rewrite H1', H2', H3'. Qed.

(** A failed attempt that is not the third is followed by another. *)
Lemma retry_recovers w msgs tools k e1 chunks broken :
  backend w k msgs tools = ReqFail e1 ->
  backend w (S k) msgs tools = ReqStream chunks broken ->
  request_with_retries w msgs tools [0; 1; 2]%Z k
  = ([Request msgs tools; Sleep 2; Request msgs tools], S (S k),
     Some (inr (chunks, broken))).
Proof. intros H1' H2'. simpl. now rewrite H1', H2'. Qed.

Lemma count_terminal_quiet (p : event -> bool) evs :
  (forall e, p e = true -> is_terminal e = true) ->
  Forall (fun e => is_terminal e = false) evs -> List.filter p evs = [].
Proof.
  intros Hp. induction 1 as [|e evs He _ IH]; simpl; [reflexivity|].
  destruct (p e) eqn:Hpe; [|exact IH]. rewrite (Hp e Hpe) in He. discriminate.
Qed.

Lemma yielded_unyielded acts : yielded (unyielded acts) = [].
Proof.
  induction acts as [|x acts IH]; simpl; [reflexivity|].
  destruct x; simpl; exact IH.
Qed.

(** C9: when the loop stands at a turn whose three attempts all fail, it
    has paused 2 and then 4 seconds between them, and the invocation ends
    there: [chat] yields what was yielded so far, with no [complete] in it,
    and then one [error] with the text of the third failure and the
    statistics. *)
Theorem retries_exhausted_is_fatal a w prompt stream acts fuel' s e1 e2 e3 :
  let tools := offered (get_tools a) in
  let msgs := _compress_messages_if_needed (messages s) MAX_HISTORY_TOKENS in
  runs_to a w (get_tools a) (Z.to_nat (max_iterations a)) (initial_state a w prompt)
    acts (S fuel') s ->
  backend w (requests s) msgs tools = ReqFail e1 ->
  backend w (S (requests s)) msgs tools = ReqFail e2 ->
  backend w (S (S (requests s))) msgs tools = ReqFail e3 ->
  let attempts :=
    [Request msgs tools; Sleep 2; Request msgs tools; Sleep 4; Request msgs tools] in
  chat a w prompt stream
  = (if stream then acts ++ attempts else unyielded (acts ++ attempts))
    ++ [Yield (EError e3 (stats s))]
  /\ yielded (chat a w prompt stream)
     = (if stream then yielded acts else []) ++ [EError e3 (stats s)]
  /\ List.filter is_error (yielded (chat a w prompt stream)) = [EError e3 (stats s)]
  /\ List.filter is_complete (yielded (chat a w prompt stream)) = [].
Proof.
  intros tools msgs Hruns H1' H2' H3' attempts.
  pose proof (three_failures w msgs tools (requests s) e1 e2 e3 H1' H2' H3') as Hreq.
  assert (Hturn : turn a w (get_tools a) s
                  = (attempts, {| messages := msgs; stats := stats s;
                                  requests := S (S (S (requests s))) |}, TurnRaised e3)).
  { unfold turn. fold msgs tools. now rewrite Hreq. }
  assert (Hchat : chat a w prompt stream
                  = (if stream then acts ++ attempts else unyielded (acts ++ attempts))
                    ++ [Yield (EError e3 (stats s))]).
  { unfold chat, _stream_chat_with_tools.
    rewrite (loop_runs_to _ _ _ _ _ _ _ _ Hruns). simpl. now rewrite Hturn. }
  assert (Hy : yielded (chat a w prompt stream)
               = (if stream then yielded acts else []) ++ [EError e3 (stats s)]).
  { rewrite Hchat, yielded_app. f_equal. destruct stream.
    - rewrite yielded_app. apply app_nil_r.
    - apply yielded_unyielded. }
  assert (Hq : Forall (fun e => is_terminal e = false)
                 (if stream then yielded acts else [])).
  { destruct stream; [exact (runs_to_quiet _ _ _ _ _ _ _ _ Hruns)|constructor]. }
  assert (Herr : forall e, is_error e = true -> is_terminal e = true).
  { intros e He. unfold is_terminal. rewrite He. apply orb_true_r. }
  assert (Hcomp : forall e, is_complete e = true -> is_terminal e = true).
  { intros e He. unfold is_terminal. now rewrite He. }
  split; [exact Hchat|]. split; [exact Hy|]. rewrite Hy, !List.filter_app. split.
  - now rewrite (count_terminal_quiet is_error _ Herr Hq).
  - now rewrite (count_terminal_quiet is_complete _ Hcomp Hq).
Qed.

End Endings.

(** The pauses among the actions. *)
Definition sleeps (acts : list action) : list Z :=
  omap (fun x => match x with Sleep d => Some d | _ => None end) acts.

Definition error_content (e : event) : option pystr :=
  match e with EError c _ => Some c | _ => None end.

(** A backend that answers the first request with two tool calls and then
    goes away. *)
Definition flaky_world : World :=
  {| backend n _ _ :=
       match n with
       | O => ReqStream two_calls_stream None
       | S _ => ReqFail (u "connection reset")
       end;
     knowledge _ := None |}.

(** C9, witness: one turn serves the two calls, the next request fails
    three times. *)
Lemma retries_exhausted_is_fatal_witness :
  sleeps (chat git_agent flaky_world (u "hi") true) = [2; 4]%Z
  /\ map error_content (List.filter is_error (yielded (chat git_agent flaky_world (u "hi") true)))
     = [Some (u "connection reset")]
  /\ List.filter is_complete (yielded (chat git_agent flaky_world (u "hi") true)) = [].
Proof.
  pose (s0 := initial_state git_agent flaky_world (u "hi")).
  pose (t := turn git_agent flaky_world (get_tools git_agent) s0).
  assert (Hturn : turn git_agent flaky_world (get_tools git_agent) s0
                  = (t.1.1, t.1.2, TurnContinues)) by (vm_compute; reflexivity).
  assert (Hruns : runs_to git_agent flaky_world (get_tools git_agent)
                    (Z.to_nat (max_iterations git_agent)) s0 (t.1.1 ++ []) 99 t.1.2).
  { exact (runs_to_turn _ _ _ 99 s0 _ _ [] 99 _ Hturn (runs_to_here _ _ _ 99 _)). }
  destruct (retries_exhausted_is_fatal git_agent flaky_world (u "hi") true
              (t.1.1 ++ []) 98 t.1.2
              (u "connection reset") (u "connection reset") (u "connection reset")
              Hruns eq_refl eq_refl eq_refl) as (Hchat & _ & Herr & Hcomp).
  split; [rewrite Hchat; vm_compute; reflexivity|].
  split; [rewrite Herr; reflexivity|exact Hcomp].
Defined.

Section Cap.
Context `{PyUnicode} `{PyJson} `{PyErrors}.

(** A loop that does not return has yielded neither [complete] nor
    [error]. *)
Lemma loop_quiet a w tools fuel s :
  (loop a w tools fuel s).2 <> LoopReturned ->
  Forall (fun e => is_terminal e = false) (yielded (loop a w tools fuel s).1.1).
Proof.
  revert s. induction fuel as [|fuel IH]; intros s; simpl; [constructor|].
  pose proof (turn_yields a w tools s) as Hy.
  destruct (turn a w tools s) as [[acts s1] e]. destruct e as [| |x].
  - simpl. contradiction.
  - specialize (IH s1). destruct (loop a w tools fuel s1) as [[acts' s2] e'].
    simpl in *. intros He. rewrite yielded_app. apply Forall_app. split; auto.
  - simpl. intros _. exact Hy.
Qed.

(** What the summary request yields: the answer text as it streams, then
    one [complete]; the fallback when the request or its stream fails. *)
Lemma forced_summary_yields w s :
  let msgs :=
    messages s
    ++ [plain_message (u "user") (u "请根据上述工具调用结果，简要总结回答用户的问题。")] in
  exists says think say st,
    yielded (forced_summary w s).1 = map ESay says ++ [EComplete think say st]
    /\ match backend w (requests s) msgs None with
       | ReqStream _ None => True
       | _ => think = [] /\ say = FALLBACK /\ st = stats s
       end.
Proof.
  intros msgs. unfold forced_summary. fold msgs.
  destruct (backend w (requests s) msgs None) as [e|chunks broken].
  - exists [], [], FALLBACK, (stats s). now split.
  - assert (Hsays : forall tail,
               yielded (map (fun c => Yield (ESay c)) (contents chunks) ++ tail)
               = map ESay (contents chunks) ++ yielded tail).
    { intros tail. rewrite yielded_app. f_equal.
      induction (contents chunks) as [|c cs IH]; simpl; [reflexivity|]. now f_equal. }
    destruct broken as [e|]; simpl; rewrite Hsays; simpl;
      eexists (contents chunks), _, _, _; split; try reflexivity; auto.
Qed.

Lemma says_quiet says : Forall (fun e => is_terminal e = false) (map ESay says).
Proof. induction says; constructor; auto. Qed.

(** C3 (as amended): when the loop ends by its bound and the tool catalog
    is not empty, the caller receives one [complete] and no [error]; when
    the summary request or its stream fails, that [complete] carries the
    fallback text. With an empty catalog the generator ends there and the
    streaming caller receives neither. *)
Theorem cap_reached a w prompt acts s :
  loop a w (get_tools a) (Z.to_nat (max_iterations a)) (initial_state a w prompt)
  = (acts, s, LoopExhausted) ->
  let msgs :=
    messages s
    ++ [plain_message (u "user") (u "请根据上述工具调用结果，简要总结回答用户的问题。")] in
  (get_tools a <> [] ->
   (forall stream,
      length (List.filter is_complete (yielded (chat a w prompt stream))) = 1%nat
      /\ List.filter is_error (yielded (chat a w prompt stream)) = [])
   /\ exists says think say st,
        yielded (chat a w prompt true)
        = yielded acts ++ map ESay says ++ [EComplete think say st]
        /\ match backend w (requests s) msgs None with
           | ReqStream _ None => True
           | _ => think = [] /\ say = FALLBACK /\ st = stats s
           end)
  /\ (get_tools a = [] ->
      chat a w prompt true = acts
      /\ List.filter is_complete (yielded (chat a w prompt true)) = []
      /\ List.filter is_error (yielded (chat a w prompt true)) = []).
Proof.
  intros Hloop msgs.
  assert (Hq : Forall (fun e => is_terminal e = false) (yielded acts)).
  { pose proof (loop_quiet a w (get_tools a) (Z.to_nat (max_iterations a))
                  (initial_state a w prompt)) as Hq.
    rewrite Hloop in Hq. now apply Hq. }
  assert (Herr : forall e, is_error e = true -> is_terminal e = true).
  { intros e He. unfold is_terminal. rewrite He. apply orb_true_r. }
  assert (Hcomp : forall e, is_complete e = true -> is_terminal e = true).
  { intros e He. unfold is_terminal. now rewrite He. }
  split.
  - intros Htools.
    destruct (forced_summary_yields w s) as (says & think & say & st & Hsum & Hfall).
    fold msgs in Hfall.
    assert (Hgen : exists s',
               _stream_chat_with_tools a w prompt
               = (acts ++ (forced_summary w s).1, s', Returned)).
    { unfold _stream_chat_with_tools. rewrite Hloop.
      destruct (get_tools a); [contradiction|].
      destruct (forced_summary w s) as [acts' s']. now exists s'. }
    destruct Hgen as [s' Hgen].
    assert (Hstream : yielded (chat a w prompt true)
                      = yielded acts ++ map ESay says ++ [EComplete think say st]).
    { unfold chat. rewrite Hgen. now rewrite app_nil_r, yielded_app, Hsum. }
    split; [|now exists says, think, say, st].
    intros [|].
    + rewrite Hstream, !List.filter_app.
      rewrite (count_terminal_quiet is_complete _ Hcomp Hq),
        (count_terminal_quiet is_complete _ Hcomp (says_quiet says)),
        (count_terminal_quiet is_error _ Herr Hq),
        (count_terminal_quiet is_error _ Herr (says_quiet says)).
      now split.
    + unfold chat. rewrite Hgen. rewrite yielded_app, yielded_unyielded.
      unfold _sync_chat_with_tools. now destruct (fold_left collect _ _) as [[? ?] ?].
  - intros Htools.
    assert (Hchat : chat a w prompt true = acts).
    { unfold chat, _stream_chat_with_tools. rewrite Hloop, Htools. apply app_nil_r. }
    rewrite Hchat. split; [reflexivity|]. split.
    + exact (count_terminal_quiet is_complete _ Hcomp Hq).
    + exact (count_terminal_quiet is_error _ Herr Hq).
Qed.

End Cap.

(** A registry whose [git] module advertises its tool, one pass allowed. *)
Definition git_catalog : list value :=
  [VDict [(u "type", VStr (u "function"));
          (u "function", VDict [(u "name", VStr (u "git_list_merge_requests"))])]].

Definition one_pass_agent : AIAgent :=
  {| mcp_manager :=
       Some {| services :=
                 [(u "git",
                   {| svc_name := u "git";
                      svc_module := Some {| TOOL_DEFINITIONS := Some git_catalog;
                                            get_tool_definitions := None |};
                      svc_tools := {[ u "list_merge_requests" := echo_project ]};
                      svc_loaded := true |})] |};
     max_iterations := 1; username := []; cname := [] |}.

(** C3, witness: the only pass serves two calls, the summary request
    fails, and the fallback [complete] ends the stream. *)
Lemma cap_reached_witness :
  get_tools one_pass_agent <> []
  /\ length (List.filter is_complete
               (yielded (chat one_pass_agent flaky_world (u "hi") true))) = 1%nat
  /\ List.filter is_error (yielded (chat one_pass_agent flaky_world (u "hi") true)) = []
  /\ exists st,
       last (yielded (chat one_pass_agent flaky_world (u "hi") true))
       = Some (EComplete [] (u "（已达到最大工具调用次数）") st).
Proof.
  assert (Htools : get_tools one_pass_agent <> []) by discriminate.
  pose (l := loop one_pass_agent flaky_world (get_tools one_pass_agent)
               (Z.to_nat (max_iterations one_pass_agent))
               (initial_state one_pass_agent flaky_world (u "hi"))).
  assert (Hloop : l = (l.1.1, l.1.2, LoopExhausted)) by (vm_compute; reflexivity).
  destruct (cap_reached one_pass_agent flaky_world (u "hi") l.1.1 l.1.2 Hloop)
    as [Hsome _].
  destruct (Hsome Htools) as (Hcount & says & think & say & st & Hy & Hfall).
  destruct (Hcount true) as [Hone Hnone].
  split; [exact Htools|]. split; [exact Hone|]. split; [exact Hnone|].
  exists st. rewrite Hy, app_assoc, last_snoc.
  assert (Hfail : backend flaky_world (requests l.1.2)
                    (messages l.1.2
                     ++ [plain_message (u "user")
                           (u "请根据上述工具调用结果，简要总结回答用户的问题。")]) None
                  = ReqFail (u "connection reset")) by (vm_compute; reflexivity).
  rewrite Hfail in Hfall. destruct Hfall as (-> & -> & _). reflexivity.
Defined.

(** An agent without a registry, and so without a catalog. *)
Definition bare_agent (passes : Z) : AIAgent :=
  {| mcp_manager := None; max_iterations := passes; username := []; cname := [] |}.

(** C3 as stated fails without a catalog: with no pass allowed nothing at
    all is yielded; with one pass, spent on two tool calls the backend asks
    for anyway, the stream ends after their results, with no [complete]. *)
Lemma cap_without_catalog_no_complete :
  yielded (chat (bare_agent 0) flaky_world (u "hi") true) = []
  /\ (loop (bare_agent 1) flaky_world (get_tools (bare_agent 1))
        (Z.to_nat (max_iterations (bare_agent 1)))
        (initial_state (bare_agent 1) flaky_world (u "hi"))).2 = LoopExhausted
  /\ map is_tool_result (yielded (chat (bare_agent 1) flaky_world (u "hi") true))
     = [false; false; true; false; true]
  /\ List.filter is_complete (yielded (chat (bare_agent 1) flaky_world (u "hi") true)) = [].
Proof.
  split; [vm_compute; reflexivity|]. split; [vm_compute; reflexivity|].
  split; vm_compute; reflexivity.
Qed.

(* ===================================================================== *)
(** ** History compression                                                *)
(* ===================================================================== *)

(** The top-level keys of a parsed result; none when it is no mapping. *)
Definition keys_of (result : value) : list pystr :=
  match result with
  | VDict d => dict_keys d
  | _ => []
  end.

(** The summary object with the given keys. *)
Definition summary_with (keys : list pystr) : value :=
  VDict [(u "compressed", VBool true); (u "keys", VList (map VStr keys));
         (u "note", VStr (u "结果已压缩"))].

Section Compression.
Context `{PyJson}.

(** Whether [compress_message] rewrites [m]: a tool message over the size
    threshold. *)
Definition oversized_tool_message (m : message) : bool :=
  str_eqb (role m) (u "tool") && (10000 <? estimate_tokens (content m))%Z.

Lemma compress_message_spec m :
  role (compress_message m) = role m
  /\ tool_calls (compress_message m) = tool_calls m
  /\ tool_call_id (compress_message m) = tool_call_id m
  /\ match json_loads (content m) with
     | Some result =>
       if oversized_tool_message m
       then content (compress_message m)
            = json_dumps (summary_with (take 10 (keys_of result)))
       else compress_message m = m
     | None => compress_message m = m
     end.
Proof.
  unfold compress_message, oversized_tool_message.
  destruct (str_eqb (role m) (u "tool")); simpl.
  - destruct (10000 <? estimate_tokens (content m))%Z; simpl.
    + destruct (json_loads (content m)) as [result|]; simpl; [|now repeat split].
      repeat split. now destruct result.
    + destruct (json_loads (content m)); now repeat split.
  - destruct (json_loads (content m)); now repeat split.
Qed.

(** C8 (as amended): within the budget nothing changes. Over the budget,
    every message keeps its role, its tool calls and its call id; a tool
    message over the size threshold whose content parses has its content
    replaced by the serialized summary, which lists at most the first ten
    top-level keys of the parsed result; every other message is unchanged. *)
Theorem compression_frame msgs max_tokens :
  let out := _compress_messages_if_needed msgs max_tokens in
  ((transcript_tokens msgs <= max_tokens)%Z -> out = msgs)
  /\ ((max_tokens < transcript_tokens msgs)%Z ->
      Forall2 (fun m m' =>
                 role m' = role m
                 /\ tool_calls m' = tool_calls m
                 /\ tool_call_id m' = tool_call_id m
                 /\ match json_loads (content m) with
                    | Some result =>
                      if oversized_tool_message m
                      then content m'
                           = json_dumps (summary_with (take 10 (keys_of result)))
                      else m' = m
                    | None => m' = m
                    end) msgs out).
Proof.
  intros out. unfold out, _compress_messages_if_needed. split.
  - intros Hle. apply Z.leb_le in Hle. now rewrite Hle.
  - intros Hlt. apply Z.leb_gt in Hlt. rewrite Hlt. clear Hlt out.
    induction msgs as [|m msgs' IH]; simpl; constructor.
    + apply compress_message_spec.
    + exact IH.
Qed.

End Compression.

(** A tool result with eleven top-level keys; the first holds a long text,
    so that the serialization passes both thresholds. *)
Definition eleven_keys : value :=
  VDict ((u "k01", VStr (repeat 120 (N.to_nat 200010)))
         :: map (fun k => (u k, VInt 0))
              ["k02"; "k03"; "k04"; "k05"; "k06"; "k07"; "k08"; "k09"; "k10"; "k11"]%string).

Definition long_result_message : message :=
  tool_message (u "call_1") (json_dumps eleven_keys).

Definition short_history : list message :=
  [plain_message (u "system") (u "be brief"); plain_message (u "user") (u "hi")].

Definition first_ten : list pystr :=
  map u ["k01"; "k02"; "k03"; "k04"; "k05"; "k06"; "k07"; "k08"; "k09"; "k10"]%string.

Lemma long_result_over_budget :
  (MAX_HISTORY_TOKENS < transcript_tokens (short_history ++ [long_result_message]))%Z.
Proof. vm_compute. reflexivity. Qed.

(** C8, witness: a short history is returned as it is; with the long tool
    result the two plain messages are kept and the tool message is left
    with the summary of its first ten keys. *)
Lemma compression_frame_witness :
  _compress_messages_if_needed short_history MAX_HISTORY_TOKENS = short_history
  /\ (MAX_HISTORY_TOKENS < transcript_tokens (short_history ++ [long_result_message]))%Z
  /\ _compress_messages_if_needed (short_history ++ [long_result_message])
       MAX_HISTORY_TOKENS
     = short_history
       ++ [tool_message (u "call_1") (json_dumps (summary_with first_ten))].
Proof.
  destruct (compression_frame short_history MAX_HISTORY_TOKENS) as [Hwithin _].
  destruct (compression_frame (short_history ++ [long_result_message])
              MAX_HISTORY_TOKENS) as [_ Hover].
  split; [apply Hwithin; vm_compute; discriminate|].
  split; [exact long_result_over_budget|].
  specialize (Hover long_result_over_budget).
  vm_compute. reflexivity.
Defined.

(** C8 as stated fails: the result has eleven top-level keys and the
    summary lists ten of them; [k11] is gone. *)
Lemma summary_drops_eleventh_key :
  (MAX_HISTORY_TOKENS < transcript_tokens [long_result_message])%Z
  /\ oversized_tool_message long_result_message = true
  /\ option_map (fun result => length (keys_of result))
       (json_loads (content long_result_message)) = Some 11%nat
  /\ map content (_compress_messages_if_needed [long_result_message] MAX_HISTORY_TOKENS)
     = [json_dumps (summary_with first_ten)]
  /\ json_dumps (summary_with first_ten)
     <> json_dumps (summary_with (first_ten ++ [u "k11"]))
  /\ str_in (u "k11") (json_dumps (summary_with first_ten)) = false.
Proof.
  split; [vm_compute; reflexivity|]. split; [vm_compute; reflexivity|].
  split; [vm_compute; reflexivity|]. split; [vm_compute; reflexivity|].
  split; [vm_compute; discriminate|vm_compute; reflexivity].
Qed.

(* ===================================================================== *)
(** ** Redaction: what the result always satisfies                       *)
(* ===================================================================== *)

Section RedactionInvariants.
Context `{PyUnicode}.

(** At every depth that is reached through keys that are not sensitive, an
    entry under a sensitive key holds the marker. *)
Fixpoint sealed (sensitive_keys : list pystr) (data : value) : bool :=
  match data with
  | VDict d =>
    forallb (fun kv =>
               if sensitive_key sensitive_keys (fst kv)
               then match snd kv with
                    | VStr s => str_eqb s REDACTED
                    | _ => false
                    end
               else sealed sensitive_keys (snd kv)) d
  | VList l => forallb (sealed sensitive_keys) l
  | _ => true
  end.

(** What redaction has no say in: every string is emptied and every value
    under a sensitive key is dropped; mappings keep their keys in order,
    lists their length, and [None], booleans and integers stay. *)
Fixpoint outline (sensitive_keys : list pystr) (data : value) : value :=
  match data with
  | VDict d =>
    VDict (map (fun kv =>
                  (fst kv,
                   if sensitive_key sensitive_keys (fst kv) then VNull
                   else outline sensitive_keys (snd kv))) d)
  | VList l => VList (map (outline sensitive_keys) l)
  | VStr _ => VStr []
  | _ => data
  end.

(** X1: whatever the data and whatever the list of sensitive keys, in the
    result of [redact_sensitive_data] every mapping entry whose key is
    sensitive holds the marker text, at every depth of mappings and lists. *)
Theorem redaction_seals_sensitive_keys data sks :
  sealed (default default_sensitive_keys sks) (redact_sensitive_data data sks) = true.
Proof.
  unfold redact_sensitive_data. generalize (default default_sensitive_keys sks) as keys.
  intros keys.
  induction data as [| | |s|l IH|d IH|t] using value_ind; simpl; try reflexivity.
  - now destruct (_ && _).
  - induction IH as [|x l Hx _ IHl]; simpl; [reflexivity|]. now rewrite Hx.
  - induction IH as [|kv d Hkv _ IHd]; simpl; [reflexivity|].
    rewrite IHd, andb_true_r.
    destruct (sensitive_key keys kv.1); [|exact Hkv].
    unfold str_eqb. now apply bool_decide_eq_true.
Qed.

(** X2: redaction changes strings and the values under sensitive keys and
    nothing else: mappings keep their keys and their order, lists keep their
    length, and [None], booleans and integers are passed through, at every
    depth. *)
Theorem redaction_keeps_outline data sks :
  let keys := default default_sensitive_keys sks in
  outline keys (redact_sensitive_data data sks) = outline keys data.
Proof.
  cbv zeta. unfold redact_sensitive_data.
  generalize (default default_sensitive_keys sks) as keys. intros keys.
  induction data as [| | |s|l IH|d IH|t] using value_ind; simpl; try reflexivity.
  - now destruct (_ && _).
  - f_equal. rewrite List.map_map.
    induction IH as [|x l Hx _ IHl]; simpl; [reflexivity|]. now rewrite Hx, IHl.
  - f_equal. rewrite List.map_map.
    induction IH as [|kv d Hkv _ IHd]; [reflexivity|].
    cbn [map]. f_equal; [|exact IHd]. cbn [fst snd]. f_equal.
    destruct (sensitive_key keys kv.1); [reflexivity|exact Hkv].
Qed.

(** X3: whatever goes in, what [redact_sensitive_data] returns has only
    strings free of the characters [clean_utf8] drops; and a second pass
    brings the data to a fixed point, which a third pass leaves as it is. *)
Theorem redaction_clean_and_settles data sks :
  let once := redact_sensitive_data data sks in
  let twice := redact_sensitive_data once sks in
  all_printable once = true
  /\ all_printable twice = true
  /\ redact_sensitive_data twice sks = twice.
Proof.
  cbv zeta. unfold redact_sensitive_data.
  split; [apply redact_rec_printable|].
  split; [apply redact_rec_printable|].
  apply redact_rec_idem_printable, redact_rec_printable.
Qed.

(** X4: [clean_utf8] never lengthens a text, works character by character
    (so it distributes over concatenation), cleaning twice is cleaning
    once, and a text of ASCII printable characters, newlines, carriage
    returns and tabs is returned as it is. *)
Theorem clean_utf8_properties (s t : pystr) :
  (length (clean_utf8 s) <= length s)%nat
  /\ clean_utf8 (s ++ t) = clean_utf8 s ++ clean_utf8 t
  /\ clean_utf8 (clean_utf8 s) = clean_utf8 s
  /\ (forallb (fun c => ((32 <=? c) && (c <=? 126)) || is_nrt c) s = true ->
      clean_utf8 s = s).
Proof.
  split; [apply List.filter_length_le|].
  split; [apply List.filter_app|].
  split; [apply clean_utf8_fixed, clean_utf8_printable|].
  intros Hs. apply clean_utf8_fixed.
  apply forallb_forall. intros c Hc.
  rewrite forallb_forall in Hs. specialize (Hs c Hc).
  apply orb_prop in Hs as [Hs| ->]; [|apply orb_true_r].
  apply andb_prop in Hs as [Hlo Hhi].
  rewrite isprintable_ascii; [reflexivity|].
  apply N.leb_le in Hlo. apply N.leb_le in Hhi. lia.
Qed.

End RedactionInvariants.

(** X4, witness: a two-line text of ASCII characters. *)
Lemma clean_utf8_properties_witness :
  forallb (fun c => ((32 <=? c) && (c <=? 126)) || is_nrt c)
    (u "ls -l" ++ [10] ++ u "done") = true
  /\ clean_utf8 (u "ls -l" ++ [10] ++ u "done") = u "ls -l" ++ [10] ++ u "done".
Proof.
  destruct (clean_utf8_properties (u "ls -l" ++ [10] ++ u "done") [])
    as (_ & _ & _ & Hfixed).
  split; [vm_compute; reflexivity|]. apply Hfixed. vm_compute. reflexivity.
Defined.

(* ===================================================================== *)
(** ** Dispatch: what [execute_tool] answers when no tool result comes    *)
(* ===================================================================== *)

Section DispatchErrors.
Context `{PyErrors}.

(** [split_once] gives one piece or two; two pieces are the text before the
    first separator and the text after it. *)
Lemma split_once_inv (sep : char) (s : pystr) :
  ((sep ∉ s) /\ split_once sep s = [s])
  \/ (exists m f : pystr, (sep ∉ m) /\ s = m ++ sep :: f /\ split_once sep s = [m; f]).
Proof.
  induction s as [|c s IH]; simpl.
  - left. split; [|reflexivity]. intros Hin. inversion Hin.
  - destruct (N.eqb_spec c sep) as [->|Hc].
    + right. exists [], s. split; [|now split]. intros Hin. inversion Hin.
    + destruct IH as [[Hs ->]|(m & f & Hm & -> & ->)].
      * left. split; [|reflexivity]. intros Hin.
        apply elem_of_cons in Hin as [<-|Hin]; [now apply Hc|now apply Hs].
      * right. exists (c :: m), f. split; [|now split]. intros Hin.
        apply elem_of_cons in Hin as [<-|Hin]; [now apply Hc|now apply Hm].
Qed.

Lemma find_some_elem {A} (p : A -> bool) (l : list A) x :
  List.find p l = Some x -> x ∈ l /\ p x = true.
Proof.
  induction l as [|y l IH]; simpl; [discriminate|].
  destruct (p y) eqn:Hy.
  - intros [= <-]. split; [left|exact Hy].
  - intros Hx. destruct (IH Hx). split; [now right|assumption].
Qed.

(** X5: [execute_tool] never lets a failure out. Every answer is a mapping
    with the single key [error], unless the name cuts at its first separator
    into a registered, loaded service and one of its tools, the arguments
    are a mapping that binds neither [self] nor [tool_name], and the tool
    returns; the answer is then what the tool returned. *)
Theorem execute_tool_error_or_tool_value a tool_name arguments :
  (exists msg, execute_tool a tool_name arguments = error_result msg)
  \/ (exists mgr (m f : pystr) service tool kwargs,
        mcp_manager a = Some mgr
        /\ tool_name = m ++ 95 :: f /\ (95 ∉ m)
        /\ get_service mgr m = Some service
        /\ svc_loaded service = true
        /\ svc_tools service !! f = Some tool
        /\ arguments = VDict kwargs
        /\ (forall k, k ∈ dict_keys kwargs -> k <> u "self" /\ k <> u "tool_name")
        /\ run tool kwargs = Returns (execute_tool a tool_name arguments)).
Proof.
  unfold execute_tool.
  destruct (mcp_manager a) as [mgr|] eqn:Hmgr; [|left; eexists; reflexivity].
  destruct (split_once_inv 95 tool_name) as [[_ ->]|(m & f & Hm & -> & ->)];
    [left; eexists; reflexivity|].
  destruct (get_service mgr m) as [service|] eqn:Hsvc; [|left; eexists; reflexivity].
  destruct (svc_tools service !! f) as [tool|] eqn:Htool; [|left; eexists; reflexivity].
  unfold call_with.
  destruct arguments as [| | | | |kwargs|t]; try (left; eexists; reflexivity).
  destruct (List.find _ (dict_keys kwargs)) as [k|] eqn:Hfind;
    [left; eexists; reflexivity|].
  unfold call_tool. rewrite Htool.
  destruct (svc_loaded service) eqn:Hloaded; simpl; [|left; eexists; reflexivity].
  assert (Hrun : (if is_coroutine tool then run tool kwargs else run tool kwargs)
                 = run tool kwargs) by now destruct (is_coroutine tool).
  rewrite Hrun. destruct (run tool kwargs) as [v|e] eqn:Hv; [|left; eexists; reflexivity].
  right. exists mgr, m, f, service, tool, kwargs.
  split; [reflexivity|]. split; [reflexivity|]. split; [exact Hm|].
  split; [exact Hsvc|]. split; [exact Hloaded|]. split; [exact Htool|].
  split; [reflexivity|]. split; [|exact Hv].
  intros k Hk. pose proof (proj1 (find_none_iff _ _) Hfind k Hk) as Hno.
  apply orb_false_elim in Hno as [Hs Ht]. unfold str_eqb in Hs, Ht.
  apply bool_decide_eq_false in Hs. apply bool_decide_eq_false in Ht. now split.
Qed.

(** X6: the three refusals of a name, each with the part of the name it
    blames. A name without a separator is invalid as a whole; otherwise
    only the text before the first separator is looked up as a service, and
    only the text after it as a tool of that service. The arguments play no
    part. *)
Theorem execute_tool_refusals a mgr arguments :
  mcp_manager a = Some mgr ->
  (forall tool_name,
     95 ∉ tool_name ->
     execute_tool a tool_name arguments
     = error_result (u "无效的工具名称: " ++ tool_name))
  /\ (forall m f : pystr,
        95 ∉ m -> get_service mgr m = None ->
        execute_tool a (m ++ 95 :: f) arguments
        = error_result (u "MCP服务不存在: " ++ m))
  /\ (forall (m f : pystr) service,
        95 ∉ m -> get_service mgr m = Some service ->
        svc_tools service !! f = None ->
        execute_tool a (m ++ 95 :: f) arguments
        = error_result (u "工具不存在: " ++ f)).
Proof.
  intros Hmgr. unfold execute_tool. rewrite Hmgr. split; [|split].
  - intros tool_name Hsep. now rewrite (split_once_none _ _ Hsep).
  - intros m f Hm Hsvc. now rewrite (split_once_first _ _ _ Hm), Hsvc.
  - intros m f service Hm Hsvc Htool.
    now rewrite (split_once_first _ _ _ Hm), Hsvc, Htool.
Qed.

(** X7: arguments that bind [self] or [tool_name] never reach the tool: the
    call fails on unpacking them, whatever the tool would do, and the
    answer is the error mapping with the interpreter's message for one of
    the two names. Arguments that are no mapping fail the same way. *)
Theorem reserved_argument_names_are_refused a mgr service tool (m f : pystr)
    arguments :
  mcp_manager a = Some mgr ->
  95 ∉ m ->
  get_service mgr m = Some service ->
  svc_tools service !! f = Some tool ->
  match arguments with
  | VDict kwargs =>
    (u "self" ∈ dict_keys kwargs \/ u "tool_name" ∈ dict_keys kwargs) ->
    exists k, (k = u "self" \/ k = u "tool_name")
              /\ k ∈ dict_keys kwargs
              /\ execute_tool a (m ++ 95 :: f) arguments
                 = error_result (multiple_values k)
  | _ => execute_tool a (m ++ 95 :: f) arguments
         = error_result (not_a_mapping arguments)
  end.
Proof.
  intros Hmgr Hm Hsvc Htool.
  assert (Hexec : execute_tool a (m ++ 95 :: f) arguments
                  = match call_with service f arguments with
                    | Returns result => result
                    | Raises e => error_result e
                    end).
  { unfold execute_tool. now rewrite Hmgr, (split_once_first _ _ _ Hm), Hsvc, Htool. }
  rewrite Hexec. unfold call_with.
  destruct arguments as [| | | | |kwargs|t]; try reflexivity.
  intros Hbound.
  destruct (List.find _ (dict_keys kwargs)) as [k|] eqn:Hfind.
  - apply find_some_elem in Hfind as [Hk Hp]. exists k.
    split; [|split; [exact Hk|reflexivity]].
    apply orb_prop in Hp as [Hp|Hp]; unfold str_eqb in Hp;
      apply bool_decide_eq_true in Hp; auto.
  - exfalso. pose proof (proj1 (find_none_iff _ _) Hfind) as Hno.
    destruct Hbound as [Hin|Hin]; specialize (Hno _ Hin);
      unfold str_eqb in Hno; apply orb_false_elim in Hno as [Hs Ht].
    + now apply bool_decide_eq_false in Hs.
    + now apply bool_decide_eq_false in Ht.
Qed.

End DispatchErrors.

(** X6, witness: with the registry that holds [git] alone, [ping] is no
    valid name, [shell_run] names no service and [git_push] no tool. *)
Lemma execute_tool_refusals_witness :
  execute_tool git_agent (u "ping") (VDict []) = error_result (u "无效的工具名称: ping")
  /\ execute_tool git_agent (u "shell" ++ 95 :: u "run") (VDict [])
     = error_result (u "MCP服务不存在: shell")
  /\ execute_tool git_agent (u "git" ++ 95 :: u "push") (VDict [])
     = error_result (u "工具不存在: push").
Proof.
  destruct (execute_tool_refusals git_agent {| services := [(u "git", git_service)] |}
              (VDict []) eq_refl) as (Hname & Hservice & Htool).
  split; [|split].
  - apply (Hname (u "ping")). vm_compute. intros Hin.
    repeat (apply elem_of_cons in Hin as [Hin|Hin]; [discriminate|]). inversion Hin.
  - apply (Hservice (u "shell") (u "run")); [|reflexivity]. vm_compute. intros Hin.
    repeat (apply elem_of_cons in Hin as [Hin|Hin]; [discriminate|]). inversion Hin.
  - apply (Htool (u "git") (u "push") git_service); [|reflexivity|reflexivity].
    vm_compute. intros Hin.
    repeat (apply elem_of_cons in Hin as [Hin|Hin]; [discriminate|]). inversion Hin.
Defined.

(** X7, witness: a model that passes [tool_name] among the arguments of
    [git_list_merge_requests] gets the interpreter's complaint, not the
    project. *)
Lemma reserved_argument_names_are_refused_witness :
  exists k,
    (k = u "self" \/ k = u "tool_name")
    /\ k ∈ dict_keys [(u "project", VStr (u "ops")); (u "tool_name", VStr (u "x"))]
    /\ execute_tool git_agent (u "git" ++ 95 :: u "list_merge_requests")
         (VDict [(u "project", VStr (u "ops")); (u "tool_name", VStr (u "x"))])
       = error_result (multiple_values (u "tool_name")).
Proof.
  assert (Hm : 95 ∉ u "git").
  { vm_compute. intros Hin.
    repeat (apply elem_of_cons in Hin as [Hin|Hin]; [discriminate|]). inversion Hin. }
  assert (Hin : u "self" ∈ dict_keys [(u "project", VStr (u "ops"));
                                      (u "tool_name", VStr (u "x"))]
                \/ u "tool_name" ∈ dict_keys [(u "project", VStr (u "ops"));
                                              (u "tool_name", VStr (u "x"))]).
  { right. right. left. }
  destruct (reserved_argument_names_are_refused
              git_agent {| services := [(u "git", git_service)] |} git_service
              echo_project (u "git") (u "list_merge_requests")
              (VDict [(u "project", VStr (u "ops")); (u "tool_name", VStr (u "x"))])
              eq_refl Hm eq_refl eq_refl Hin) as (k & Hk & Hkin & Hexec).
  exists k. split; [exact Hk|]. split; [exact Hkin|]. vm_compute. reflexivity.
Defined.

(* ===================================================================== *)
(** ** The three attempts of a request                                    *)
(* ===================================================================== *)

(** The requests among the actions. *)
Definition requested (acts : list action)
  : list (list message * option (list value)) :=
  omap (fun x => match x with Request msgs tools => Some (msgs, tools) | _ => None end)
       acts.

Definition is_request (x : action) : bool :=
  match x with Request _ _ => true | _ => false end.

(** X8: a request is attempted once, twice or three times, each time with
    the same transcript and catalog; it stops at the first attempt that
    gives a stream. The pauses are 2 seconds after the first failure and 4
    after the second, and none after the last attempt; the outcome is the
    first stream, or the failure of the third attempt. *)
Theorem request_attempts w msgs tools k :
  let '(acts, n, r) := request_with_retries w msgs tools [0; 1; 2]%Z k in
  let attempts := (n - k)%nat in
  (1 <= attempts <= 3)%nat
  /\ requested acts = repeat (msgs, tools) attempts
  /\ sleeps acts = take (attempts - 1) [2; 4]%Z
  /\ option_map is_request (last acts) = Some true
  /\ yielded acts = []
  /\ (forall i, (i < attempts - 1)%nat ->
        exists e, backend w (k + i) msgs tools = ReqFail e)
  /\ match r with
     | Some (inr (chunks, broken)) =>
       backend w (k + (attempts - 1)) msgs tools = ReqStream chunks broken
     | Some (inl e) =>
       attempts = 3%nat /\ backend w (k + 2) msgs tools = ReqFail e
     | None => False
     end.
Proof.
  assert (Hlt : forall i, (i < 0)%nat -> exists e, backend w (k + i) msgs tools = ReqFail e)
    by (intros i Hi; lia).
  simpl.
  destruct (backend w k msgs tools) as [e1|c1 b1] eqn:H1.
  - destruct (backend w (S k) msgs tools) as [e2|c2 b2] eqn:H2.
    + assert (Hfail : forall i, (i < 2)%nat ->
                 exists e, backend w (k + i) msgs tools = ReqFail e).
      { intros i Hi. destruct i as [|[|i]]; [| |lia].
        - rewrite Nat.add_0_r. eauto.
        - replace (k + 1)%nat with (S k) by lia. eauto. }
      destruct (backend w (S (S k)) msgs tools) as [e3|c3 b3] eqn:H3; simpl;
        replace (S (S (S k)) - k)%nat with 3%nat by lia; simpl;
        replace (k + 2)%nat with (S (S k)) by lia;
        (split; [lia|]); (split; [reflexivity|]); (split; [reflexivity|]);
        (split; [reflexivity|]); (split; [reflexivity|]); (split; [exact Hfail|]);
        auto.
    + simpl. replace (S (S k) - k)%nat with 2%nat by lia. simpl.
      replace (k + 1)%nat with (S k) by lia.
      split; [lia|]. split; [reflexivity|]. split; [reflexivity|].
      split; [reflexivity|]. split; [reflexivity|]. split; [|exact H2].
      intros i Hi. destruct i as [|i]; [|lia]. rewrite Nat.add_0_r. eauto.
  - simpl. replace (S k - k)%nat with 1%nat by lia. simpl. rewrite Nat.add_0_r.
    split; [lia|]. split; [reflexivity|]. split; [reflexivity|].
    split; [reflexivity|]. split; [reflexivity|]. split; [exact Hlt|exact H1].
Qed.

(* ===================================================================== *)
(** ** The invocation as a whole                                          *)
(* ===================================================================== *)

(** The tools the agent ran, in order. *)
Definition dispatched (acts : list action) : list (pystr * value) :=
  omap (fun x => match x with Dispatch n args => Some (n, args) | _ => None end) acts.

Section Invocation.
Context `{PyUnicode} `{PyJson} `{PyErrors}.

Lemma dispatched_app acts acts' :
  dispatched (acts ++ acts') = dispatched acts ++ dispatched acts'.
Proof. apply omap_app. Qed.

Lemma dispatched_Yield evs : dispatched (map Yield evs) = [].
Proof. induction evs as [|e evs IH]; simpl; [reflexivity|exact IH]. Qed.

Lemma request_with_retries_no_dispatch w msgs tools retries k :
  dispatched (request_with_retries w msgs tools retries k).1.1 = [].
Proof.
  revert k. induction retries as [|retry rest IH]; intros k; simpl; [reflexivity|].
  destruct (backend w k msgs tools); [|reflexivity].
  destruct (retry =? 2)%Z; [reflexivity|].
  specialize (IH (S k)).
  destruct (request_with_retries w msgs tools rest (S k)) as [[acts0 n0] r0].
  exact IH.
Qed.

Lemma filter_none {A} (p : A -> bool) (l : list A) :
  Forall (fun x => p x = false) l -> List.filter p l = [].
Proof.
  induction 1 as [|x l Hx _ IH]; simpl; [reflexivity|]. now rewrite Hx.
Qed.

Lemma text_counts evs :
  Forall (fun e => is_text e = true) evs ->
  List.filter is_tool_call evs = [] /\ List.filter is_tool_result evs = [].
Proof.
  intros Ht. split; apply filter_none; (eapply Forall_impl; [exact Ht|]);
    intros e He; now destruct e.
Qed.

(** The [tool_call] mapping that announces the run of a tool. *)
Definition announcement (x : pystr * value) : event :=
  EToolCall x.1 (redact_sensitive_data x.2 None).

(** Serving [calls]: the [tool_call] mappings are the announcements of the
    tools run, one for one. *)
Lemma served_announced a calls s :
  List.filter is_tool_call (yielded (serve_tool_calls a s calls).1.1)
  = map announcement (dispatched (serve_tool_calls a s calls).1.1).
Proof.
  revert s. induction calls as [|tc calls IH]; intros s; [reflexivity|].
  cbn [serve_tool_calls].
  assert (Hone : List.filter is_tool_call (yielded (serve_tool_call a s tc).1.1)
                 = map announcement (dispatched (serve_tool_call a s tc).1.1)).
  { unfold serve_tool_call. destruct (not_serializable _); [reflexivity|].
    now destruct (_ <? _)%Z. }
  destruct (serve_tool_call a s tc) as [[acts s1] e]. simpl in Hone.
  destruct e as [x|]; [exact Hone|].
  specialize (IH s1). destruct (serve_tool_calls a s1 calls) as [[acts' s2] e'].
  simpl in *.
  now rewrite yielded_app, dispatched_app, List.filter_app, map_app, Hone, IH.
Qed.

(** What holds of the events [pre ++ fin] of a stretch of the generator
    that has done [acts]: [pre] has neither [complete] nor [error], and its
    [tool_call] events are the announcements of the tools run. *)
Definition stretch (acts : list action) (pre : list event) : Prop :=
  Forall (fun e => is_terminal e = false) pre
  /\ List.filter is_tool_call pre = map announcement (dispatched acts).

Lemma stretch_text racts evs :
  dispatched racts = [] ->
  Forall (fun e => is_text e = true) evs ->
  stretch (racts ++ map Yield evs) evs.
Proof.
  intros Hnd Htext. destruct (text_counts evs Htext) as [Hc Hr].
  unfold stretch. rewrite dispatched_app, Hnd, dispatched_Yield, Hc. simpl.
  split; [now apply quiet_text|reflexivity].
Qed.

Lemma stretch_app acts acts' pre pre' :
  stretch acts pre -> stretch acts' pre' -> stretch (acts ++ acts') (pre ++ pre').
Proof.
  intros (Hq & Hd) (Hq' & Hd'). unfold stretch.
  rewrite dispatched_app, List.filter_app, map_app, Hd, Hd'.
  split; [apply Forall_app; now split|reflexivity].
Qed.

Lemma stretch_served a calls s :
  stretch (serve_tool_calls a s calls).1.1 (yielded (serve_tool_calls a s calls).1.1).
Proof. split; [apply quiet_served|apply served_announced]. Qed.

(** One turn: the events are a quiet stretch, closed by one [complete] with
    the statistics of the state when the turn returns, and by nothing
    otherwise. *)
Lemma turn_trace a w tools s :
  exists pre fin,
    yielded (turn a w tools s).1.1 = pre ++ fin
    /\ stretch (turn a w tools s).1.1 pre
    /\ match (turn a w tools s).2 with
       | TurnReturned =>
         exists think say, fin = [EComplete think say (stats (turn a w tools s).1.2)]
       | _ => fin = []
       end.
Proof.
  unfold turn.
  pose proof (request_with_retries_silent w
                (_compress_messages_if_needed (messages s) MAX_HISTORY_TOKENS)
                (offered tools) [0; 1; 2]%Z (requests s)) as Hsilent.
  pose proof (request_with_retries_no_dispatch w
                (_compress_messages_if_needed (messages s) MAX_HISTORY_TOKENS)
                (offered tools) [0; 1; 2]%Z (requests s)) as Hnd.
  destruct (request_with_retries _ _ _ _ _) as [[racts n] r]. simpl in Hsilent, Hnd.
  assert (Hnone : stretch racts []).
  { unfold stretch. rewrite Hnd. simpl. split; [constructor|reflexivity]. }
  destruct r as [[e|[chunks broken]]|].
  - exists [], []. simpl. rewrite Hsilent. now split.
  - pose proof (read_stream_text chunks fresh_turn) as Htext.
    destruct (read_stream fresh_turn chunks) as [ts evs]. simpl in Htext.
    destruct broken as [e|].
    + exists evs, []. simpl. rewrite yielded_app, yielded_Yield, Hsilent, app_nil_r.
      split; [reflexivity|]. split; [now apply stretch_text|reflexivity].
    + destruct (has_tool_calls ts && _).
      * match goal with
        | |- context [serve_tool_calls a ?s0 ?c] =>
          pose proof (stretch_served a c s0) as Hserved;
            destruct (serve_tool_calls a s0 c) as [[acts' s2] e]
        end.
        simpl in *. exists (evs ++ yielded acts'), [].
        rewrite !yielded_app, yielded_Yield, Hsilent, app_nil_r. simpl.
        split; [reflexivity|]. split; [|now destruct e].
        rewrite app_assoc. eapply stretch_app; [|exact Hserved].
        now apply stretch_text.
      * eexists evs, [_]. simpl.
        rewrite !yielded_app, yielded_Yield, Hsilent. simpl.
        split; [reflexivity|]. split; [|eexists _, _; reflexivity].
        assert (Hs : stretch (racts ++ map Yield evs) evs) by now apply stretch_text.
        destruct Hs as (Hq & Hd). unfold stretch.
        rewrite app_assoc, dispatched_app. simpl. rewrite app_nil_r.
        split; [exact Hq|exact Hd].
  - exists [], []. simpl. rewrite Hsilent. now split.
Qed.

Lemma loop_trace a w tools fuel s :
  exists pre fin,
    yielded (loop a w tools fuel s).1.1 = pre ++ fin
    /\ stretch (loop a w tools fuel s).1.1 pre
    /\ match (loop a w tools fuel s).2 with
       | LoopReturned =>
         exists think say,
           fin = [EComplete think say (stats (loop a w tools fuel s).1.2)]
       | _ => fin = []
       end.
Proof.
  revert s. induction fuel as [|fuel IH]; intros s; simpl.
  - exists [], []. split; [reflexivity|]. split; [|reflexivity].
    unfold stretch. simpl. split; [constructor|reflexivity].
  - destruct (turn_trace a w tools s) as (pre & fin & Hy & Hs & Hfin).
    destruct (turn a w tools s) as [[acts s1] e]. simpl in *. destruct e as [| |x].
    + exists pre, fin. simpl. now split.
    + destruct (IH s1) as (pre' & fin' & Hy' & Hs' & Hfin').
      destruct (loop a w tools fuel s1) as [[acts' s2] e']. simpl in *.
      subst fin. rewrite app_nil_r in Hy. exists (pre ++ pre'), fin'.
      rewrite yielded_app, Hy, Hy', app_assoc. split; [reflexivity|].
      split; [|exact Hfin']. eapply stretch_app; eassumption.
    + exists pre, fin. simpl. now split.
Qed.

(** The summary request runs no tool and ends with one [complete], which
    carries the statistics of the final state. *)
Lemma forced_summary_trace w s :
  exists says think say,
    yielded (forced_summary w s).1
    = map ESay says ++ [EComplete think say (stats (forced_summary w s).2)]
    /\ dispatched (forced_summary w s).1 = [].
Proof.
  unfold forced_summary.
  destruct (backend w (requests s) _ None) as [e|chunks broken].
  - exists [], [], FALLBACK. now split.
  - assert (Hsays : forall tail,
               yielded (map (fun c => Yield (ESay c)) (contents chunks) ++ tail)
               = map ESay (contents chunks) ++ yielded tail).
    { intros tail. rewrite yielded_app. f_equal.
      induction (contents chunks) as [|c cs IH]; simpl; [reflexivity|]. now f_equal. }
    assert (Hnd : forall tail,
               dispatched (map (fun c => Yield (ESay c)) (contents chunks) ++ tail)
               = dispatched tail).
    { intros tail. rewrite dispatched_app.
      assert (Hl : forall l : list pystr,
                 dispatched (map (fun c => Yield (ESay c)) l) = []).
      { intros l. induction l as [|c cs IH]; simpl; [reflexivity|exact IH]. }
      now rewrite Hl. }
    destruct broken as [e|]; simpl; rewrite Hsays, Hnd; simpl;
      eexists (contents chunks), _, _; split; reflexivity.
Qed.

Lemma says_stretch says : stretch [] (map ESay says).
Proof.
  assert (Ht : Forall (fun e => is_text e = true) (map ESay says)).
  { induction says; constructor; auto. }
  destruct (text_counts _ Ht) as [Hc Hr]. unfold stretch. rewrite Hc. simpl.
  split; [apply says_quiet|reflexivity].
Qed.

(** The generator: a quiet stretch; when it raises, nothing more; when it
    returns, one [complete] with the final statistics, or nothing at all,
    and then the catalog is empty. *)
Lemma generator_trace a w prompt :
  exists pre fin,
    yielded (_stream_chat_with_tools a w prompt).1.1 = pre ++ fin
    /\ Forall (fun e => is_terminal e = false) pre
    /\ List.filter is_tool_call pre
       = map announcement (dispatched (_stream_chat_with_tools a w prompt).1.1)
    /\ match (_stream_chat_with_tools a w prompt).2 with
       | Raised _ => fin = []
       | Returned =>
         (fin = [] /\ get_tools a = [])
         \/ exists think say,
              fin = [EComplete think say
                       (stats (_stream_chat_with_tools a w prompt).1.2)]
       end.
Proof.
  unfold _stream_chat_with_tools.
  destruct (loop_trace a w (get_tools a) (Z.to_nat (max_iterations a))
              (initial_state a w prompt)) as (pre & fin & Hy & Hs & Hfin).
  destruct (loop a w (get_tools a) (Z.to_nat (max_iterations a))
              (initial_state a w prompt)) as [[acts s] e].
  simpl in Hy, Hs, Hfin. destruct e as [|x|].
  - exists pre, fin. simpl. destruct Hs as (Hq & Hd).
    split; [exact Hy|]. split; [exact Hq|]. split; [exact Hd|]. now right.
  - exists pre, fin. simpl. destruct Hs as (Hq & Hd).
    split; [exact Hy|]. split; [exact Hq|]. now split.
  - subst fin. rewrite app_nil_r in Hy. destruct (get_tools a) as [|t ts] eqn:Htools.
    + exists pre, []. simpl. destruct Hs as (Hq & Hd). rewrite app_nil_r.
      split; [exact Hy|]. split; [exact Hq|]. split; [exact Hd|]. now left.
    + destruct (forced_summary_trace w s) as (says & think & say & Hsum & Hnd).
      destruct (forced_summary w s) as [acts' s']. simpl in *.
      assert (Hall : stretch (acts ++ acts') (pre ++ map ESay says)).
      { eapply stretch_app; [exact Hs|].
        pose proof (says_stretch says) as (Hq & Hd).
        unfold stretch. rewrite Hnd. now split. }
      destruct Hall as (Hq & Hd).
      exists (pre ++ map ESay says), [EComplete think say (stats s')].
      rewrite yielded_app, Hy, Hsum, app_assoc.
      split; [reflexivity|]. split; [exact Hq|]. split; [exact Hd|].
      right. now exists think, say.
Qed.

Lemma unyielded_app acts acts' :
  unyielded (acts ++ acts') = unyielded acts ++ unyielded acts'.
Proof. apply List.filter_app. Qed.

Lemma unyielded_twice acts : unyielded (unyielded acts) = unyielded acts.
Proof.
  unfold unyielded. induction acts as [|x acts IH]; simpl; [reflexivity|].
  destruct x; simpl; now rewrite ?IH.
Qed.

(** X9: what a streaming caller receives ends at most once, and at the
    very end: it is a run of mappings that are neither [complete] nor
    [error], followed by exactly one mapping that is one of the two; or by
    nothing, which only happens to an agent whose tool catalog is empty. *)
Theorem stream_ends_once_at_the_end a w prompt :
  exists pre,
    Forall (fun e => is_terminal e = false) pre
    /\ ((yielded (chat a w prompt true) = pre /\ get_tools a = [])
        \/ exists e, is_terminal e = true
                     /\ yielded (chat a w prompt true) = pre ++ [e]).
Proof.
  unfold chat.
  destruct (generator_trace a w prompt) as (pre & fin & Hy & Hq & _ & Hfin).
  destruct (_stream_chat_with_tools a w prompt) as [[acts s] e]. simpl in *.
  exists pre. split; [exact Hq|]. rewrite yielded_app, Hy. destruct e as [|x].
  - simpl. rewrite app_nil_r. destruct Hfin as [[-> Htools]|(think & say & ->)].
    + left. now rewrite app_nil_r.
    + right. now eexists.
  - subst fin. rewrite app_nil_r. right. now eexists.
Qed.

(** X10: a caller that does not stream receives exactly one mapping, a
    [complete] or an [error], also where the streaming caller receives
    neither; it is an [error] exactly when the stream ends in one. In both
    modes the agent sends the same requests, pauses the same and runs the
    same tools. *)
Theorem sync_yields_one_mapping a w prompt :
  unyielded (chat a w prompt false) = unyielded (chat a w prompt true)
  /\ exists e,
       yielded (chat a w prompt false) = [e]
       /\ is_terminal e = true
       /\ (is_error e = true
           <-> last (yielded (chat a w prompt true)) = Some e).
Proof.
  unfold chat.
  destruct (generator_trace a w prompt) as (pre & fin & Hy & Hq & _ & Hfin).
  destruct (_stream_chat_with_tools a w prompt) as [[acts s] e]. simpl in *.
  split.
  - rewrite !unyielded_app, unyielded_twice. f_equal. now destruct e.
  - rewrite !yielded_app, yielded_unyielded, Hy. destruct e as [|x]; simpl.
    + eexists. split; [reflexivity|].
      unfold _sync_chat_with_tools. destruct (fold_left collect _ _) as [[think say] calls].
      split; [reflexivity|]. simpl. split; [discriminate|].
      rewrite app_nil_r. intros Hlast.
      destruct Hfin as [[-> _]|(t & sy & ->)].
      * rewrite app_nil_r in Hlast. apply last_Some in Hlast as [l' ->].
        apply Forall_app in Hq as [_ Hq]. inversion Hq as [|? ? He]. discriminate.
      * rewrite last_snoc in Hlast. discriminate.
    + subst fin. rewrite app_nil_r. eexists. split; [reflexivity|]. split; [reflexivity|].
      split; [intros _; apply last_snoc|reflexivity].
Qed.

End Invocation.

(* ===================================================================== *)
(** ** The text of a response                                             *)
(* ===================================================================== *)

(** The texts of the [say] events. *)
Definition says (evs : list event) : list pystr :=
  omap (fun e => match e with ESay c => Some c | _ => None end) evs.

Section ResponseText.
Context `{PyUnicode} `{PyJson} `{PyErrors}.

Lemma says_app evs evs' : says (evs ++ evs') = says evs ++ says evs'.
Proof. apply omap_app. Qed.

Lemma classify_accounts st c :
  say_content (classify st c).1 = say_content st ++ concat (says (classify st c).2)
  /\ collected_content (classify st c).1 = collected_content st ++ c.
Proof.
  unfold classify. repeat case_match; simpl; rewrite ?app_nil_r; now split.
Qed.

Lemma read_chunk_accounts st c :
  say_content (read_chunk st c).1 = say_content st ++ concat (says (read_chunk st c).2)
  /\ collected_content (read_chunk st c).1
     = collected_content st ++ concat (contents [c])
  /\ (length (read_chunk st c).2 <= length (contents [c]))%nat.
Proof.
  unfold read_chunk. destruct c as [d|].
  - set (st1 := match fragments (Some d) with [] => _ | _ :: _ => _ end).
    assert (Hst1 : say_content st1 = say_content st
                   /\ collected_content st1 = collected_content st).
    { unfold st1. now destruct (fragments (Some d)). }
    destruct Hst1 as [Hs1 Hc1]. unfold contents. simpl.
    destruct (truthy (delta_content d)) as [c0|]; simpl.
    + destruct (classify_accounts st1 c0) as [Hs Hc]. rewrite Hs, Hc, Hs1, Hc1, app_nil_r.
      split; [reflexivity|]. split; [reflexivity|].
      unfold classify. repeat case_match; simpl; lia.
    + rewrite Hs1, Hc1, !app_nil_r. auto.
  - simpl. rewrite !app_nil_r. auto.
Qed.

Lemma contents_cons c chunks : contents (c :: chunks) = contents [c] ++ contents chunks.
Proof. unfold contents. simpl. now destruct (match c with Some d => _ | None => _ end). Qed.

Lemma read_stream_accounts chunks st :
  say_content (read_stream st chunks).1
  = say_content st ++ concat (says (read_stream st chunks).2)
  /\ collected_content (read_stream st chunks).1
     = collected_content st ++ concat (contents chunks)
  /\ (length (read_stream st chunks).2 <= length (contents chunks))%nat.
Proof.
  revert st. induction chunks as [|c chunks IH]; intros st.
  - simpl. rewrite !app_nil_r. split; auto.
  - cbn [read_stream]. destruct (read_chunk_accounts st c) as (Hs & Hc & Hl).
    destruct (read_chunk st c) as [st1 evs]. destruct (IH st1) as (IHs & IHc & IHl).
    destruct (read_stream st1 chunks) as [st2 evs']. cbn [fst snd] in *.
    rewrite IHs, IHc, Hs, Hc, says_app, (contents_cons c chunks), !concat_app, length_app.
    rewrite length_app, <- !app_assoc. split; [reflexivity|]. split; [reflexivity|lia].
Qed.

(** Serving at least one call, when nothing is raised, ends with the
    answer to the last. *)
Lemma served_ends_with_result a calls s :
  calls <> [] ->
  (serve_tool_calls a s calls).2 = None ->
  exists pre name result,
    yielded (serve_tool_calls a s calls).1.1 = pre ++ [EToolResult name result].
Proof.
  revert s. induction calls as [|tc calls IH]; intros s Hne; [contradiction|].
  cbn [serve_tool_calls].
  destruct (serve_tool_call_spec a s tc) as (_ & Hone).
  destruct (not_serializable (result_of a tc)) as [t|].
  - destruct Hone as (_ & _ & Hraised).
    destruct (serve_tool_call a s tc) as [[acts s1] e]. simpl in *. subst e.
    discriminate.
  - destruct Hone as (info & Hevs & _ & _ & Hnone).
    destruct (serve_tool_call a s tc) as [[acts s1] e]. simpl in *. subst e.
    destruct calls as [|tc' calls'].
    + simpl. intros _. rewrite app_nil_r, Hevs. unfold answer.
      destruct (_ <? _)%Z; eexists (announce tc :: info), _, _; reflexivity.
    + specialize (IH s1).
      destruct (serve_tool_calls a s1 (tc' :: calls')) as [[acts' s2] e']. simpl in *.
      intros ->. destruct IH as (pre & name & result & Hy); [discriminate|reflexivity|].
      exists (yielded acts ++ pre), name, result.
      now rewrite yielded_app, Hy, app_assoc.
Qed.

(** How the events of a turn end: a turn that returns has streamed text
    only, and its [complete] says what its [say] events said; a turn that
    goes on ends with a [tool_result]. *)
Lemma turn_ends a w tools s :
  match (turn a w tools s).2 with
  | TurnReturned =>
    exists evs think st,
      yielded (turn a w tools s).1.1 = evs ++ [EComplete think (concat (says evs)) st]
      /\ Forall (fun e => is_text e = true) evs
  | TurnContinues =>
    exists pre name result,
      yielded (turn a w tools s).1.1 = pre ++ [EToolResult name result]
  | TurnRaised _ => True
  end.
Proof.
  unfold turn.
  pose proof (request_with_retries_silent w
                (_compress_messages_if_needed (messages s) MAX_HISTORY_TOKENS)
                (offered tools) [0; 1; 2]%Z (requests s)) as Hsilent.
  destruct (request_with_retries _ _ _ _ _) as [[racts n] r]. simpl in Hsilent.
  destruct r as [[e|[chunks broken]]|]; [exact I| |exact I].
  pose proof (read_stream_text chunks fresh_turn) as Htext.
  destruct (read_stream_accounts chunks fresh_turn) as (Hsay & _ & _).
  destruct (read_stream fresh_turn chunks) as [ts evs]. simpl in Htext, Hsay.
  destruct broken as [e|]; [exact I|].
  destruct (has_tool_calls ts && _) eqn:Hcalls.
  - apply andb_prop in Hcalls as [_ Hne]. apply negb_true_iff in Hne.
    apply bool_decide_eq_false in Hne.
    assert (Hlist : tool_calls_list (collected_tool_calls ts) <> []).
    { intros Hnil. apply (f_equal length) in Hnil.
      rewrite length_tool_calls_list in Hnil. simpl in Hnil.
      apply size_empty_iff in Hnil. apply Hne. apply dom_empty_iff_L.
      now apply leibniz_equiv. }
    match goal with
    | |- context [serve_tool_calls a ?s0 ?c] =>
      pose proof (served_ends_with_result a c s0 Hlist) as Hends;
        destruct (serve_tool_calls a s0 c) as [[acts' s2] e']
    end.
    simpl in *. destruct e' as [x|]; [exact I|].
    destruct (Hends eq_refl) as (pre & name & result & Hy).
    exists (evs ++ pre), name, result.
    rewrite !yielded_app, yielded_Yield, Hsilent, Hy. simpl. now rewrite app_assoc.
  - simpl. rewrite !yielded_app, yielded_Yield, Hsilent. simpl.
    eexists evs, _, _. rewrite Hsay. split; [reflexivity|exact Htext].
Qed.

(** X12: when the loop ends with an answer, the [say] of the [complete]
    mapping is the concatenation of the [say] mappings streamed since the
    last [tool_result] (of all of them when no tool was called): what was
    said in earlier turns, before tool calls, is not part of it. Between
    that [tool_result] and the [complete] only [think] and [say] mappings
    are streamed. *)
Theorem complete_says_the_last_turn a w prompt acts s :
  loop a w (get_tools a) (Z.to_nat (max_iterations a)) (initial_state a w prompt)
  = (acts, s, LoopReturned) ->
  exists pre evs think st,
    yielded (chat a w prompt true)
    = pre ++ evs ++ [EComplete think (concat (says evs)) st]
    /\ Forall (fun e => is_text e = true) evs
    /\ (pre = [] \/ exists pre' name result, pre = pre' ++ [EToolResult name result]).
Proof.
  intros Hloop.
  assert (Hchat : chat a w prompt true = acts).
  { unfold chat, _stream_chat_with_tools. rewrite Hloop. apply app_nil_r. }
  rewrite Hchat. clear Hchat. revert acts Hloop.
  generalize (initial_state a w prompt) as s0.
  generalize (Z.to_nat (max_iterations a)) as fuel.
  induction fuel as [|fuel IH]; intros s0 acts; simpl; [discriminate|].
  pose proof (turn_ends a w (get_tools a) s0) as Hend.
  destruct (turn a w (get_tools a) s0) as [[acts1 s1] e]. simpl in Hend.
  destruct e as [| |x]; [| |discriminate].
  - intros [= <- <-]. destruct Hend as (evs & think & st & Hy & Htext).
    exists [], evs, think, st. split; [exact Hy|]. split; [exact Htext|now left].
  - destruct (loop a w (get_tools a) fuel s1) as [[acts' s2] e'] eqn:Hrest.
    intros [= <- <- ->].
    destruct (IH s1 acts' Hrest) as (pre & evs & think & st & Hy & Htext & Hpre).
    destruct Hend as (pre1 & name & result & Hy1).
    exists (yielded acts1 ++ pre), evs, think, st.
    rewrite yielded_app, Hy, <- app_assoc. split; [reflexivity|]. split; [exact Htext|].
    right. destruct Hpre as [->|(pre' & name' & result' & ->)].
    + rewrite app_nil_r, Hy1. now eexists _, _, _.
    + exists (yielded acts1 ++ pre'), name', result'. now rewrite app_assoc.
Qed.

(** X13: a response none of whose texts carries an opening or a closing
    thinking marker is passed on as it arrives: one [say] mapping for each
    text that is not empty, in order and unchanged, and no [think] mapping;
    the thinking text stays empty and the answer text is the whole
    response. *)
Theorem plain_response_is_said_verbatim chunks :
  Forall (fun c => str_in THINK_OPEN c = false /\ str_in THINK_CLOSE c = false)
    (contents chunks) ->
  (read_stream fresh_turn chunks).2 = map ESay (contents chunks)
  /\ thinking_content (read_stream fresh_turn chunks).1 = []
  /\ say_content (read_stream fresh_turn chunks).1 = concat (contents chunks)
  /\ collected_content (read_stream fresh_turn chunks).1 = concat (contents chunks).
Proof.
  intros Hplain.
  assert (Hgen : forall st,
             in_thinking st = false ->
             (read_stream st chunks).2 = map ESay (contents chunks)
             /\ thinking_content (read_stream st chunks).1 = thinking_content st).
  { induction chunks as [|c chunks IH]; intros st Hst; [now split|].
    rewrite contents_cons in Hplain. apply Forall_app in Hplain as [Hc Hplain].
    cbn [read_stream].
    assert (Hone : (read_chunk st c).2 = map ESay (contents [c])
                   /\ thinking_content (read_chunk st c).1 = thinking_content st
                   /\ in_thinking (read_chunk st c).1 = false).
    { unfold read_chunk. destruct c as [d|]; [|now split].
      set (st1 := match fragments (Some d) with [] => _ | _ :: _ => _ end).
      assert (Hst1 : in_thinking st1 = false
                     /\ thinking_content st1 = thinking_content st).
      { unfold st1. now destruct (fragments (Some d)). }
      destruct Hst1 as [Hin1 Hth1]. unfold contents in *. simpl in Hc |- *.
      destruct (truthy (delta_content d)) as [c0|]; simpl in Hc |- *; [|now split].
      destruct (List.Forall_inv Hc) as [Hopen Hclose].
      unfold classify. rewrite Hopen, Hclose, Hin1. simpl. now split. }
    destruct (read_chunk st c) as [st1 evs]. cbn [fst snd] in Hone.
    destruct Hone as (Hevs & Hthink & Hin).
    destruct (IH Hplain st1 Hin) as [IHevs IHthink].
    destruct (read_stream st1 chunks) as [st2 evs']. cbn [fst snd] in *.
    rewrite (contents_cons c chunks), map_app, Hevs, IHevs, IHthink, Hthink.
    now split. }
  destruct (Hgen fresh_turn eq_refl) as [Hevs Hthink].
  destruct (read_stream_accounts chunks fresh_turn) as (Hsay & Hcollected & _).
  split; [exact Hevs|]. split; [exact Hthink|]. split; [|exact Hcollected].
  assert (Hs : forall l, says (map ESay l) = l).
  { intros l. induction l as [|c cs IHc]; simpl; [reflexivity|]. now f_equal. }
  now rewrite Hsay, Hevs, Hs.
Qed.

End ResponseText.

(** A chunk that carries text only. *)
Definition text_chunk (s : string) : chunk :=
  Some {| delta_tool_calls := None; delta_content := Some (u s) |}.

(** A backend that answers every request with two pieces of text, with an
    empty chunk between them. *)
Definition hello_world : World :=
  {| backend _ _ _ := ReqStream [text_chunk "Hel"; None; text_chunk "lo"] None;
     knowledge _ := None |}.

(** X12, witness: an answer in the first turn; both pieces are streamed and
    the [complete] says both. *)
Lemma complete_says_the_last_turn_witness :
  yielded (chat git_agent hello_world (u "hi") true)
  = [ESay (u "Hel"); ESay (u "lo");
     EComplete [] (u "Hello")
       (stats (loop git_agent hello_world (get_tools git_agent)
                 (Z.to_nat (max_iterations git_agent))
                 (initial_state git_agent hello_world (u "hi"))).1.2)]
  /\ exists pre evs think st,
       yielded (chat git_agent hello_world (u "hi") true)
       = pre ++ evs ++ [EComplete think (concat (says evs)) st]
       /\ Forall (fun e => is_text e = true) evs
       /\ (pre = [] \/ exists pre' name result, pre = pre' ++ [EToolResult name result]).
Proof.
  pose (l := loop git_agent hello_world (get_tools git_agent)
               (Z.to_nat (max_iterations git_agent))
               (initial_state git_agent hello_world (u "hi"))).
  assert (Hloop : l = (l.1.1, l.1.2, LoopReturned)) by (vm_compute; reflexivity).
  split; [vm_compute; reflexivity|].
  exact (complete_says_the_last_turn git_agent hello_world (u "hi") l.1.1 l.1.2 Hloop).
Defined.

(** X13, witness: the same response. *)
Lemma plain_response_is_said_verbatim_witness :
  (read_stream fresh_turn [text_chunk "Hel"; None; text_chunk "lo"]).2
  = [ESay (u "Hel"); ESay (u "lo")]
  /\ say_content (read_stream fresh_turn [text_chunk "Hel"; None; text_chunk "lo"]).1
     = u "Hello".
Proof.
  destruct (plain_response_is_said_verbatim [text_chunk "Hel"; None; text_chunk "lo"])
    as (Hevs & _ & Hsay & _).
  - repeat constructor.
  - split; [exact Hevs|exact Hsay].
Defined.

(* ===================================================================== *)
(** ** The result of a call that does not stream                          *)
(* ===================================================================== *)






Section SyncResult.
Context `{PyUnicode} `{PyJson} `{PyErrors}.
















End SyncResult.

(** A response that asks twice for the same tool, for two projects. *)
Definition same_tool_twice : list chunk :=
  [Some {| delta_tool_calls :=
             Some [{| frag_index := 0; frag_id := Some (u "call_a");
                      frag_function :=
                        Some {| fn_name := Some (u "git_list_merge_requests");
                                fn_arguments :=
                                  Some (u "{" ++ quoted "project" ++ u ": "
                                        ++ quoted "ops" ++ u "}") |} |};
                   {| frag_index := 1; frag_id := Some (u "call_b");
                      frag_function :=
                        Some {| fn_name := Some (u "git_list_merge_requests");
                                fn_arguments :=
                                  Some (u "{" ++ quoted "project" ++ u ": "
                                        ++ quoted "web" ++ u "}") |} |}];
           delta_content := None |}].

(** The backend asks for the two calls first and answers then. *)
Definition twice_world : World :=
  {| backend n _ _ :=
       match n with
       | O => ReqStream same_tool_twice None
       | S _ => ReqStream [text_chunk "done"] None
       end;
     knowledge _ := None |}.




(* ===================================================================== *)
(** ** The requests of an invocation                                      *)
(* ===================================================================== *)

Section Requests.
Context `{PyUnicode} `{PyJson} `{PyErrors}.

(** The transcript still starts with the messages [init]. *)
Definition keeps_head (init msgs : list message) : Prop :=
  exists rest, msgs = init ++ rest.

Lemma requested_app acts acts' :
  requested (acts ++ acts') = requested acts ++ requested acts'.
Proof. apply omap_app. Qed.

Lemma sleeps_app acts acts' : sleeps (acts ++ acts') = sleeps acts ++ sleeps acts'.
Proof. apply omap_app. Qed.

Lemma requested_Yield evs : requested (map Yield evs) = [] /\ sleeps (map Yield evs) = [].
Proof. induction evs as [|e evs [IHr IHs]]; simpl; now split. Qed.

Lemma requested_unyielded acts :
  requested (unyielded acts) = requested acts /\ sleeps (unyielded acts) = sleeps acts.
Proof.
  induction acts as [|x acts [IHr IHs]]; [now split|].
  destruct x; simpl; rewrite ?IHr, ?IHs; now split.
Qed.

Lemma served_requests a calls s :
  requested (serve_tool_calls a s calls).1.1 = []
  /\ sleeps (serve_tool_calls a s calls).1.1 = [].
Proof.
  revert s. induction calls as [|tc calls IH]; intros s; [now split|].
  cbn [serve_tool_calls].
  assert (Hone : requested (serve_tool_call a s tc).1.1 = []
                 /\ sleeps (serve_tool_call a s tc).1.1 = []).
  { unfold serve_tool_call. destruct (not_serializable _); [now split|].
    now destruct (_ <? _)%Z. }
  destruct (serve_tool_call a s tc) as [[acts s1] e]. simpl in Hone.
  destruct e as [x|]; [exact Hone|]. destruct (IH s1) as [IHr IHs].
  destruct (serve_tool_calls a s1 calls) as [[acts' s2] e']. simpl in *.
  destruct Hone as [Hr Hs]. now rewrite requested_app, sleeps_app, Hr, Hs, IHr, IHs.
Qed.

(** The attempts of one request: at most three, all alike, with fewer
    pauses than attempts, each of 2 or 4 seconds. *)
Lemma attempts_shape w msgs tools k :
  let acts := (request_with_retries w msgs tools [0; 1; 2]%Z k).1.1 in
  Forall (fun r => r = (msgs, tools)) (requested acts)
  /\ (length (requested acts) <= 3)%nat
  /\ Forall (fun d => d = 2%Z \/ d = 4%Z) (sleeps acts)
  /\ (length (sleeps acts) <= 2)%nat.
Proof.
  assert (Hdone : forall (reqs : list (list message * option (list value))) ds,
             Forall (fun r => r = (msgs, tools)) reqs -> (length reqs <= 3)%nat ->
             Forall (fun d => d = 2%Z \/ d = 4%Z) ds -> (length ds <= 2)%nat ->
             Forall (fun r => r = (msgs, tools)) reqs
             /\ (length reqs <= 3)%nat
             /\ Forall (fun d => d = 2%Z \/ d = 4%Z) ds
             /\ (length ds <= 2)%nat) by (intros; now repeat split).
  simpl. destruct (backend w k msgs tools).
  - destruct (backend w (S k) msgs tools).
    + destruct (backend w (S (S k)) msgs tools); simpl; apply Hdone; simpl; try lia;
        repeat (apply List.Forall_cons; [auto|]); apply List.Forall_nil.
    + simpl; apply Hdone; simpl; try lia;
        repeat (apply List.Forall_cons; [auto|]); apply List.Forall_nil.
  - simpl; apply Hdone; simpl; try lia;
      repeat (apply List.Forall_cons; [auto|]); apply List.Forall_nil.
Qed.

(** Compression leaves a head of messages that are not tool messages as it
    is. *)
Lemma compress_keeps_head init msgs max_tokens :
  Forall (fun m => str_eqb (role m) (u "tool") = false) init ->
  keeps_head init msgs ->
  keeps_head init (_compress_messages_if_needed msgs max_tokens).
Proof.
  intros Hinit [rest ->]. unfold _compress_messages_if_needed.
  destruct (_ <=? _)%Z; [now exists rest|].
  exists (map compress_message rest). rewrite map_app. f_equal.
  induction Hinit as [|m init Hm _ IH]; simpl; [reflexivity|].
  rewrite IH. f_equal. unfold compress_message. now rewrite Hm.
Qed.

Lemma keeps_head_app init msgs more :
  keeps_head init msgs -> keeps_head init (msgs ++ more).
Proof. intros [rest ->]. exists (rest ++ more). now rewrite app_assoc. Qed.

(** What one stretch of the generator asks of the backend: requests that
    start with [init] and offer [tools], at most [bound] of them, and pauses
    of 2 or 4 seconds, at most two for every three requests allowed. *)
Definition asks (init : list message) (tools : option (list value))
    (bound : nat) (acts : list action) : Prop :=
  Forall (fun r => keeps_head init r.1 /\ (r.2 = tools \/ r.2 = None)) (requested acts)
  /\ (length (requested acts) <= 3 * bound)%nat
  /\ Forall (fun d => d = 2%Z \/ d = 4%Z) (sleeps acts)
  /\ (length (sleeps acts) <= 2 * bound)%nat.

Lemma asks_app init tools b b' acts acts' :
  asks init tools b acts -> asks init tools b' acts' ->
  asks init tools (b + b') (acts ++ acts').
Proof.
  intros (Hr & Hn & Hs & Hm) (Hr' & Hn' & Hs' & Hm'). unfold asks.
  rewrite requested_app, sleeps_app, !length_app.
  split; [apply Forall_app; now split|]. split; [lia|].
  split; [apply Forall_app; now split|lia].
Qed.

Lemma turn_asks a w tools s init :
  Forall (fun m => str_eqb (role m) (u "tool") = false) init ->
  keeps_head init (messages s) ->
  asks init (offered tools) 1 (turn a w tools s).1.1
  /\ keeps_head init (messages (turn a w tools s).1.2).
Proof.
  intros Hinit Hhead.
  pose proof (compress_keeps_head init (messages s) MAX_HISTORY_TOKENS Hinit Hhead)
    as Hmsgs.
  unfold turn.
  pose proof (attempts_shape w
                (_compress_messages_if_needed (messages s) MAX_HISTORY_TOKENS)
                (offered tools) (requests s)) as Hshape.
  destruct (request_with_retries _ _ _ _ _) as [[racts n] r].
  cbv zeta in Hshape. cbn [fst snd] in Hshape.
  destruct Hshape as (Hr & Hn & Hs & Hm).
  assert (Hasks : asks init (offered tools) 1 racts).
  { unfold asks. split; [|split; [lia|split; [exact Hs|lia]]].
    eapply Forall_impl; [exact Hr|]. intros x ->. simpl. split; [exact Hmsgs|now left]. }
  assert (Hquiet : forall evs acts,
             requested acts = [] -> sleeps acts = [] ->
             asks init (offered tools) 1 (racts ++ map Yield evs ++ acts)).
  { intros evs acts Hra Hsa. destruct (requested_Yield evs) as [Hry Hsy].
    destruct Hasks as (Hr1 & Hn1 & Hs1 & Hm1). unfold asks.
    rewrite !requested_app, !sleeps_app, Hry, Hsy, Hra, Hsa. simpl.
    rewrite !app_nil_r. now split. }
  destruct r as [[e|[chunks broken]]|].
  - simpl. now split.
  - destruct (read_stream fresh_turn chunks) as [ts evs].
    destruct broken as [e|].
    + simpl. split; [|exact Hmsgs].
      specialize (Hquiet evs [] eq_refl eq_refl). now rewrite app_nil_r in Hquiet.
    + destruct (has_tool_calls ts && _).
      * match goal with
        | |- context [serve_tool_calls a ?s0 ?c] =>
          destruct (served_requests a c s0) as [Hra Hsa];
            destruct (serve_tool_calls_spec a c s0) as (_ & _ & Hmsgs' & _);
            destruct (serve_tool_calls a s0 c) as [[acts' s2] e']
        end.
        simpl in *. split; [now apply Hquiet|].
        rewrite Hmsgs'. now apply keeps_head_app, keeps_head_app.
      * simpl. split; [now apply Hquiet|exact Hmsgs].
  - simpl. now split.
Qed.

Lemma loop_asks a w tools fuel s init :
  Forall (fun m => str_eqb (role m) (u "tool") = false) init ->
  keeps_head init (messages s) ->
  asks init (offered tools) fuel (loop a w tools fuel s).1.1
  /\ keeps_head init (messages (loop a w tools fuel s).1.2).
Proof.
  intros Hinit. revert s. induction fuel as [|fuel IH]; intros s Hhead; simpl.
  - split; [|exact Hhead]. unfold asks. simpl. repeat split; auto.
  - destruct (turn_asks a w tools s init Hinit Hhead) as [Hasks Hhead1].
    destruct (turn a w tools s) as [[acts s1] e]. simpl in Hasks, Hhead1.
    assert (Hmore : asks init (offered tools) (S fuel) acts).
    { destruct Hasks as (Hr & Hn & Hs & Hm). unfold asks. repeat split; auto; lia. }
    destruct e as [| |x]; [now split| |now split].
    destruct (IH s1 Hhead1) as [Hasks' Hhead2].
    destruct (loop a w tools fuel s1) as [[acts' s2] e']. simpl in *.
    split; [|exact Hhead2]. change (S fuel) with (1 + fuel)%nat.
    now apply asks_app.
Qed.

(** X15: every request of an invocation, in either mode, carries a
    transcript that starts with the same two messages, the system prompt
    and the user's prompt, unchanged by compression; and it offers the
    whole catalog, or no tools. *)
Theorem requests_start_with_the_prompts a w prompt stream :
  map role (messages (initial_state a w prompt)) = [u "system"; u "user"]
  /\ Forall (fun r => (exists rest, r.1 = messages (initial_state a w prompt) ++ rest)
                      /\ (r.2 = Some (get_tools a) \/ r.2 = None))
       (requested (chat a w prompt stream)).
Proof.
  split; [reflexivity|].
  set (init := messages (initial_state a w prompt)).
  assert (Hinit : Forall (fun m => str_eqb (role m) (u "tool") = false) init).
  { unfold init, initial_state. simpl. repeat constructor. }
  assert (Hoffer : forall t : option (list value),
             t = offered (get_tools a) \/ t = None ->
             t = Some (get_tools a) \/ t = None).
  { intros t [->| ->]; [|now right]. destruct (get_tools a); [now right|now left]. }
  assert (Hgen : asks init (offered (get_tools a)) (Z.to_nat (max_iterations a) + 1)
                   (_stream_chat_with_tools a w prompt).1.1).
  { unfold _stream_chat_with_tools.
    destruct (loop_asks a w (get_tools a) (Z.to_nat (max_iterations a))
                (initial_state a w prompt) init Hinit) as [Hasks Hhead];
      [now exists []|].
    destruct (loop a w (get_tools a) (Z.to_nat (max_iterations a))
                (initial_state a w prompt)) as [[acts s] e].
    simpl in Hasks, Hhead.
    assert (Hnone : asks init (offered (get_tools a)) 1 []).
    { unfold asks. simpl. repeat split; auto. }
    assert (Hmore : asks init (offered (get_tools a))
                      (Z.to_nat (max_iterations a) + 1) acts).
    { rewrite <- (app_nil_r acts). now apply asks_app. }
    destruct e as [|x|]; [exact Hmore|exact Hmore|].
    destruct (get_tools a) as [|t ts] eqn:Htools; [exact Hmore|].
    assert (Hsum : asks init (offered (t :: ts)) 1 (forced_summary w s).1).
    { unfold forced_summary.
      assert (Hsays : forall tail,
                 requested (map (fun c => Yield (ESay c)) tail) = []
                 /\ sleeps (map (fun c => Yield (ESay c)) tail) = []).
      { intros tail. induction tail as [|c cs [IHr IHs]]; now split. }
      assert (Hreq : keeps_head init
                       (messages s
                        ++ [plain_message (u "user")
                              (u "请根据上述工具调用结果，简要总结回答用户的问题。")]))
        by now apply keeps_head_app.
      destruct (backend w (requests s) _ None) as [e|chunks broken].
      - unfold asks. simpl. repeat split; auto; constructor; auto.
      - destruct (Hsays (contents chunks)) as [Hr Hs].
        destruct broken as [e|]; unfold asks; simpl;
          rewrite requested_app, sleeps_app, Hr, Hs; simpl;
          repeat split; auto; constructor; auto. }
    destruct (forced_summary w s) as [acts' s']. simpl in *. now apply asks_app. }
  unfold chat. destruct (_stream_chat_with_tools a w prompt) as [[acts s] e].
  simpl in Hgen. destruct Hgen as (Hr & _).
  assert (Hlast : forall x, requested [Yield x] = []) by reflexivity.
  destruct (requested_unyielded acts) as [Hu _].
  rewrite requested_app.
  assert (Htail : requested (match e with
                             | Returned =>
                               if stream then []
                               else [Yield (_sync_chat_with_tools (yielded acts))]
                             | Raised x => [Yield (EError x (stats s))]
                             end) = []).
  { destruct e; [destruct stream|]; reflexivity. }
  rewrite Htail, app_nil_r.
  assert (Hsame : requested (if stream then acts else unyielded acts) = requested acts).
  { destruct stream; [reflexivity|exact Hu]. }
  rewrite Hsame. eapply Forall_impl; [exact Hr|].
  intros r [Hhead Htools]. split; [exact Hhead|now apply Hoffer].
Qed.

(** X16: an invocation sends at most three requests for each pass the loop
    is allowed, and one more for the closing summary; between the attempts
    of a request it pauses 2 or 4 seconds, at most twice for each pass. A
    bound of zero or less allows no pass. *)
Theorem request_budget a w prompt stream :
  let passes := Z.to_nat (max_iterations a) in
  (length (requested (chat a w prompt stream)) <= 3 * passes + 1)%nat
  /\ Forall (fun d => d = 2%Z \/ d = 4%Z) (sleeps (chat a w prompt stream))
  /\ (length (sleeps (chat a w prompt stream)) <= 2 * passes)%nat.
Proof.
  cbv zeta.
  set (init := messages (initial_state a w prompt)).
  assert (Hinit : Forall (fun m => str_eqb (role m) (u "tool") = false) init).
  { unfold init, initial_state. simpl. repeat constructor. }
  assert (Hgen : let acts := (_stream_chat_with_tools a w prompt).1.1 in
                 (length (requested acts) <= 3 * Z.to_nat (max_iterations a) + 1)%nat
                 /\ Forall (fun d => d = 2%Z \/ d = 4%Z) (sleeps acts)
                 /\ (length (sleeps acts) <= 2 * Z.to_nat (max_iterations a))%nat).
  { unfold _stream_chat_with_tools.
    destruct (loop_asks a w (get_tools a) (Z.to_nat (max_iterations a))
                (initial_state a w prompt) init Hinit) as [Hasks _];
      [now exists []|].
    destruct (loop a w (get_tools a) (Z.to_nat (max_iterations a))
                (initial_state a w prompt)) as [[acts s] e].
    simpl in Hasks. destruct Hasks as (_ & Hn & Hs & Hm).
    destruct e as [|x|]; simpl; [split; [lia|now split]|split; [lia|now split]|].
    destruct (get_tools a) as [|t ts]; simpl; [split; [lia|now split]|].
    assert (Hsum : length (requested (forced_summary w s).1) = 1%nat
                   /\ sleeps (forced_summary w s).1 = []).
    { unfold forced_summary.
      assert (Hsays : forall tail,
                 requested (map (fun c => Yield (ESay c)) tail) = []
                 /\ sleeps (map (fun c => Yield (ESay c)) tail) = []).
      { intros tail. induction tail as [|c cs [IHr IHs]]; now split. }
      destruct (backend w (requests s) _ None) as [e|chunks broken]; [now split|].
      destruct (Hsays (contents chunks)) as [Hr Hs'].
      destruct broken as [e|]; simpl; rewrite requested_app, sleeps_app, Hr, Hs';
        now split. }
    destruct (forced_summary w s) as [acts' s']. simpl in *.
    destruct Hsum as [Hone Hnone].
    rewrite requested_app, sleeps_app, length_app, Hone, Hnone, app_nil_r.
    split; [lia|now split]. }
  unfold chat. destruct (_stream_chat_with_tools a w prompt) as [[acts s] e].
  cbv zeta in Hgen. cbn [fst snd] in Hgen.
  destruct (requested_unyielded acts) as [Hur Hus].
  assert (Htail : forall tail,
             tail = match e with
                    | Returned =>
                      if stream then []
                      else [Yield (_sync_chat_with_tools (yielded acts))]
                    | Raised x => [Yield (EError x (stats s))]
                    end -> requested tail = [] /\ sleeps tail = []).
  { intros tail ->. destruct e; [destruct stream|]; now split. }
  destruct (Htail _ eq_refl) as [Hr Hs].
  rewrite requested_app, sleeps_app, Hr, Hs, !app_nil_r.
  destruct stream; [exact Hgen|]. now rewrite Hur, Hus.
Qed.

End Requests.

(* ===================================================================== *)
(** ** mcpserver.py: the registry and the services directory              *)
(* ===================================================================== *)

(** What executing a module file leaves in the module: the attributes
    [get_tools] reads; [register_tools] when the module defines it, with
    the mapping it returns, or nothing when the call raises; and [TOOLS]
    when the module defines it. *)
Record loaded_module := {
  lm_module : py_module;
  lm_register_tools : option (option (gmap pystr tool_func));
  lm_TOOLS : option (gmap pystr tool_func)
}.

(** A file [<name>.py] of the services directory: its modification time
    ([stat().st_mtime], of which only the order matters), and what
    executing it gives, when it executes. *)
Record module_file := {
  st_mtime : Z;
  exec_module : option loaded_module
}.

(** The services directory: nothing when it does not exist, else its
    [*.py] files by stem, in the order [glob] lists them. *)
Definition directory : Type := option (list (pystr * module_file)).

(** An [MCPService] object of the registry, with its [last_modified]. Its
    [module_path] is the file of its name in the services directory. *)
Record registered := {
  reg_service : MCPService;
  last_modified : Z
}.

(** [MCPServerManager.services], in insertion order. *)
Definition registry : Type := list (pystr * registered).

Definition manager_of (regs : registry) : MCPServerManager :=
  {| services := map (fun kv => (kv.1, reg_service kv.2)) regs |}.

(** [d[k] = x]: a key that is there keeps its place. *)
Fixpoint assoc_set {A} (k : pystr) (x : A) (l : list (pystr * A)) : list (pystr * A) :=
  match l with
  | [] => [(k, x)]
  | (k', y) :: r => if str_eqb k' k then (k', x) :: r else (k', y) :: assoc_set k x r
  end.

(** [del d[k]] *)
Definition assoc_del {A} (k : pystr) (l : list (pystr * A)) : list (pystr * A) :=
  List.filter (fun kv => negb (str_eqb kv.1 k)) l.

(** The order in which [set(a) - set(b)] is iterated belongs to the
    interpreter; each element of [a] that is not in [b] comes once. *)
Class PySets := {
  iter_difference : list pystr -> list pystr -> list pystr;
  iter_difference_NoDup : forall a b, NoDup (iter_difference a b);
  iter_difference_elem : forall a b x, x ∈ iter_difference a b <-> x ∈ a /\ x ∉ b
}.

Section Registry.
Context `{PySets}.

(** [module_path.exists()] and the file behind it. *)
Definition file_of (dir : directory) (name : pystr) : option module_file :=
  match dir with
  | Some files => assoc_get name files
  | None => None
  end.

(** [MCPService(name, module_path).load()]: the loaded service, or nothing
    when [load] returns [False]. *)
Definition load (name : pystr) (f : module_file) : option registered :=
  match exec_module f with
  | None => None
  | Some m =>
    let loaded tools :=
      Some {| reg_service := {| svc_name := name; svc_module := Some (lm_module m);
                                svc_tools := tools; svc_loaded := true |};
              last_modified := st_mtime f |} in
    match lm_register_tools m with
    | Some (Some tools) => loaded tools
    | Some None => None
    | None => loaded (default ∅ (lm_TOOLS m))
    end
  end.

(** [discover_services] *)
Definition discover_services (dir : directory) : list pystr :=
  match dir with
  | None => []
  | Some files => List.filter (fun name => negb (startswith (u "_") name)) (map fst files)
  end.

(** [load_service] *)
Definition load_service (dir : directory) (regs : registry) (name : pystr)
  : registry * bool :=
  match file_of dir name with
  | None => (regs, false)
  | Some f =>
    match load name f with
    | Some service => (assoc_set name service regs, true)
    | None => (regs, false)
    end
  end.

(** [unload_service] *)
Definition unload_service (regs : registry) (name : pystr) : registry * bool :=
  match assoc_get name regs with
  | Some _ => (assoc_del name regs, true)
  | None => (regs, false)
  end.

(** [reload_service] *)
Definition reload_service (dir : directory) (regs : registry) (name : pystr)
  : registry * bool :=
  load_service dir (unload_service regs name).1 name.

(** [MCPService.is_modified] *)
Definition is_modified (dir : directory) (service : registered) : bool :=
  match file_of dir (svc_name (reg_service service)) with
  | Some f => (last_modified service <? st_mtime f)%Z
  | None => false
  end.

(** The first loop of [check_and_reload_modified], over the snapshot
    [list(self.services.items())]. *)
Fixpoint reload_modified (dir : directory) (snapshot : registry) (regs : registry)
    (reloaded : list pystr) : registry * list pystr :=
  match snapshot with
  | [] => (regs, reloaded)
  | (name, service) :: rest =>
    if is_modified dir service then
      let '(regs', ok) := reload_service dir regs name in
      reload_modified dir rest regs' (if ok then reloaded ++ [name] else reloaded)
    else reload_modified dir rest regs reloaded
  end.

(** Its second loop, over the names that are discovered and not
    registered. *)
Fixpoint load_new (dir : directory) (names : list pystr) (regs : registry)
    (reloaded : list pystr) : registry * list pystr :=
  match names with
  | [] => (regs, reloaded)
  | name :: rest =>
    let '(regs', ok) := load_service dir regs name in
    load_new dir rest regs' (if ok then reloaded ++ [name] else reloaded)
  end.

(** [check_and_reload_modified] *)
Definition check_and_reload_modified (dir : directory) (regs : registry)
  : registry * list pystr :=
  let '(regs1, reloaded) := reload_modified dir regs regs [] in
  load_new dir (iter_difference (discover_services dir) (map fst regs1)) regs1 reloaded.

(** *** The association lists *)

Lemma elem_of_List_filter {A} (p : A -> bool) (l : list A) x :
  x ∈ List.filter p l <-> x ∈ l /\ p x = true.
Proof. now rewrite !list_elem_of_In, List.filter_In. Qed.

Lemma NoDup_List_filter {A} (p : A -> bool) (l : list A) :
  NoDup l -> NoDup (List.filter p l).
Proof.
  induction 1 as [|x l Hx _ IH]; simpl; [constructor|].
  destruct (p x); [|exact IH]. constructor; [|exact IH].
  rewrite elem_of_List_filter. now intros [Hin _].
Qed.

Lemma assoc_get_None {A} (k : pystr) (l : list (pystr * A)) :
  assoc_get k l = None <-> k ∉ map fst l.
Proof.
  induction l as [|[k' x] l IH]; simpl.
  - split; [intros _ Hin; inversion Hin|reflexivity].
  - unfold str_eqb. destruct (bool_decide (k' = k)) eqn:Hk.
    + apply bool_decide_eq_true in Hk as ->. split; [discriminate|].
      intros Hnot. exfalso. apply Hnot. left.
    + apply bool_decide_eq_false in Hk. rewrite IH, not_elem_of_cons. split.
      * intros Hnot. split; [congruence|exact Hnot].
      * now intros [_ Hnot].
Qed.

Lemma assoc_get_elem {A} (k : pystr) (l : list (pystr * A)) x :
  assoc_get k l = Some x -> (k, x) ∈ l.
Proof.
  induction l as [|[k' y] l IH]; simpl; [discriminate|].
  unfold str_eqb. destruct (bool_decide (k' = k)) eqn:Hk.
  - apply bool_decide_eq_true in Hk as ->. intros [= ->]. left.
  - intros Hx. right. now apply IH.
Qed.

Lemma assoc_set_absent {A} (k : pystr) (x : A) (l : list (pystr * A)) :
  k ∉ map fst l -> assoc_set k x l = l ++ [(k, x)].
Proof.
  induction l as [|[k' y] l IH]; simpl; [reflexivity|].
  intros Hnot. apply not_elem_of_cons in Hnot as [Hk Hnot].
  unfold str_eqb. rewrite bool_decide_eq_false_2 by congruence. now rewrite IH.
Qed.

Lemma assoc_set_keys {A} (k : pystr) (x : A) (l : list (pystr * A)) :
  map fst (assoc_set k x l)
  = if bool_decide (k ∈ map fst l) then map fst l else map fst l ++ [k].
Proof.
  induction l as [|[k' y] l IH]; cbn [assoc_set map fst].
  - rewrite bool_decide_eq_false_2; [reflexivity|]. intros Hin. inversion Hin.
  - unfold str_eqb. destruct (bool_decide (k' = k)) eqn:Hk; cbn [map fst].
    + apply bool_decide_eq_true in Hk as ->.
      rewrite bool_decide_eq_true_2; [reflexivity|left].
    + apply bool_decide_eq_false in Hk. rewrite IH.
      destruct (bool_decide (k ∈ map fst l)) eqn:Hin.
      * apply bool_decide_eq_true in Hin.
        rewrite bool_decide_eq_true_2; [reflexivity|now right].
      * apply bool_decide_eq_false in Hin.
        rewrite bool_decide_eq_false_2; [reflexivity|].
        rewrite not_elem_of_cons. split; [congruence|exact Hin].
Qed.

Lemma assoc_set_elem {A} (k : pystr) (x : A) (l : list (pystr * A)) kv :
  kv ∈ assoc_set k x l -> kv ∈ l \/ kv = (k, x).
Proof.
  induction l as [|[k' y] l IH]; simpl.
  - intros Hin. apply list_elem_of_singleton in Hin. now right.
  - unfold str_eqb. destruct (bool_decide (k' = k)) eqn:Hk.
    + apply bool_decide_eq_true in Hk as ->. intros Hin.
      apply elem_of_cons in Hin as [->|Hin]; [now right|left; now right].
    + intros Hin. apply elem_of_cons in Hin as [->|Hin]; [left; left|].
      destruct (IH Hin) as [Hl|Heq]; [left; now right|now right].
Qed.

Lemma assoc_get_set {A} (k : pystr) (x : A) (l : list (pystr * A)) k' :
  assoc_get k' (assoc_set k x l) = if str_eqb k k' then Some x else assoc_get k' l.
Proof.
  induction l as [|[k0 y] l IH]; simpl.
  - now destruct (str_eqb k k').
  - unfold str_eqb in *. destruct (bool_decide (k0 = k)) eqn:Hk; simpl.
    + apply bool_decide_eq_true in Hk as ->. unfold str_eqb.
      now destruct (bool_decide (k = k')).
    + apply bool_decide_eq_false in Hk. unfold str_eqb. rewrite IH.
      destruct (bool_decide (k0 = k')) eqn:Hk'; [|reflexivity].
      apply bool_decide_eq_true in Hk' as ->.
      rewrite bool_decide_eq_false_2; [reflexivity|congruence].
Qed.

Lemma assoc_get_del {A} (k : pystr) (l : list (pystr * A)) k' :
  assoc_get k' (assoc_del k l) = if str_eqb k k' then None else assoc_get k' l.
Proof.
  unfold assoc_del, str_eqb. induction l as [|[k0 y] l IH]; simpl.
  - now destruct (bool_decide (k = k')).
  - unfold str_eqb. destruct (bool_decide (k0 = k)) eqn:Hk; simpl.
    + apply bool_decide_eq_true in Hk as ->. rewrite IH.
      now destruct (bool_decide (k = k')).
    + apply bool_decide_eq_false in Hk. unfold str_eqb. rewrite IH.
      destruct (bool_decide (k0 = k')) eqn:Hk'; [|reflexivity].
      apply bool_decide_eq_true in Hk' as ->.
      rewrite bool_decide_eq_false_2; [reflexivity|congruence].
Qed.

Lemma assoc_del_elem {A} (k : pystr) (l : list (pystr * A)) kv :
  kv ∈ assoc_del k l <-> kv ∈ l /\ kv.1 <> k.
Proof.
  unfold assoc_del. rewrite elem_of_List_filter.
  unfold str_eqb. rewrite negb_true_iff, bool_decide_eq_false. reflexivity.
Qed.

Lemma assoc_del_absent {A} (k : pystr) (l : list (pystr * A)) :
  k ∉ map fst l -> assoc_del k l = l.
Proof.
  unfold assoc_del. induction l as [|[k' y] l IH]; simpl; [reflexivity|].
  intros Hnot. apply not_elem_of_cons in Hnot as [Hk Hnot].
  assert (Hneq : str_eqb k' k = false) by (apply bool_decide_eq_false_2; congruence).
  rewrite Hneq. simpl. now rewrite IH.
Qed.

Lemma assoc_del_keys {A} (k : pystr) (l : list (pystr * A)) :
  map fst (assoc_del k l) = List.filter (fun k' => negb (str_eqb k' k)) (map fst l).
Proof.
  unfold assoc_del. induction l as [|[k' y] l IH]; simpl; [reflexivity|].
  destruct (negb (str_eqb k' k)); simpl; now rewrite IH.
Qed.

Lemma assoc_del_not_key {A} (k : pystr) (l : list (pystr * A)) :
  k ∉ map fst (assoc_del k l).
Proof.
  rewrite assoc_del_keys, elem_of_List_filter. intros [_ Hk].
  unfold str_eqb in Hk. now rewrite bool_decide_eq_true_2 in Hk.
Qed.

(** *** Loading, unloading and reloading one service *)

Lemma load_fresh name f service :
  load name f = Some service ->
  svc_name (reg_service service) = name
  /\ svc_loaded (reg_service service) = true
  /\ last_modified service = st_mtime f.
Proof.
  unfold load. destruct (exec_module f) as [m|]; [|discriminate].
  destruct (lm_register_tools m) as [[tools|]|]; [|discriminate|];
    intros [= <-]; now split.
Qed.

(** X17: unloading a service forgets it and nothing else: the name is no
    longer looked up, every other name is looked up as before, and the
    answer tells whether the name was registered. Unloading again answers
    [False] and changes nothing. *)
Theorem unload_service_forgets regs name :
  let after := (unload_service regs name).1 in
  assoc_get name after = None
  /\ (forall other, other <> name -> assoc_get other after = assoc_get other regs)
  /\ (unload_service regs name).2 = bool_decide (name ∈ map fst regs)
  /\ unload_service after name = (after, false).
Proof.
  cbv zeta. unfold unload_service.
  destruct (assoc_get name regs) as [service|] eqn:Hget; simpl.
  - assert (Hgone : assoc_get name (assoc_del name regs) = None).
    { rewrite assoc_get_del. unfold str_eqb. now rewrite bool_decide_eq_true_2. }
    split; [exact Hgone|]. split; [|split].
    + intros other Hother. rewrite assoc_get_del. unfold str_eqb.
      rewrite bool_decide_eq_false_2; [reflexivity|congruence].
    + symmetry. apply bool_decide_eq_true_2.
      apply assoc_get_elem in Hget. apply list_elem_of_fmap. now exists (name, service).
    + now rewrite Hgone.
  - split; [exact Hget|]. split; [reflexivity|]. split; [|now rewrite Hget].
    symmetry. apply bool_decide_eq_false_2. now apply assoc_get_None.
Qed.

(** X18: a reload that succeeds puts the fresh service at the end of the
    registry, whatever place the name had, so that its tools move to the
    end of the catalog; a reload that fails, because the file is gone or
    does not load, leaves the name unregistered. A failed [load_service],
    by contrast, leaves the registry as it was, the old service
    included. *)
Theorem reload_moves_or_drops dir regs name :
  reload_service dir regs name
  = match file_of dir name ≫= load name with
    | Some service => (assoc_del name regs ++ [(name, service)], true)
    | None => (assoc_del name regs, false)
    end
  /\ ((load_service dir regs name).2 = false -> (load_service dir regs name).1 = regs).
Proof.
  split.
  - unfold reload_service, load_service.
    assert (Hun : (unload_service regs name).1 = assoc_del name regs).
    { unfold unload_service. destruct (assoc_get name regs) eqn:Hget; [reflexivity|].
      simpl. symmetry. now apply assoc_del_absent, assoc_get_None. }
    rewrite Hun. destruct (file_of dir name) as [f|]; simpl; [|reflexivity].
    destruct (load name f) as [service|]; [|reflexivity].
    now rewrite (assoc_set_absent _ _ _ (assoc_del_not_key name regs)).
  - unfold load_service. destruct (file_of dir name) as [f|]; [|reflexivity].
    now destruct (load name f).
Qed.

(** *** The invariant of the registry *)

(** The registry is a mapping (no name twice), and the service under a
    name bears that name and is loaded. *)
Definition well_formed (regs : registry) : Prop :=
  NoDup (map fst regs)
  /\ Forall (fun kv => svc_name (reg_service kv.2) = kv.1
                       /\ svc_loaded (reg_service kv.2) = true) regs.

Lemma load_service_well_formed dir regs name :
  well_formed regs -> well_formed (load_service dir regs name).1.
Proof.
  intros [Hnd Hall]. unfold load_service.
  destruct (file_of dir name) as [f|]; [|now split].
  destruct (load name f) as [service|] eqn:Hload; [|now split]. simpl.
  destruct (load_fresh _ _ _ Hload) as (Hname & Hloaded & _). split.
  - rewrite assoc_set_keys. destruct (bool_decide (name ∈ map fst regs)) eqn:Hin;
      [exact Hnd|].
    apply bool_decide_eq_false in Hin. apply NoDup_app. split; [exact Hnd|].
    split; [|apply NoDup_singleton].
    intros k Hk Hk'. apply list_elem_of_singleton in Hk' as ->. contradiction.
  - apply Forall_forall. intros kv Hkv.
    destruct (assoc_set_elem _ _ _ _ Hkv) as [Hold| ->]; [|now split].
    rewrite Forall_forall in Hall. now apply Hall.
Qed.

Lemma assoc_del_well_formed regs name :
  well_formed regs -> well_formed (assoc_del name regs).
Proof.
  intros [Hnd Hall]. split.
  - rewrite assoc_del_keys. now apply NoDup_List_filter.
  - apply Forall_forall. intros kv Hkv. apply assoc_del_elem in Hkv as [Hkv _].
    rewrite Forall_forall in Hall. now apply Hall.
Qed.

Lemma unload_service_well_formed regs name :
  well_formed regs -> well_formed (unload_service regs name).1.
Proof.
  intros Hwf. unfold unload_service. destruct (assoc_get name regs); [|exact Hwf].
  now apply assoc_del_well_formed.
Qed.

Lemma reload_service_well_formed dir regs name :
  well_formed regs -> well_formed (reload_service dir regs name).1.
Proof.
  intros Hwf. apply load_service_well_formed. now apply unload_service_well_formed.
Qed.

Lemma reload_modified_well_formed dir snapshot regs reloaded :
  well_formed regs -> well_formed (reload_modified dir snapshot regs reloaded).1.
Proof.
  revert regs reloaded. induction snapshot as [|[name service] rest IH];
    intros regs reloaded Hwf; simpl; [exact Hwf|].
  destruct (is_modified dir service); [|now apply IH].
  pose proof (reload_service_well_formed dir regs name Hwf) as Hwf'.
  destruct (reload_service dir regs name) as [regs' ok]. now apply IH.
Qed.

Lemma load_new_well_formed dir names regs reloaded :
  well_formed regs -> well_formed (load_new dir names regs reloaded).1.
Proof.
  revert regs reloaded. induction names as [|name rest IH];
    intros regs reloaded Hwf; simpl; [exact Hwf|].
  pose proof (load_service_well_formed dir regs name Hwf) as Hwf'.
  destruct (load_service dir regs name) as [regs' ok]. now apply IH.
Qed.

(** X19: the operations of the registry keep it a mapping of names to
    loaded services of those names. So a service that [get_service] finds
    is loaded, and [call_tool] on it never fails with the complaint that the
    service is not loaded. *)
Theorem registry_stays_well_formed dir regs name :
  well_formed regs ->
  well_formed (load_service dir regs name).1
  /\ well_formed (unload_service regs name).1
  /\ well_formed (reload_service dir regs name).1
  /\ well_formed (check_and_reload_modified dir regs).1
  /\ forall service tool_name kwargs,
       get_service (manager_of regs) name = Some service ->
       svc_name service = name
       /\ svc_loaded service = true
       /\ call_tool service tool_name kwargs
          = match svc_tools service !! tool_name with
            | Some tool => run tool kwargs
            | None => Raises (u "工具不存在: " ++ tool_name)
            end.
Proof.
  intros Hwf.
  split; [now apply load_service_well_formed|].
  split; [now apply unload_service_well_formed|].
  split; [now apply reload_service_well_formed|]. split.
  - unfold check_and_reload_modified.
    pose proof (reload_modified_well_formed dir regs regs [] Hwf) as Hwf1.
    destruct (reload_modified dir regs regs []) as [regs1 reloaded].
    now apply load_new_well_formed.
  - intros service tool_name kwargs Hget. unfold get_service, manager_of in Hget.
    simpl in Hget. apply assoc_get_elem in Hget.
    apply list_elem_of_fmap in Hget as ([k r] & [= -> ->] & Hin).
    destruct Hwf as [_ Hall]. rewrite Forall_forall in Hall.
    destruct (Hall _ Hin) as [Hname Hloaded]. simpl in *.
    split; [exact Hname|]. split; [exact Hloaded|].
    unfold call_tool. rewrite Hloaded. simpl.
    destruct (svc_tools (reg_service r) !! tool_name) as [tool|]; [|reflexivity].
    now destruct (is_coroutine tool).
Qed.

(** *** A check of the directory *)

(** No registered service has a newer file. *)
Definition up_to_date (dir : directory) (regs : registry) : Prop :=
  Forall (fun kv => is_modified dir kv.2 = false) regs.

Lemma load_not_modified dir name f service :
  file_of dir name = Some f -> load name f = Some service ->
  is_modified dir service = false.
Proof.
  intros Hfile Hload. destruct (load_fresh _ _ _ Hload) as (Hname & _ & Htime).
  unfold is_modified. rewrite Hname, Hfile, Htime. apply Z.ltb_irrefl.
Qed.

Lemma load_service_entries dir regs name kv :
  kv ∈ (load_service dir regs name).1 -> kv ∈ regs \/ is_modified dir kv.2 = false.
Proof.
  unfold load_service. destruct (file_of dir name) as [f|] eqn:Hfile; [|now left].
  destruct (load name f) as [service|] eqn:Hload; [|now left]. simpl.
  intros Hkv. destruct (assoc_set_elem _ _ _ _ Hkv) as [Hold| ->]; [now left|].
  right. simpl. now apply (load_not_modified dir name f).
Qed.

Lemma reload_service_entries dir regs name kv :
  kv ∈ (reload_service dir regs name).1 ->
  (kv ∈ regs /\ kv.1 <> name) \/ is_modified dir kv.2 = false.
Proof.
  unfold reload_service. intros Hkv.
  destruct (load_service_entries _ _ _ _ Hkv) as [Hold|Hnew]; [|now right].
  left. unfold unload_service in Hold.
  destruct (assoc_get name regs) eqn:Hget; simpl in Hold.
  - now apply assoc_del_elem in Hold.
  - split; [exact Hold|]. intros <-. apply assoc_get_None in Hget. apply Hget.
    apply list_elem_of_fmap. now exists kv.
Qed.

(** The first loop leaves no modified service but those it has yet to
    visit. *)
Lemma reload_modified_up_to_date dir snapshot regs reloaded :
  (forall kv, kv ∈ regs -> is_modified dir kv.2 = true -> kv ∈ snapshot) ->
  up_to_date dir (reload_modified dir snapshot regs reloaded).1.
Proof.
  revert regs reloaded. induction snapshot as [|[name service] rest IH];
    intros regs reloaded Hinv; simpl.
  - apply Forall_forall. intros kv Hkv.
    destruct (is_modified dir kv.2) eqn:Hmod; [|reflexivity].
    specialize (Hinv kv Hkv Hmod). inversion Hinv.
  - destruct (is_modified dir service) eqn:Hmod.
    + pose proof (reload_service_entries dir regs name) as Hentries.
      destruct (reload_service dir regs name) as [regs' ok]. simpl in Hentries.
      apply IH. intros kv Hkv Hkvmod.
      destruct (Hentries kv Hkv) as [[Hold Hname]|Hnew]; [|congruence].
      specialize (Hinv kv Hold Hkvmod).
      apply elem_of_cons in Hinv as [->|Hrest]; [contradiction|exact Hrest].
    + apply IH. intros kv Hkv Hkvmod. specialize (Hinv kv Hkv Hkvmod).
      apply elem_of_cons in Hinv as [->|Hrest]; [|exact Hrest].
      simpl in Hkvmod. congruence.
Qed.

Lemma load_service_keys dir regs name k :
  k ∈ map fst regs -> k ∈ map fst (load_service dir regs name).1.
Proof.
  intros Hk. unfold load_service. destruct (file_of dir name) as [f|]; [|exact Hk].
  destruct (load name f) as [service|]; [|exact Hk]. simpl.
  rewrite assoc_set_keys. destruct (bool_decide _); [exact Hk|].
  apply elem_of_app. now left.
Qed.

Lemma load_service_new_key dir regs name k :
  k ∈ map fst (load_service dir regs name).1 -> k ∈ map fst regs \/ k = name.
Proof.
  unfold load_service. destruct (file_of dir name) as [f|]; [|now left].
  destruct (load name f) as [service|]; [|now left]. simpl.
  rewrite assoc_set_keys. destruct (bool_decide _); [now left|].
  intros Hk. apply elem_of_app in Hk as [Hk|Hk]; [now left|].
  apply list_elem_of_singleton in Hk. now right.
Qed.

(** The second loop: no entry is modified, no name is lost, a name is
    gained only from the list, and every name of the list is registered
    or does not load. *)
Lemma load_new_spec dir names regs reloaded :
  up_to_date dir regs ->
  up_to_date dir (load_new dir names regs reloaded).1
  /\ (forall k, k ∈ map fst regs -> k ∈ map fst (load_new dir names regs reloaded).1)
  /\ (forall k, k ∈ map fst (load_new dir names regs reloaded).1 ->
                k ∈ map fst regs \/ k ∈ names)
  /\ (forall k, k ∈ names ->
                k ∈ map fst (load_new dir names regs reloaded).1
                \/ file_of dir k ≫= load k = None).
Proof.
  revert regs reloaded. induction names as [|name rest IH];
    intros regs reloaded Hup; simpl.
  - split; [exact Hup|]. split; [auto|]. split; [auto|]. intros k Hk. inversion Hk.
  - pose proof (load_service_entries dir regs name) as Hentries.
    pose proof (load_service_keys dir regs name) as Hkeys.
    pose proof (load_service_new_key dir regs name) as Hgain.
    assert (Hname : name ∈ map fst (load_service dir regs name).1
                    \/ file_of dir name ≫= load name = None).
    { unfold load_service. destruct (file_of dir name) as [f|]; simpl; [|now right].
      destruct (load name f) as [service|]; simpl; [|now right].
      left. rewrite assoc_set_keys. destruct (bool_decide _) eqn:Hin.
      - now apply bool_decide_eq_true in Hin.
      - apply elem_of_app. right. left. }
    destruct (load_service dir regs name) as [regs' ok]. simpl in *.
    assert (Hup' : up_to_date dir regs').
    { apply Forall_forall. intros kv Hkv. destruct (Hentries kv Hkv) as [Hold|Hnew];
        [|exact Hnew]. unfold up_to_date in Hup. rewrite Forall_forall in Hup.
      now apply Hup. }
    destruct (IH regs' (if ok then reloaded ++ [name] else reloaded) Hup')
      as (IHup & IHkeys & IHgain & IHnames).
    split; [exact IHup|]. split; [auto|]. split.
    + intros k Hk. destruct (IHgain k Hk) as [Hk'|Hk']; [|right; now right].
      destruct (Hgain k Hk') as [Hold| ->]; [now left|right; left].
    + intros k Hk. apply elem_of_cons in Hk as [->|Hk]; [|now apply IHnames].
      destruct Hname as [Hin|Hfail]; [left; now apply IHkeys|now right].
Qed.

Lemma unload_service_keys regs name k :
  k ∈ map fst (unload_service regs name).1 -> k ∈ map fst regs.
Proof.
  unfold unload_service. destruct (assoc_get name regs); simpl; [|auto].
  rewrite assoc_del_keys, elem_of_List_filter. now intros [Hk _].
Qed.

(** The first loop gains no name but those of the snapshot. *)
Lemma reload_modified_keys dir snapshot regs reloaded k :
  k ∈ map fst (reload_modified dir snapshot regs reloaded).1 ->
  k ∈ map fst regs \/ k ∈ map fst snapshot.
Proof.
  revert regs reloaded. induction snapshot as [|[name service] rest IH];
    intros regs reloaded; simpl; [auto|].
  destruct (is_modified dir service).
  - pose proof (load_service_new_key dir (unload_service regs name).1 name) as Hgain.
    fold (reload_service dir regs name) in Hgain.
    destruct (reload_service dir regs name) as [regs' ok]. simpl in Hgain.
    intros Hk. destruct (IH _ _ Hk) as [Hk'|Hk']; [|right; now right].
    destruct (Hgain k Hk') as [Hold| ->]; [|right; left].
    left. now apply (unload_service_keys regs name).
  - intros Hk. destruct (IH _ _ Hk) as [Hk'|Hk']; [now left|right; now right].
Qed.

(** What a check leaves: no registered service has a newer file; every
    discovered name is registered or does not load; and every registered
    name was registered before or is discovered. *)
Lemma check_spec dir regs :
  let after := (check_and_reload_modified dir regs).1 in
  up_to_date dir after
  /\ (forall k, k ∈ discover_services dir ->
                k ∈ map fst after \/ file_of dir k ≫= load k = None)
  /\ (forall k, k ∈ map fst after -> k ∈ map fst regs \/ k ∈ discover_services dir).
Proof.
  cbv zeta. unfold check_and_reload_modified.
  pose proof (reload_modified_up_to_date dir regs regs [] (fun kv Hkv _ => Hkv)) as Hup1.
  pose proof (reload_modified_keys dir regs regs []) as Hkeys1.
  destruct (reload_modified dir regs regs []) as [regs1 reloaded]. simpl in Hup1, Hkeys1.
  destruct (load_new_spec dir (iter_difference (discover_services dir) (map fst regs1))
              regs1 reloaded Hup1) as (Hup & Hkeep & Hgain & Hnames).
  split; [exact Hup|]. split.
  - intros k Hk. destruct (decide (k ∈ map fst regs1)) as [Hin|Hnot].
    + left. now apply Hkeep.
    + apply Hnames. apply iter_difference_elem. now split.
  - intros k Hk. destruct (Hgain k Hk) as [Hold|Hnew].
    + left. destruct (Hkeys1 k Hold); assumption.
    + right. now apply iter_difference_elem in Hnew as [Hnew _].
Qed.

Lemma reload_modified_idle dir snapshot regs reloaded :
  up_to_date dir snapshot ->
  reload_modified dir snapshot regs reloaded = (regs, reloaded).
Proof.
  induction 1 as [|[name service] rest Hmod _ IH]; simpl; [reflexivity|].
  simpl in Hmod. now rewrite Hmod.
Qed.

Lemma load_new_idle dir names regs reloaded :
  (forall k, k ∈ names -> file_of dir k ≫= load k = None) ->
  load_new dir names regs reloaded = (regs, reloaded).
Proof.
  induction names as [|name rest IH]; intros Hfail; simpl; [reflexivity|].
  assert (Hone : load_service dir regs name = (regs, false)).
  { unfold load_service. specialize (Hfail name ltac:(left)).
    destruct (file_of dir name) as [f|]; simpl in Hfail; [|reflexivity].
    now rewrite Hfail. }
  rewrite Hone. apply IH. intros k Hk. apply Hfail. now right.
Qed.

(** X20: after a check the registry is in step with the directory: no
    registered service has a file newer than the one it was loaded from;
    every discovered name is registered, unless its file does not load;
    and no name is registered that was not registered before or
    discovered, so a file whose name starts with an underscore is never
    picked up by a check. *)
Theorem check_brings_the_registry_in_step dir regs :
  let after := (check_and_reload_modified dir regs).1 in
  up_to_date dir after
  /\ (forall k, k ∈ discover_services dir ->
                k ∈ map fst after \/ file_of dir k ≫= load k = None)
  /\ (forall k, k ∈ map fst after ->
                k ∈ map fst regs
                \/ (startswith (u "_") k = false /\ is_Some (file_of dir k))).
Proof.
  destruct (check_spec dir regs) as (Hup & Hall & Hfrom). cbv zeta.
  split; [exact Hup|]. split; [exact Hall|].
  intros k Hk. destruct (Hfrom k Hk) as [Hold|Hnew]; [now left|]. right.
  unfold discover_services, file_of in *. destruct dir as [files|]; [|inversion Hnew].
  rewrite elem_of_List_filter in Hnew.
  destruct Hnew as [Hfile Hname]. apply negb_true_iff in Hname. split; [exact Hname|].
  destruct (assoc_get k files) eqn:Hget; [now eexists|].
  apply assoc_get_None in Hget. contradiction.
Qed.

(** X21: a second check of an unchanged directory reloads nothing, reports
    nothing and leaves the registry as the first check left it, also when
    some file keeps failing to load. *)
Theorem check_twice_is_check_once dir regs :
  check_and_reload_modified dir (check_and_reload_modified dir regs).1
  = ((check_and_reload_modified dir regs).1, []).
Proof.
  destruct (check_spec dir regs) as (Hup & Hall & _). cbv zeta in Hup, Hall.
  set (after := (check_and_reload_modified dir regs).1) in *.
  unfold check_and_reload_modified at 1.
  rewrite (reload_modified_idle dir after after [] Hup).
  apply load_new_idle. intros k Hk.
  apply iter_difference_elem in Hk as [Hk Hnot].
  destruct (Hall k Hk) as [Hin|Hfail]; [contradiction|exact Hfail].
Qed.

End Registry.

Lemma first_list_NoDup (a b : list pystr) :
  NoDup (remove_dups (List.filter (fun x => bool_decide (x ∉ b)) a)).
Proof. apply NoDup_remove_dups. Qed.

Lemma first_list_elem (a b : list pystr) x :
  x ∈ remove_dups (List.filter (fun x => bool_decide (x ∉ b)) a) <-> x ∈ a /\ x ∉ b.
Proof.
  rewrite elem_of_remove_dups, elem_of_List_filter.
  now rewrite bool_decide_eq_true.
Qed.

(** The interpreter's order is not known; the order of the first list is
    one that satisfies what is assumed of it. *)
#[export] Instance first_list_order : PySets := {|
  iter_difference a b := remove_dups (List.filter (fun x => bool_decide (x ∉ b)) a);
  iter_difference_NoDup := first_list_NoDup;
  iter_difference_elem := first_list_elem
|}.

(** A services directory with a module that loads, a private module and
    a module that fails on execution. *)
Definition git_file : module_file :=
  {| st_mtime := 10;
     exec_module :=
       Some {| lm_module := {| TOOL_DEFINITIONS := Some git_catalog;
                               get_tool_definitions := None |};
               lm_register_tools := Some (Some {[ u "list_merge_requests" := echo_project ]});
               lm_TOOLS := None |} |}.

Definition broken_file : module_file := {| st_mtime := 5; exec_module := None |}.

Definition services_dir : directory :=
  Some [(u "git", git_file); (u "_private", git_file); (u "broken", broken_file)].

(** The registry after a first check of that directory. *)
Definition started : registry := (check_and_reload_modified services_dir []).1.

(** X19, witness: the first check registers [git] alone; the registry is
    well formed and stays so when [git] is reloaded. *)
Lemma registry_stays_well_formed_witness :
  map fst started = [u "git"]
  /\ well_formed started
  /\ well_formed (reload_service services_dir started (u "git")).1
  /\ well_formed (check_and_reload_modified services_dir started).1.
Proof.
  assert (Hwf : well_formed started).
  { unfold started, check_and_reload_modified. simpl reload_modified.
    apply load_new_well_formed. split; constructor. }
  destruct (registry_stays_well_formed services_dir started (u "git") Hwf)
    as (_ & _ & Hreload & Hcheck & _).
  split; [vm_compute; reflexivity|]. split; [exact Hwf|]. now split.
Defined.

(* ===================================================================== *)
(** ** aiagent.py: [PromptPreprocessor]                                   *)
(* ===================================================================== *)

(** [str.isspace] of one character: the white space of the Unicode
    database. *)
Definition isspace (c : char) : bool :=
  ((9 <=? c) && (c <=? 13)) || ((28 <=? c) && (c <=? 32))
  || (c =? 133) || (c =? 160) || (c =? 5760)
  || ((8192 <=? c) && (c <=? 8202)) || (c =? 8232) || (c =? 8233)
  || (c =? 8239) || (c =? 8287) || (c =? 12288).

Fixpoint lstrip_by (p : char -> bool) (s : pystr) : pystr :=
  match s with
  | [] => []
  | c :: s' => if p c then lstrip_by p s' else s
  end.

(** [s.strip()] and [s.strip(chars)], by the test of a character to drop. *)
Definition strip_by (p : char -> bool) (s : pystr) : pystr :=
  reverse (lstrip_by p (reverse (lstrip_by p s))).

Definition strip (s : pystr) : pystr := strip_by isspace s.

(** [s.strip(chars)] where [chars] are the double and the single quote. *)
Definition strip_quotes (s : pystr) : pystr :=
  strip_by (fun c => (c =? 34) || (c =? 39)) s.

(** [s.endswith(p)] *)
Definition endswith (p s : pystr) : bool := startswith (reverse p) (reverse s).

(** What the file system and the network answer: [open(web_root /
    file_path)] gives the text, or the file does not exist, or reading
    raises; [http_client.get(url)] gives the body, or raises (also on a
    status that [raise_for_status] rejects). *)
Inductive read_outcome :=
| ReadText (text : pystr)
| ReadMissing
| ReadError (e : pystr).

Record Web := {
  read_file : pystr -> read_outcome;
  http_get : pystr -> pystr + pystr
}.

(** A match of the pattern [@\{([^}]+)\}]: where it starts and ends, and
    its group. *)
Record re_match := {
  m_start : nat;
  m_end : nat;
  m_group : pystr
}.

(** [[^}]*] followed by the closing brace, at the start of [s]: the
    characters before the first closing brace. *)
Fixpoint until_close (s : pystr) : option pystr :=
  match s with
  | [] => None
  | c :: s' => if c =? 125 then Some [] else option_map (cons c) (until_close s')
  end.

(** The group of the match that starts at the start of [s], if there is
    one: the marker, at least one character that is no closing brace, and
    the closing brace. *)
Definition match_at (s : pystr) : option pystr :=
  if startswith (u "@{") s then
    match until_close (drop 2 s) with
    | Some (c :: e) => Some (c :: e)
    | _ => None
    end
  else None.

(** [re.finditer(pattern, prompt)]: the matches that do not overlap,
    scanned from the left; [skip] characters of a match are still to be
    passed. *)
Fixpoint finditer_go (s : pystr) (pos skip : nat) : list re_match :=
  match s with
  | [] => []
  | _ :: s' =>
    match skip with
    | S k => finditer_go s' (S pos) k
    | O =>
      match match_at s with
      | Some e =>
        {| m_start := pos; m_end := pos + length e + 3; m_group := e |}
          :: finditer_go s' (S pos) (length e + 2)
      | None => finditer_go s' (S pos) 0
      end
    end
  end.

Definition finditer (prompt : pystr) : list re_match := finditer_go prompt 0 0.

Section Preprocessor.
Variable web : Web.

(** [_load_file] *)
Definition _load_file (file_path : pystr) : pystr :=
  match read_file web file_path with
  | ReadText text => text
  | ReadMissing => u "[文件不存在: " ++ file_path ++ u "]"
  | ReadError e => u "[文件读取错误: " ++ e ++ u "]"
  end.

(** [_call_api] *)
Definition _call_api (url : pystr) : pystr :=
  match http_get web url with
  | inr text => text
  | inl e => u "[API调用错误: " ++ e ++ u "]"
  end.

(** [_evaluate_expression]; [expression[n:-1]] is [drop n (removelast
    expression)]. *)
Definition _evaluate_expression (expression : pystr) : pystr :=
  if startswith (u "file(") expression && endswith (u ")") expression then
    _load_file (strip_quotes (strip (drop 5 (removelast expression))))
  else if startswith (u "api(") expression && endswith (u ")") expression then
    _call_api (strip_quotes (strip (drop 4 (removelast expression))))
  else u "[未知表达式: " ++ expression ++ u "]".

(** The body of the loop of [process]. *)
Definition splice (result : pystr) (m : re_match) : pystr :=
  take (m_start m) result ++ _evaluate_expression (strip (m_group m))
  ++ drop (m_end m) result.

(** [process]: the matches are replaced from the last to the first. *)
Definition process (prompt : pystr) : pystr :=
  fold_left splice (reverse (finditer prompt)) prompt.

(** *** Where the matches are *)

Lemma match_at_none (s : pystr) : startswith (u "@{") s = false -> match_at s = None.
Proof. unfold match_at. now intros ->. Qed.

Lemma finditer_go_plain (s : pystr) pos :
  str_in (u "@{") s = false -> finditer_go s pos 0 = [].
Proof.
  revert pos. induction s as [|c s IH]; intros pos Hs; [reflexivity|].
  cbn [str_in] in Hs. apply orb_false_elim in Hs as [Hhere Hlater].
  cbn [finditer_go]. rewrite (match_at_none _ Hhere). now apply IH.
Qed.

Definition shift (n : nat) (m : re_match) : re_match :=
  {| m_start := n + m_start m; m_end := n + m_end m; m_group := m_group m |}.

Lemma finditer_go_shift (s : pystr) n pos skip :
  finditer_go s (n + pos) skip = map (shift n) (finditer_go s pos skip).
Proof.
  revert pos skip. induction s as [|c s IH]; intros pos skip; [reflexivity|].
  cbn [finditer_go]. destruct skip as [|k].
  - destruct (match_at (c :: s)) as [e|].
    + cbn [map]. f_equal.
      * unfold shift. simpl. f_equal. lia.
      * rewrite <- IH. f_equal. lia.
    + rewrite <- IH. f_equal. lia.
  - rewrite <- IH. f_equal. lia.
Qed.

Lemma finditer_go_skip (x s : pystr) pos k :
  k = length x -> finditer_go (x ++ s) pos k = finditer_go s (pos + k) 0.
Proof.
  intros ->. revert pos. induction x as [|c x IH]; intros pos; simpl.
  - now rewrite Nat.add_0_r.
  - rewrite IH. f_equal. lia.
Qed.

Lemma until_close_found (e rest : pystr) :
  125 ∉ e -> until_close (e ++ 125 :: rest) = Some e.
Proof.
  induction e as [|c e IH]; intros He; simpl.
  - reflexivity.
  - apply not_elem_of_cons in He as [Hc He].
    destruct (N.eqb_spec c 125) as [->|_]; [contradiction|]. now rewrite (IH He).
Qed.

(** Before the first marker there is no match. *)
Lemma finditer_go_before (a rest : pystr) pos :
  str_in (u "@{") a = false ->
  finditer_go (a ++ u "@{" ++ rest) pos 0
  = finditer_go (u "@{" ++ rest) (pos + length a) 0.
Proof.
  revert pos. induction a as [|c a IH]; intros pos Ha.
  - simpl app. now rewrite Nat.add_0_r.
  - cbn [str_in] in Ha. apply orb_false_elim in Ha as [Hhere Hlater].
    change ((c :: a) ++ u "@{" ++ rest) with (c :: (a ++ u "@{" ++ rest)).
    cbn [finditer_go].
    assert (Hnone : match_at (c :: (a ++ u "@{" ++ rest)) = None).
    { apply match_at_none. clear IH Hlater. change (u "@{") with [64; 123] in *.
      destruct a as [|c' a']; cbn [startswith app] in *.
      - now destruct (64 =? c).
      - exact Hhere. }
    rewrite Hnone, (IH (S pos) Hlater). f_equal. cbn [length]. lia.
Qed.

Lemma finditer_go_match c (s : pystr) pos e :
  match_at (c :: s) = Some e ->
  finditer_go (c :: s) pos 0
  = {| m_start := pos; m_end := pos + length e + 3; m_group := e |}
      :: finditer_go s (S pos) (length e + 2).
Proof. intros Hm. cbn [finditer_go]. now rewrite Hm. Qed.

Lemma finditer_first (a e b : pystr) :
  str_in (u "@{") a = false -> e <> [] -> 125 ∉ e ->
  finditer (a ++ u "@{" ++ e ++ 125 :: b)
  = {| m_start := length a; m_end := length a + length e + 3; m_group := e |}
      :: map (shift (length a + length e + 3)) (finditer b).
Proof.
  intros Ha Hne He. unfold finditer. rewrite (finditer_go_before a _ 0 Ha).
  change (u "@{" ++ e ++ 125 :: b) with (64 :: 123 :: (e ++ 125 :: b)).
  assert (Hmatch : match_at (64 :: 123 :: (e ++ 125 :: b)) = Some e).
  { unfold match_at. change (startswith (u "@{") (64 :: 123 :: (e ++ 125 :: b))) with true.
    cbv iota. change (drop 2 (64 :: 123 :: (e ++ 125 :: b))) with (e ++ 125 :: b).
    rewrite (until_close_found e b He). now destruct e. }
  rewrite (finditer_go_match _ _ _ _ Hmatch). f_equal.
  replace (123 :: e ++ 125 :: b) with ((123 :: e ++ [125]) ++ b)
    by (simpl; now rewrite <- app_assoc).
  rewrite (finditer_go_skip _ b _ (length e + 2)).
  - replace (S (0 + length a) + (length e + 2))%nat
      with (length a + length e + 3 + 0)%nat by lia.
    apply finditer_go_shift.
  - cbn [length]. rewrite length_app. cbn [length]. unfold char. lia.
Qed.

Lemma reverse_map {A B} (f : A -> B) (l : list A) :
  reverse (map f l) = map f (reverse l).
Proof.
  induction l as [|x l IH]; [reflexivity|].
  cbn [map]. now rewrite !reverse_cons, map_app, IH.
Qed.

Lemma splice_shift (prefix r : pystr) m :
  splice (prefix ++ r) (shift (length prefix) m) = prefix ++ splice r m.
Proof.
  unfold splice, shift. simpl.
  rewrite take_app_add, drop_app_add. now rewrite <- app_assoc.
Qed.

Lemma fold_splice_shift (prefix r : pystr) ms :
  fold_left splice (map (shift (length prefix)) ms) (prefix ++ r)
  = prefix ++ fold_left splice ms r.
Proof.
  revert r. induction ms as [|m ms IH]; intros r; simpl; [reflexivity|].
  now rewrite splice_shift, IH.
Qed.

(** X22: a prompt in which the marker [@{] does not occur is returned as
    it is. *)
Theorem process_leaves_plain_prompts (prompt : pystr) :
  str_in (u "@{") prompt = false -> process prompt = prompt.
Proof.
  intros Hplain. unfold process, finditer. now rewrite (finditer_go_plain _ 0 Hplain).
Qed.

(** X23: the expressions of a prompt are expanded from left to right, each
    on its own: the text before the first marker stays, the expression up
    to the first closing brace is stripped and evaluated, and the rest of
    the prompt is processed by itself. What an expression evaluates to is
    not scanned for expressions. *)
Theorem process_expands_left_to_right (a e b : pystr) :
  str_in (u "@{") a = false -> e <> [] -> 125 ∉ e ->
  process (a ++ u "@{" ++ e ++ 125 :: b)
  = a ++ _evaluate_expression (strip e) ++ process b.
Proof.
  intros Ha Hne He. unfold process. rewrite (finditer_first a e b Ha Hne He).
  rewrite reverse_cons, fold_left_app. cbn [fold_left].
  set (prefix := a ++ u "@{" ++ e ++ [125]).
  assert (Hlen : length prefix = (length a + length e + 3)%nat).
  { unfold prefix. rewrite !length_app. simpl. lia. }
  assert (Hprompt : a ++ u "@{" ++ e ++ 125 :: b = prefix ++ b).
  { unfold prefix. now rewrite <- !app_assoc. }
  rewrite Hprompt, <- Hlen, reverse_map, fold_splice_shift.
  unfold splice at 1. cbn [m_start m_end m_group].
  assert (Htake : take (length a) (prefix ++ fold_left splice (reverse (finditer b)) b) = a).
  { unfold prefix. rewrite <- app_assoc. now rewrite take_app_length. }
  rewrite Htake, drop_app_length. reflexivity.
Qed.

End Preprocessor.

(** A web root with one file, and no network. *)
Definition motd_web : Web :=
  {| read_file path :=
       if str_eqb path (u "motd.txt") then ReadText (u "see @{file(x)}") else ReadMissing;
     http_get _ := inl (u "unreachable") |}.

(** X22, witness: an address is no expression. *)
Lemma process_leaves_plain_prompts_witness :
  str_in (u "@{") (u "mail ops@example.org {now}") = false
  /\ process motd_web (u "mail ops@example.org {now}") = u "mail ops@example.org {now}".
Proof.
  split; [reflexivity|].
  apply (process_leaves_plain_prompts motd_web (u "mail ops@example.org {now}")).
  reflexivity.
Defined.

(** X23, witness: the file is spliced in with the expression it holds left
    alone, and the unknown expression after it gets its own marker. *)
Lemma process_expands_left_to_right_witness :
  u "show " ++ u "@{" ++ u " file('motd.txt') " ++ 125 :: u " and @{who}"
  = u "show @{ file('motd.txt') } and @{who}"
  /\ process motd_web
       (u "show " ++ u "@{" ++ u " file('motd.txt') " ++ 125 :: u " and @{who}")
     = u "show " ++ _evaluate_expression motd_web (strip (u " file('motd.txt') "))
       ++ process motd_web (u " and @{who}")
  /\ process motd_web (u "show @{ file('motd.txt') } and @{who}")
     = u "show see @{file(x)} and [未知表达式: who]".
Proof.
  split; [reflexivity|]. split.
  - apply (process_expands_left_to_right motd_web (u "show ") (u " file('motd.txt') ")
             (u " and @{who}")).
    + reflexivity.
    + discriminate.
    + vm_compute. intros Hin.
      repeat (apply elem_of_cons in Hin as [Hin|Hin]; [discriminate|]). inversion Hin.
  - vm_compute. reflexivity.
Defined.

(* ===================================================================== *)
(** ** app.py: loading the services at startup                            *)
(* ===================================================================== *)

Section Startup.
Context `{PySets}.

(** The loop of [create_app] over [discover_services()]; the answers of
    [load_service] are not looked at. *)
Definition load_discovered (dir : directory) : registry :=
  fold_left (fun regs name => (load_service dir regs name).1) (discover_services dir) [].

Lemma load_new_fold dir names regs reloaded :
  (load_new dir names regs reloaded).1
  = fold_left (fun regs name => (load_service dir regs name).1) names regs.
Proof.
  revert regs reloaded. induction names as [|name rest IH]; intros regs reloaded;
    simpl; [reflexivity|].
  destruct (load_service dir regs name) as [regs' ok]. apply IH.
Qed.

(** X24: after startup the registry is well formed and holds discovered
    names only, every discovered name is registered unless its file does
    not load, and a check of the unchanged directory finds nothing to do:
    it reports no name and leaves the registry as it is. *)
Theorem check_after_startup_is_idle dir :
  let regs := load_discovered dir in
  well_formed regs
  /\ (forall k, k ∈ map fst regs -> k ∈ discover_services dir)
  /\ (forall k, k ∈ discover_services dir ->
                k ∈ map fst regs \/ file_of dir k ≫= load k = None)
  /\ check_and_reload_modified dir regs = (regs, []).
Proof.
  cbv zeta. unfold load_discovered.
  rewrite <- (load_new_fold dir (discover_services dir) [] []).
  assert (Hempty : up_to_date dir []) by constructor.
  destruct (load_new_spec dir (discover_services dir) [] [] Hempty)
    as (Hup & _ & Hgain & Hnames).
  set (regs := (load_new dir (discover_services dir) [] []).1) in *.
  split; [apply load_new_well_formed; split; constructor|].
  split.
  - intros k Hk. destruct (Hgain k Hk) as [Hnil|Hin]; [inversion Hnil|exact Hin].
  - split; [exact Hnames|].
    unfold check_and_reload_modified.
    rewrite (reload_modified_idle dir regs regs [] Hup).
    apply load_new_idle. intros k Hk.
    apply iter_difference_elem in Hk as [Hk Hnot].
    destruct (Hnames k Hk) as [Hin|Hfail]; [contradiction|exact Hfail].
Qed.

End Startup.

(* ===================================================================== *)
(** ** router.py: the chat endpoint                                       *)
(* ===================================================================== *)

(** The body of a request; [stream] and [preprocess] by their truth. *)
Record ChatRequest := {
  req_prompt : pystr;
  req_stream : bool;
  req_preprocess : bool
}.

(** [request.app.state]: the agent and the preprocessor, when set. *)
Record AppState := {
  app_agent : option AIAgent;
  app_preprocessor : option Web
}.

(** The mapping [result] of the endpoint; [res_token_stats] is nothing
    while the key is not set, and [Some None] when it is set to [None]. *)
Record chat_result := {
  res_think : pystr;
  res_say : pystr;
  res_tool_calls : list sync_call;
  res_token_stats : option (option token_stats)
}.

(** What the endpoint returns: a JSON error with its status code, the
    JSON result with status 200, or an event stream that sends each
    mapping serialized in one [data:] line. *)
Inductive http_response :=
| JSONError (status_code : Z) (error : pystr)
| JSONResult (result : chat_result)
| EventStream (chunks : list event).

(** The loop over [agent.chat(prompt, stream=False)]. *)
Fixpoint gather (result : chat_result) (chunks : list event) : http_response :=
  match chunks with
  | [] => JSONResult result
  | chunk :: rest =>
    match chunk with
    | EComplete think say st =>
      gather {| res_think := think; res_say := say;
                res_tool_calls := res_tool_calls result;
                res_token_stats := Some (Some st) |} rest
    | ESyncComplete think say _ =>
      gather {| res_think := think; res_say := say;
                res_tool_calls := res_tool_calls result;
                res_token_stats := Some None |} rest
    | EError content _ => JSONError 500 content
    | _ => gather result rest
    end
  end.

Section Router.
Context `{PyUnicode} `{PyJson} `{PyErrors}.

(** The prompt the agent is given. *)
Definition preprocessed (state : AppState) (body : ChatRequest) : pystr :=
  if req_preprocess body then
    match app_preprocessor state with
    | Some web => process web (req_prompt body)
    | None => req_prompt body
    end
  else req_prompt body.

(** [api_chat] *)
Definition api_chat (state : AppState) (w : World) (body : ChatRequest)
  : http_response :=
  match app_agent state with
  | None => JSONError 503 (u "Agent 未配置，请设置 AI API 密钥")
  | Some agent =>
    let prompt := preprocessed state body in
    if req_stream body then EventStream (yielded (chat agent w prompt true))
    else
      gather {| res_think := []; res_say := []; res_tool_calls := [];
                res_token_stats := None |}
             (yielded (chat agent w prompt false))
  end.

(** X25: the endpoint, asked not to stream, answers with status 500 and
    the text of the failure when the agent yields an [error], and
    otherwise with the [think] and [say] of the agent's result. The tool
    calls the agent collected are not passed on: [tool_calls] in the
    answer is always empty, and [token_stats] is always [None]. *)
Theorem api_chat_drops_the_tool_calls state w body agent :
  app_agent state = Some agent ->
  req_stream body = false ->
  let prompt := preprocessed state body in
  (exists content st,
     yielded (chat agent w prompt false) = [EError content st]
     /\ api_chat state w body = JSONError 500 content)
  \/ (exists think say calls,
        yielded (chat agent w prompt false) = [ESyncComplete think say calls]
        /\ api_chat state w body
           = JSONResult {| res_think := think; res_say := say; res_tool_calls := [];
                           res_token_stats := Some None |}).
Proof.
  intros Hagent Hstream prompt. unfold api_chat. rewrite Hagent, Hstream. fold prompt.
  unfold chat. destruct (_stream_chat_with_tools agent w prompt) as [[acts s] e].
  rewrite yielded_app, yielded_unyielded. destruct e as [|x]; simpl.
  - right. unfold _sync_chat_with_tools.
    destruct (fold_left collect (yielded acts) ([], [], [])) as [[think say] calls].
    now exists think, say, calls.
  - left. now exists x, (stats s).
Qed.

End Router.

(** X25, witness: the agent's result holds the two calls of [twice_world];
    the answer of the endpoint holds none. *)
Lemma api_chat_drops_the_tool_calls_witness :
  let state := {| app_agent := Some git_agent; app_preprocessor := Some motd_web |} in
  let body := {| req_prompt := u "hi"; req_stream := false; req_preprocess := true |} in
  (exists think say calls,
     yielded (chat git_agent twice_world (preprocessed state body) false)
     = [ESyncComplete think say calls]
     /\ length calls = 2%nat)
  /\ api_chat state twice_world body
     = JSONResult {| res_think := []; res_say := u "done"; res_tool_calls := [];
                     res_token_stats := Some None |}.
Proof.
  intros state body.
  destruct (api_chat_drops_the_tool_calls state twice_world body git_agent
              eq_refl eq_refl) as [(content & st & Hy & Hres)|(think & say & calls & Hy & Hres)].
  - exfalso. revert Hy. vm_compute. discriminate.
  - split.
    + exists think, say, calls. split; [exact Hy|].
      revert Hy. vm_compute. intros [= _ _ <-]. reflexivity.
    + rewrite Hres. revert Hy. vm_compute. now intros [= <- <- _].
Defined.

(* ===================================================================== *)
(** ** mcp/shell.py: the shell tools                                      *)
(* ===================================================================== *)

Definition DANGEROUS_PATTERNS : list pystr :=
  map u ["rm -rf /"; "rm -rf /*"; ":(){ :|:& };:"; "> /dev/sda"; "mkfs.";
         "dd if=/dev/zero"; "chmod -R 777 /"; "chown -R"; "sudo rm"; "sudo dd";
         "sudo mkfs"; "sudo chmod"; "shutdown"; "reboot"; "init 0"; "init 6";
         "halt"; "poweroff"; ":(){"; "fork bomb"]%string.

Definition BLOCKED_COMMANDS : list pystr :=
  map u ["sudo"; "su"; "passwd"; "useradd"; "userdel"; "groupadd"; "groupdel";
         "visudo"; "mount"; "umount"; "fdisk"; "mkfs"; "fsck"; "iptables";
         "firewall-cmd"; "systemctl"; "service"; "init"; "telinit"]%string.

Definition MAX_TIMEOUT : Z := 60.
Definition DEFAULT_TIMEOUT : Z := 30.
Definition MAX_OUTPUT_LENGTH : nat := N.to_nat 50000.

(** [shlex.split] and [shlex.quote] belong to the interpreter's library;
    [shlex_split] gives the words, or the text of the [ValueError]. *)
Class PyShlex := {
  shlex_split : pystr -> pystr + list pystr;
  shlex_quote : pystr -> pystr
}.

(** [os.path.basename]: what follows the last slash. *)
Fixpoint basename_go (piece : pystr) (p : pystr) : pystr :=
  match p with
  | [] => reverse piece
  | c :: p' => if c =? 47 then basename_go [] p' else basename_go (c :: piece) p'
  end.

Definition basename (p : pystr) : pystr := basename_go [] p.

(** [p.count("/")] *)
Definition count_char (c : char) (p : pystr) : nat :=
  length (List.filter (N.eqb c) p).

(** [x in parts] *)
Definition among (x : pystr) (parts : list pystr) : bool := existsb (str_eqb x) parts.

(** [s.split()]: the words between runs of white space. *)
Fixpoint words_go (piece : pystr) (s : pystr) : list pystr :=
  match s with
  | [] => match piece with [] => [] | _ :: _ => [reverse piece] end
  | c :: s' =>
    if isspace c
    then match piece with
         | [] => words_go [] s'
         | _ :: _ => reverse piece :: words_go [] s'
         end
    else words_go (c :: piece) s'
  end.

Definition words (s : pystr) : list pystr := words_go [] s.

(** What [is_command_safe] gives: its pair, or the [ValueError] of
    [shlex.split]. *)
Inductive verdict :=
| Verdict (is_safe : bool) (reason : pystr)
| SplitFails (e : pystr).

(** What the operating system does with a command line: it runs to its
    end, it is killed when the timeout passes, or starting it raises. *)
Inductive spawn_outcome :=
| Finished (return_code : Z) (stdout stderr : pystr)
| TimedOut
| SpawnFails (e : pystr).

Record ShellWorld := {
  isdir : pystr -> bool;
  getcwd : pystr;
  run_shell : pystr -> pystr -> Z -> option dict -> spawn_outcome
}.

(** A subprocess the tools create: the command line, its directory, the
    timeout it is given and the additions to the environment. *)
Inductive shell_action :=
| Spawn (command cwd : pystr) (timeout : Z) (env : option dict).

Section Shell.
Context `{PyUnicode} `{PyShlex}.

(** [is_command_safe] *)
Definition is_command_safe (command : pystr) : verdict :=
  let command_lower := strip (lower command) in
  match List.find (fun pattern => str_in (lower pattern) command_lower)
                  DANGEROUS_PATTERNS with
  | Some pattern => Verdict false (u "检测到危险命令模式: " ++ pattern)
  | None =>
    match shlex_split command with
    | inl e => SplitFails e
    | inr [] => Verdict false (u "空命令")
    | inr (p0 :: rest) =>
      let parts := p0 :: rest in
      let base_cmd := basename p0 in
      if among base_cmd BLOCKED_COMMANDS
      then Verdict false (u "命令被禁止: " ++ base_cmd)
      else if str_eqb base_cmd (u "rm") then
        if among (u "-rf") parts
           && (among (u "/") parts || among (u "/*") parts || among (u "..") parts)
        then Verdict false (u "禁止递归删除根目录或上级目录")
        else if existsb (fun p => startswith (u "/") p && Nat.leb (count_char 47 p) 2)
                        (List.filter (fun p => negb (startswith (u "-") p)) rest)
        then Verdict false (u "禁止删除系统级目录")
        else Verdict true []
      else Verdict true []
    end
  end.

Definition refusal (error command : pystr) : value :=
  VDict [(u "success", VBool false); (u "error", VStr error); (u "command", VStr command)].

(** [text[:MAX_OUTPUT_LENGTH]] and the note, for a long output. *)
Definition cut_output (text : pystr) : pystr :=
  if (MAX_OUTPUT_LENGTH <? length text)%nat
  then take MAX_OUTPUT_LENGTH text
       ++ [10] ++ u "... (输出被截断，总长度: " ++ u (pretty (length text)) ++ u ")"
  else text.

(** [execute_command]: the subprocess it creates, if any, and how the call
    ends. *)
Definition execute_command (sw : ShellWorld) (command : pystr)
    (working_dir : option pystr) (timeout : Z) (env : option dict)
    (confirm_delete : bool) : list shell_action * outcome :=
  match is_command_safe command with
  | SplitFails e => ([], Raises e)
  | Verdict false reason => ([], Returns (refusal reason command))
  | Verdict true _ =>
    match shlex_split command with
    | inl e => ([], Raises e)
    | inr parts =>
      let base_cmd := match parts with p0 :: _ => basename p0 | [] => [] end in
      if str_eqb base_cmd (u "rm") && (1 <? length parts)%nat
         && negb (existsb (fun p => among p [u "--help"; u "-h"]) parts)
         && negb confirm_delete
      then ([], Returns (refusal (u "删除命令需要确认。请设置 confirm_delete=True 来执行此操作")
                           command))
      else
        let timeout := if (MAX_TIMEOUT <? timeout)%Z then MAX_TIMEOUT else timeout in
        let work_dir := default (getcwd sw) (truthy working_dir) in
        if negb (isdir sw work_dir)
        then ([], Returns (refusal (u "工作目录不存在: " ++ work_dir) command))
        else
          ([Spawn command work_dir timeout env],
           Returns
             match run_shell sw command work_dir timeout env with
             | SpawnFails e => refusal e command
             | TimedOut =>
               VDict [(u "success", VBool false);
                      (u "error", VStr (u "命令执行超时 (" ++ u (pretty timeout) ++ u "秒)"));
                      (u "command", VStr command); (u "return_code", VInt (-1))]
             | Finished return_code stdout stderr =>
               VDict [(u "success", VBool (return_code =? 0)%Z);
                      (u "command", VStr command);
                      (u "return_code", VInt return_code);
                      (u "stdout", VStr (cut_output stdout));
                      (u "stderr", VStr (cut_output stderr));
                      (u "working_dir", VStr work_dir)]
             end)
    end
  end.

Definition INTERPRETERS : list pystr := map u ["bash"; "sh"; "python"; "python3"]%string.

(** [execute_script] *)
Definition execute_script (sw : ShellWorld) (script interpreter : pystr)
    (working_dir : option pystr) (timeout : Z) : list shell_action * outcome :=
  if negb (among interpreter INTERPRETERS) then
    ([], Returns (VDict [(u "success", VBool false);
                         (u "error", VStr (u "不支持的解释器: " ++ interpreter));
                         (u "allowed", VList (map VStr INTERPRETERS))]))
  else
    match List.find (fun pattern => str_in (lower pattern) (lower script))
                    DANGEROUS_PATTERNS with
    | Some pattern =>
      ([], Returns (VDict [(u "success", VBool false);
                           (u "error", VStr (u "脚本包含危险模式: " ++ pattern))]))
    | None =>
      match List.find (fun cmd => among cmd (words script)) BLOCKED_COMMANDS with
      | Some cmd =>
        ([], Returns (VDict [(u "success", VBool false);
                             (u "error", VStr (u "脚本包含被禁止的命令: " ++ cmd))]))
      | None =>
        execute_command sw (interpreter ++ u " -c " ++ shlex_quote script)
          working_dir timeout None false
      end
    end.

(** *** What is refused and what is run *)

Lemma find_first {A} (p : A -> bool) (l : list A) x :
  x ∈ l -> p x = true -> exists y, List.find p l = Some y /\ y ∈ l /\ p y = true.
Proof.
  induction l as [|z l IH]; intros Hin Hp; [inversion Hin|]. simpl.
  destruct (p z) eqn:Hz.
  - exists z. split; [reflexivity|]. split; [left|exact Hz].
  - apply elem_of_cons in Hin as [->|Hin]; [congruence|].
    destruct (IH Hin Hp) as (y & Hfind & Hy & Hpy). exists y.
    split; [exact Hfind|]. split; [now right|exact Hpy].
Qed.

(** X26: a command that holds one of the dangerous patterns, in any
    letter case and anywhere in its text, is refused before it is split
    into words: [execute_command] creates no subprocess and answers with
    the refusal that names a pattern of the list found in the command. The
    same holds of a script, for every interpreter that is allowed. *)
Theorem dangerous_patterns_are_refused sw pattern text :
  pattern ∈ DANGEROUS_PATTERNS ->
  (str_in (lower pattern) (strip (lower text)) = true ->
   forall working_dir timeout env confirm_delete,
   exists found,
     found ∈ DANGEROUS_PATTERNS
     /\ str_in (lower found) (strip (lower text)) = true
     /\ execute_command sw text working_dir timeout env confirm_delete
        = ([], Returns (refusal (u "检测到危险命令模式: " ++ found) text)))
  /\ (str_in (lower pattern) (lower text) = true ->
      forall interpreter working_dir timeout,
      among interpreter INTERPRETERS = true ->
      exists found,
        found ∈ DANGEROUS_PATTERNS
        /\ str_in (lower found) (lower text) = true
        /\ execute_script sw text interpreter working_dir timeout
           = ([], Returns (VDict [(u "success", VBool false);
                                  (u "error", VStr (u "脚本包含危险模式: " ++ found))]))).
Proof.
  intros Hpattern. split.
  - intros Hin working_dir timeout env confirm_delete.
    destruct (find_first (fun p => str_in (lower p) (strip (lower text)))
                DANGEROUS_PATTERNS pattern Hpattern Hin) as (found & Hfind & Hfound & Hp).
    exists found. split; [exact Hfound|]. split; [exact Hp|].
    unfold execute_command, is_command_safe. now rewrite Hfind.
  - intros Hin interpreter working_dir timeout Hinterp.
    destruct (find_first (fun p => str_in (lower p) (lower text))
                DANGEROUS_PATTERNS pattern Hpattern Hin) as (found & Hfind & Hfound & Hp).
    exists found. split; [exact Hfound|]. split; [exact Hp|].
    unfold execute_script. now rewrite Hinterp, Hfind.
Qed.

(** [execute_command] creates no subprocess, or the one for its command,
    and then the command has passed every check before. *)
Lemma execute_command_cases sw command working_dir timeout env confirm_delete :
  (execute_command sw command working_dir timeout env confirm_delete).1 = []
  \/ ((execute_command sw command working_dir timeout env confirm_delete).1
      = [Spawn command (default (getcwd sw) (truthy working_dir))
           (Z.min timeout MAX_TIMEOUT) env]
      /\ is_command_safe command = Verdict true []
      /\ isdir sw (default (getcwd sw) (truthy working_dir)) = true
      /\ exists p0 rest,
           shlex_split command = inr (p0 :: rest)
           /\ among (basename p0) BLOCKED_COMMANDS = false
           /\ (basename p0 = u "rm" -> rest <> [] ->
               confirm_delete = true
               \/ existsb (fun p => among p [u "--help"; u "-h"]) (p0 :: rest) = true)).
Proof.
  unfold execute_command.
  destruct (is_command_safe command) as [[|] reason|e] eqn:Hsafe; [|now left..].
  assert (Hparts : exists p0 rest,
             shlex_split command = inr (p0 :: rest)
             /\ among (basename p0) BLOCKED_COMMANDS = false /\ reason = []).
  { unfold is_command_safe in Hsafe.
    destruct (List.find _ DANGEROUS_PATTERNS); [discriminate|].
    destruct (shlex_split command) as [e|[|p0 rest]]; [discriminate|discriminate|].
    exists p0, rest. split; [reflexivity|].
    destruct (among (basename p0) BLOCKED_COMMANDS); [discriminate|].
    split; [reflexivity|].
    destruct (str_eqb (basename p0) (u "rm")); [|now injection Hsafe].
    destruct (_ && _); [discriminate|]. destruct (existsb _ _); [discriminate|].
    now injection Hsafe. }
  destruct Hparts as (p0 & rest & Hsplit & Hblocked & ->). rewrite Hsplit.
  destruct (str_eqb (basename p0) (u "rm") && (1 <? length (p0 :: rest))%nat
            && negb (existsb (fun p => among p [u "--help"; u "-h"]) (p0 :: rest))
            && negb confirm_delete) eqn:Hrm; [now left|].
  destruct (negb (isdir sw (default (getcwd sw) (truthy working_dir)))) eqn:Hdir;
    [now left|].
  right. cbn [fst]. split.
  - f_equal. f_equal. unfold MAX_TIMEOUT. destruct (Z.ltb_spec 60 timeout); lia.
  - split; [reflexivity|]. split; [now apply negb_false_iff in Hdir|].
    exists p0, rest. split; [reflexivity|]. split; [exact Hblocked|].
    intros Hbase Hrest.
    assert (Hone : (1 <? length (p0 :: rest))%nat = true).
    { destruct rest; [contradiction|reflexivity]. }
    unfold str_eqb in Hrm. rewrite (bool_decide_eq_true_2 _ Hbase), Hone in Hrm.
    simpl in Hrm. apply andb_false_iff in Hrm as [Hhelp|Hconfirm].
    + right. now apply negb_false_iff in Hhelp.
    + left. now apply negb_false_iff in Hconfirm.
Qed.

(** X27: every subprocess that [execute_command] creates runs the command
    it was given, which [is_command_safe] has passed; its timeout is the
    one asked for, cut down to 60 seconds; its directory exists; and a
    command whose program is [rm] and that has arguments is run only with
    [confirm_delete] or with a help flag among its words. At most one
    subprocess is created. *)
Theorem only_screened_commands_are_run sw command working_dir timeout env
    confirm_delete :
  (length (execute_command sw command working_dir timeout env confirm_delete).1 <= 1)%nat
  /\ forall cmd cwd t e,
       Spawn cmd cwd t e
         ∈ (execute_command sw command working_dir timeout env confirm_delete).1 ->
       cmd = command /\ e = env
       /\ is_command_safe command = Verdict true []
       /\ t = Z.min timeout MAX_TIMEOUT
       /\ isdir sw cwd = true
       /\ exists p0 rest,
            shlex_split command = inr (p0 :: rest)
            /\ among (basename p0) BLOCKED_COMMANDS = false
            /\ (basename p0 = u "rm" -> rest <> [] ->
                confirm_delete = true
                \/ existsb (fun p => among p [u "--help"; u "-h"]) (p0 :: rest) = true).
Proof.
  destruct (execute_command_cases sw command working_dir timeout env confirm_delete)
    as [Hnone|(Hone & Hsafe & Hdir & Hparts)].
  - rewrite Hnone. split; [simpl; lia|]. intros cmd cwd t e Hin. inversion Hin.
  - rewrite Hone. split; [simpl; lia|]. intros cmd cwd t e Hin.
    apply list_elem_of_singleton in Hin. injection Hin as -> -> -> ->.
    split; [reflexivity|]. split; [reflexivity|]. split; [exact Hsafe|].
    split; [reflexivity|]. split; [exact Hdir|exact Hparts].
Qed.

(** X28: a script is run by one of the four interpreters only, as the one
    command line [<interpreter> -c <quoted script>], with no additions to
    the environment, and only when it holds no dangerous pattern and none
    of its words is a blocked command; the command line then has to pass
    the screen of [execute_command] as well. *)
Theorem scripts_are_screened_twice sw script interpreter working_dir timeout cmd cwd t e :
  Spawn cmd cwd t e ∈ (execute_script sw script interpreter working_dir timeout).1 ->
  interpreter ∈ INTERPRETERS
  /\ cmd = interpreter ++ u " -c " ++ shlex_quote script
  /\ e = None
  /\ (forall pattern, pattern ∈ DANGEROUS_PATTERNS ->
                      str_in (lower pattern) (lower script) = false)
  /\ (forall blocked, blocked ∈ BLOCKED_COMMANDS -> among blocked (words script) = false)
  /\ is_command_safe cmd = Verdict true []
  /\ t = Z.min timeout MAX_TIMEOUT.
Proof.
  unfold execute_script.
  destruct (among interpreter INTERPRETERS) eqn:Hinterp; cbn [negb];
    [|intros Hin; inversion Hin].
  match goal with
  | |- context [List.find ?p DANGEROUS_PATTERNS] =>
    destruct (List.find p DANGEROUS_PATTERNS) as [pattern|] eqn:Hpat
  end; [intros Hin; inversion Hin|].
  match goal with
  | |- context [List.find ?p BLOCKED_COMMANDS] =>
    destruct (List.find p BLOCKED_COMMANDS) as [blocked|] eqn:Hblk
  end; [intros Hin; inversion Hin|].
  intros Hin.
  destruct (execute_command_cases sw (interpreter ++ u " -c " ++ shlex_quote script)
              working_dir timeout None false) as [Hnone|(Hone & Hsafe & _)].
  { rewrite Hnone in Hin. inversion Hin. }
  rewrite Hone in Hin. apply list_elem_of_singleton in Hin. injection Hin as -> -> -> ->.
  split.
  - unfold among in Hinterp. apply existsb_exists in Hinterp as (x & Hx & Heq).
    unfold str_eqb in Heq. apply bool_decide_eq_true in Heq as ->.
    now apply list_elem_of_In.
  - split; [reflexivity|]. split; [reflexivity|].
    split; [exact (proj1 (find_none_iff _ _) Hpat)|].
    split; [exact (proj1 (find_none_iff _ _) Hblk)|]. split; [exact Hsafe|reflexivity].
Qed.

End Shell.

(** *** The library's word splitting, for the examples *)

Inductive lex_state :=
| LexBetween
| LexWord
| LexQuote (q : char)
| LexEscape (within : option char).

(** A token is given when it has text or was quoted. *)
Definition emit (quoted : bool) (token : pystr) (l : list pystr) : list pystr :=
  match quoted, token with
  | false, [] => l
  | _, _ => reverse token :: l
  end.

(** [shlex.split] in its POSIX mode, splitting at white space only:
    quotes group, a backslash escapes the next character, and inside
    double quotes a backslash stays unless it escapes the quote or
    itself. [token] is the word being read, reversed. *)
Fixpoint posix_split_go (st : lex_state) (quoted : bool) (token : pystr) (s : pystr)
  : pystr + list pystr :=
  match s with
  | [] =>
    match st with
    | LexQuote _ => inl (u "No closing quotation")
    | LexEscape _ => inl (u "No escaped character")
    | _ => inr (emit quoted token [])
    end
  | c :: s' =>
    let is_ws := (c =? 32) || (c =? 9) || (c =? 13) || (c =? 10) in
    let is_quote := (c =? 39) || (c =? 34) in
    match st with
    | LexBetween =>
      if is_ws then posix_split_go LexBetween false [] s'
      else if c =? 92 then posix_split_go (LexEscape None) quoted token s'
      else if is_quote then posix_split_go (LexQuote c) true token s'
      else posix_split_go LexWord quoted (c :: token) s'
    | LexWord =>
      if is_ws then
        match posix_split_go LexBetween false [] s' with
        | inl e => inl e
        | inr l => inr (emit quoted token l)
        end
      else if is_quote then posix_split_go (LexQuote c) true token s'
      else if c =? 92 then posix_split_go (LexEscape None) quoted token s'
      else posix_split_go LexWord quoted (c :: token) s'
    | LexQuote q =>
      if c =? q then posix_split_go LexWord true token s'
      else if (c =? 92) && (q =? 34) then posix_split_go (LexEscape (Some q)) true token s'
      else posix_split_go (LexQuote q) true (c :: token) s'
    | LexEscape None => posix_split_go LexWord quoted (c :: token) s'
    | LexEscape (Some q) =>
      posix_split_go (LexQuote q) quoted
        (if negb (c =? 92) && negb (c =? q) then c :: 92 :: token else c :: token) s'
    end
  end.

(** The characters [shlex.quote] leaves bare. *)
Definition shell_safe (c : char) : bool :=
  ((48 <=? c) && (c <=? 57)) || ((65 <=? c) && (c <=? 90)) || ((97 <=? c) && (c <=? 122))
  || existsb (N.eqb c) (u "_@%+=:,./-").

(** [shlex.quote] *)
Definition posix_quote (s : pystr) : pystr :=
  match s with
  | [] => [39; 39]
  | _ :: _ =>
    if forallb shell_safe s then s
    else [39] ++ flat_map (fun c => if c =? 39 then [39; 34; 39; 34; 39] else [c]) s
         ++ [39]
  end.

#[export] Instance posix_shlex : PyShlex := {|
  shlex_split := posix_split_go LexBetween false [];
  shlex_quote := posix_quote
|}.

(** A machine with the directory [/srv], where every command prints
    [ok]. *)
Definition srv_machine : ShellWorld :=
  {| isdir d := str_eqb d (u "/srv");
     getcwd := u "/srv";
     run_shell _ _ _ _ := Finished 0 (u "ok") [] |}.

(** X26, witness: a shutdown in capitals, behind another command. *)
Lemma dangerous_patterns_are_refused_witness :
  u "shutdown" ∈ DANGEROUS_PATTERNS
  /\ str_in (lower (u "shutdown")) (strip (lower (u " date; ShutDown -h now "))) = true
  /\ (exists found,
        found ∈ DANGEROUS_PATTERNS
        /\ execute_command srv_machine (u " date; ShutDown -h now ") None 30 None false
           = ([], Returns (refusal (u "检测到危险命令模式: " ++ found)
                             (u " date; ShutDown -h now "))))
  /\ execute_command srv_machine (u " date; ShutDown -h now ") None 30 None false
     = ([], Returns (refusal (u "检测到危险命令模式: shutdown") (u " date; ShutDown -h now "))).
Proof.
  assert (Hin : u "shutdown" ∈ DANGEROUS_PATTERNS).
  { apply list_elem_of_In. vm_compute. tauto. }
  assert (Hhas : str_in (lower (u "shutdown"))
                   (strip (lower (u " date; ShutDown -h now "))) = true)
    by (vm_compute; reflexivity).
  destruct (dangerous_patterns_are_refused srv_machine (u "shutdown")
              (u " date; ShutDown -h now ") Hin) as [Hcommand _].
  destruct (Hcommand Hhas None 30%Z None false) as (found & Hfound & _ & Hexec).
  split; [exact Hin|]. split; [exact Hhas|]. split; [now exists found|].
  vm_compute. reflexivity.
Defined.

(** X27, witness: a listing, asked for with too long a timeout, runs in
    the current directory with 60 seconds. *)
Lemma only_screened_commands_are_run_witness :
  (execute_command srv_machine (u "ls -la '/tmp/my dir'") None 600 None false).1
  = [Spawn (u "ls -la '/tmp/my dir'") (u "/srv") 60 None]
  /\ is_command_safe (u "ls -la '/tmp/my dir'") = Verdict true []
  /\ shlex_split (u "ls -la '/tmp/my dir'") = inr [u "ls"; u "-la"; u "/tmp/my dir"].
Proof.
  assert (Hrun : (execute_command srv_machine (u "ls -la '/tmp/my dir'") None 600 None
                    false).1
                 = [Spawn (u "ls -la '/tmp/my dir'") (u "/srv") 60 None])
    by (vm_compute; reflexivity).
  destruct (only_screened_commands_are_run srv_machine (u "ls -la '/tmp/my dir'")
              None 600 None false) as [_ Hall].
  destruct (Hall (u "ls -la '/tmp/my dir'") (u "/srv") 60%Z None)
    as (_ & _ & Hsafe & _).
  - rewrite Hrun. left.
  - split; [exact Hrun|]. split; [exact Hsafe|]. vm_compute. reflexivity.
Defined.

(** X28, witness: a script for [bash]. *)
Lemma scripts_are_screened_twice_witness :
  (execute_script srv_machine (u "echo hi") (u "bash") None 30).1
  = [Spawn (u "bash -c 'echo hi'") (u "/srv") 30 None]
  /\ is_command_safe (u "bash" ++ u " -c " ++ shlex_quote (u "echo hi")) = Verdict true [].
Proof.
  assert (Hrun : (execute_script srv_machine (u "echo hi") (u "bash") None 30).1
                 = [Spawn (u "bash -c 'echo hi'") (u "/srv") 30 None])
    by (vm_compute; reflexivity).
  destruct (scripts_are_screened_twice srv_machine (u "echo hi") (u "bash") None 30%Z
              (u "bash -c 'echo hi'") (u "/srv") 30%Z None)
    as (_ & Hcmd & _ & _ & _ & Hsafe & _).
  - rewrite Hrun. left.
  - split; [exact Hrun|]. rewrite <- Hcmd. exact Hsafe.
Defined.
